(** * Chat service with a length-prefixed binary framing

    A shallow embedding of [server.py] and [client.py]: the frame codec
    ([build_header], [parse_header]), the exact-length reader ([recv_all]),
    the per-connection handler of the server ([handle_client], with
    [send_ack] and [broadcast]) and the command loop of the client
    ([main], with [send_file] and the other senders).

    Sockets, the clock and the file system are the environment.  What a
    handler does to them is recorded in a trace of effects, in program
    order; what they answer is read from an oracle ([Env]) and from the
    queue of incoming segments of each socket.  Calls to [logging] and
    [print] are not modelled: they only write diagnostics. *)

From Stdlib Require Import String Ascii Strings.Byte DecimalString.
From Stdlib Require Import ZArith NArith Lia Bool List Permutation.
From Stdlib Require DecimalPos DecimalZ.
Import ListNotations.

Open Scope Z_scope.

(* ================================================================= *)
(** ** Bytes and Python [str] values *)

Definition bytes := list byte.

Definition byte_of_Z (z : Z) : byte :=
  match Byte.of_N (Z.to_N z) with
  | Some b => b
  | None => x00
  end.

Definition Z_of_byte (b : byte) : Z := Z.of_N (Byte.to_N b).

(** [len(x)] of Python, as an integer. *)
Definition len {A : Type} (l : list A) : Z := Z.of_nat (length l).

(** A byte-string literal such as [b'CONNECTED']. *)
Definition blit (s : string) : bytes := list_byte_of_string s.

(** A Python [str] is a sequence of Unicode code points. *)
Definition codepoint := N.
Definition str := list codepoint.

(** A [str] literal (7-bit characters). *)
Definition lit (s : string) : str := map N_of_ascii (list_ascii_of_string s).

(** [str(n)] and the [{n}] of an f-string, for an integer [n]. *)
Definition str_of_int (n : Z) : str := lit (NilZero.string_of_int (Z.to_int n)).

(** [sep.join(parts)]. *)
Fixpoint str_join (sep : str) (parts : list str) : str :=
  match parts with
  | [] => []
  | [p] => p
  | p :: rest => p ++ sep ++ str_join sep rest
  end.

Definition byte_of_N (n : N) : byte :=
  match Byte.of_N n with
  | Some b => b
  | None => x00
  end.

(** UTF-8 encoding of one code point; [None] where the strict encoder of
    Python raises [UnicodeEncodeError] (surrogates, and numbers that are
    no code point at all). *)
Definition utf8_encode_cp (c : codepoint) : option bytes :=
  (if c <? 128 then Some [byte_of_N c]
   else if c <? 2048 then
     Some [byte_of_N (192 + c / 64); byte_of_N (128 + c mod 64)]
   else if c <? 65536 then
     if (55296 <=? c) && (c <=? 57343) then None
     else Some [byte_of_N (224 + c / 4096);
                byte_of_N (128 + (c / 64) mod 64);
                byte_of_N (128 + c mod 64)]
   else if c <? 1114112 then
     Some [byte_of_N (240 + c / 262144);
           byte_of_N (128 + (c / 4096) mod 64);
           byte_of_N (128 + (c / 64) mod 64);
           byte_of_N (128 + c mod 64)]
   else None)%N.

(** [s.encode('utf-8')]. *)
Fixpoint utf8_encode (s : str) : option bytes :=
  match s with
  | [] => Some []
  | c :: rest =>
      match utf8_encode_cp c, utf8_encode rest with
      | Some b, Some bs => Some (b ++ bs)
      | _, _ => None
      end
  end.

(* ================================================================= *)
(** ** Frame codec *)

Definition VERSION : Z := 1.
Definition TYPE_CONNECT : Z := 1.
Definition TYPE_MSG : Z := 2.
Definition TYPE_LIST : Z := 3.
Definition TYPE_FILE : Z := 4.
Definition TYPE_ACK : Z := 5.
Definition TYPE_DISCONNECT : Z := 6.

(** [struct.calcsize('!BBHI')]. *)
Definition HEADER_SIZE : nat := 8.

(** One field of [struct.pack] in network byte order: an unsigned integer
    of [w] bytes, most significant byte first.  [None] is [struct.error]
    (the value does not fit the field). *)
Fixpoint be_bytes (w : nat) (x : Z) : bytes :=
  match w with
  | O => []
  | S w' => be_bytes w' (x / 256) ++ [byte_of_Z (x mod 256)]
  end.

Definition pack_uint (w : nat) (x : Z) : option bytes :=
  if (0 <=? x) && (x <? 2 ^ (8 * Z.of_nat w)) then Some (be_bytes w x) else None.

(** One field of [struct.unpack]: the number a big-endian byte string
    stands for. *)
Definition be_value (bs : bytes) : Z :=
  fold_left (fun acc b => acc * 256 + Z_of_byte b) bs 0.

(** [build_header]: [struct.pack('!BBHI', version, type_, seq, length)]. *)
Definition build_header (version type_ seq length : Z) : option bytes :=
  match pack_uint 1 version, pack_uint 1 type_, pack_uint 2 seq, pack_uint 4 length with
  | Some v, Some t, Some s, Some l => Some (v ++ t ++ s ++ l)
  | _, _, _, _ => None
  end.

(** [parse_header] of the server: [None] is the [ValueError] raised for
    fewer than [HEADER_SIZE] bytes; otherwise the first eight bytes are
    unpacked. *)
Definition parse_header (data : bytes) : option (Z * Z * Z * Z) :=
  if (length data <? HEADER_SIZE)%nat then None
  else
    match firstn HEADER_SIZE data with
    | [b0; b1; b2; b3; b4; b5; b6; b7] =>
        Some (be_value [b0], be_value [b1], be_value [b2; b3],
              be_value [b4; b5; b6; b7])
    | _ => None
    end.

(* ================================================================= *)
(** ** Exceptions, results and the state monad of the handlers *)

Inductive exn : Type :=
| StructError          (* struct.pack: a value out of range *)
| ValueError           (* parse_header: short header *)
| UnicodeEncodeError   (* str.encode *)
| OSError              (* a socket or file operation failed *)
| ConnectionResetError (* recv on a reset connection *)
| EOFError             (* input() at the end of the console *)
| KeyboardInterrupt.

(** [except Exception] catches everything but [KeyboardInterrupt]. *)
Definition is_Exception (e : exn) : bool :=
  match e with
  | KeyboardInterrupt => false
  | _ => true
  end.

(** The outcome of a computation: a value, a raised exception, or the
    loop bound of the model reached before the code returned. *)
Inductive res (A : Type) : Type :=
| Ret (a : A)
| Raise (e : exn)
| OutOfFuel.

Arguments Ret {A} a.
Arguments Raise {A} e.
Arguments OutOfFuel {A}.

Section Monad.
Variable St : Type.

Definition M (A : Type) : Type := St -> res A * St.

Definition ret {A} (a : A) : M A := fun w => (Ret a, w).

Definition raise {A} (e : exn) : M A := fun w => (Raise e, w).

Definition out_of_fuel {A} : M A := fun w => (OutOfFuel, w).

Definition bind {A B} (m : M A) (k : A -> M B) : M B :=
  fun w =>
    match m w with
    | (Ret a, w') => k a w'
    | (Raise e, w') => (Raise e, w')
    | (OutOfFuel, w') => (OutOfFuel, w')
    end.

(** [try: m  except <those e with catches e>: h e]. *)
Definition try_except {A} (catches : exn -> bool) (m : M A) (h : exn -> M A) : M A :=
  fun w =>
    match m w with
    | (Raise e, w') => if catches e then h e w' else (Raise e, w')
    | r => r
    end.

(** [try: m  finally: f].  The finaliser runs after a value and
    after an exception; an exception of its own replaces the outcome. *)
Definition try_finally {A} (m : M A) (f : M unit) : M A :=
  fun w =>
    match m w with
    | (OutOfFuel, w') => (OutOfFuel, w')
    | (r, w') =>
        match f w' with
        | (Ret _, w'') => (r, w'')
        | (Raise e, w'') => (Raise e, w'')
        | (OutOfFuel, w'') => (OutOfFuel, w'')
        end
    end.

(** An operation that may fail with [e] ([None]). *)
Definition lift_option {A} (e : exn) (o : option A) : M A :=
  match o with
  | Some a => ret a
  | None => raise e
  end.

(** [for x in xs: body x]. *)
Fixpoint for_each {A} (xs : list A) (body : A -> M unit) : M unit :=
  match xs with
  | [] => ret tt
  | x :: rest => bind (body x) (fun _ => for_each rest body)
  end.
End Monad.

Arguments ret {St A} a.
Arguments raise {St A} e.
Arguments out_of_fuel {St A}.
Arguments bind {St A B} m k.
Arguments try_except {St A} catches m h.
Arguments try_finally {St A} m f.
Arguments lift_option {St A} e o.
Arguments for_each {St A} xs body.

Declare Scope monad_scope.
Delimit Scope monad_scope with monad.
Notation "x <- m ;; k" := (bind m (fun x => k))
  (at level 61, m at next level, right associativity) : monad_scope.
Notation "m ;; k" := (bind m (fun _ => k))
  (at level 61, right associativity) : monad_scope.
Open Scope monad_scope.

(** How a pass through the body of a [while True] loop ends. *)
Inductive ctl : Type := Continue | Break.

(* ================================================================= *)
(** ** The registry: the dict [clients] *)

(** A socket object, by identity. *)
Definition conn := nat.
Bind Scope nat_scope with conn.

(** A peer address [(ip, port)]. *)
Definition addr := (str * Z)%type.

(** The value [{'name': name, 'addr': addr}] stored for a connection. *)
Record info : Type := Info { name : str; peer : addr }.

(** A dict keeps its keys in insertion order. *)
Definition registry := list (conn * info).

Definition keys (d : registry) : list conn := map fst d.
Definition values (d : registry) : list info := map snd d.

(** [k in d]. *)
Definition dict_mem (k : conn) (d : registry) : bool :=
  existsb (Nat.eqb k) (keys d).

(** [d[k] = v]: the value of a present key is replaced where it is, a new
    key goes to the end. *)
Fixpoint dict_set (k : conn) (v : info) (d : registry) : registry :=
  match d with
  | [] => [(k, v)]
  | (k', v') :: rest =>
      if Nat.eqb k k' then (k, v) :: rest else (k', v') :: dict_set k v rest
  end.

(** [del d[k]] for a present key. *)
Definition dict_del (k : conn) (d : registry) : registry :=
  filter (fun e => negb (Nat.eqb k (fst e))) d.

(** [if conn in clients: del clients[conn]] (the body of the critical
    section of the cleanup). *)
Definition unregister (c : conn) (d : registry) : registry :=
  if dict_mem c d then dict_del c d else d.

(** [[s for s in clients.keys() if s != sender_sock]]. *)
Definition snapshot_except (sender : conn) (d : registry) : list conn :=
  filter (fun s => negb (Nat.eqb s sender)) (keys d).

(** The truth value of a [str]: non-empty. *)
Definition truthy (s : str) : bool :=
  match s with
  | [] => false
  | _ => true
  end.

(** [[info['name'] for info in clients.values()
      if 'name' in info and info['name']]].  Every stored value has the
    key ['name']. *)
Definition list_names (d : registry) : list str :=
  map name (filter (fun i => truthy (name i)) (values d)).

(* ================================================================= *)
(** ** The world of the server *)

(** What is waiting on the receiving side of a socket: segments of data
    in arrival order, or a reset.  An empty queue is a stream the peer has
    closed; so is an empty segment ([recv] returns [b'']). *)
Inductive segment : Type :=
| Chunk (data : bytes)
| Reset.

(** What a handler does to its environment. *)
Inductive effect : Type :=
| EvAcquire                                        (* clients_lock taken *)
| EvRelease                                        (* clients_lock released *)
| EvSendall (s : conn) (data : bytes) (ok : bool)  (* s.sendall(data); ok: it returned *)
| EvAppend (fname : str) (data : bytes)            (* data appended to a file *)
| EvClose (s : conn).                              (* s.close() *)

Record world : Type := World {
  clients : registry;          (* the global dict *)
  rx : conn -> list segment;   (* incoming data of every socket *)
  trace : list effect;         (* effects so far, oldest first *)
  ticks : nat                  (* questions put to the oracle so far *)
}.

(** The answers of the environment.  The decoder and [str] of an address
    are library functions of Python; the others say, for the [n]-th
    question, whether a write succeeds and what the clock shows. *)
Record Env : Type := {
  decode_utf8_ignore : bytes -> str;         (* payload.decode('utf-8', errors='ignore'): it never raises *)
  str_of_addr : addr -> str;                 (* str(addr) *)
  send_ok : nat -> conn -> bool;             (* does sendall return? *)
  time_of : nat -> Z;                        (* int(time.time()) *)
  open_ok : nat -> str -> bool               (* can the file be opened and written? *)
}.

Definition set_clients (d : registry) (w : world) : world :=
  World d (rx w) (trace w) (ticks w).

Definition set_rx (s : conn) (q : list segment) (w : world) : world :=
  World (clients w) (fun s' => if Nat.eqb s' s then q else rx w s') (trace w) (ticks w).

Definition emit (ev : effect) (w : world) : world :=
  World (clients w) (rx w) (trace w ++ [ev]) (ticks w).

Definition tick (w : world) : world :=
  World (clients w) (rx w) (trace w) (S (ticks w)).

Section Server.
Variable E : Env.

(** [sock.recv(k)]: at most [k] bytes of the first segment; the rest of
    it stays in the queue. *)
Definition recv (sock : conn) (k : nat) : M world bytes :=
  fun w =>
    match rx w sock with
    | [] => (Ret [], w)
    | Reset :: q => (Raise ConnectionResetError, set_rx sock q w)
    | Chunk data :: q =>
        if (length data <=? k)%nat then (Ret data, set_rx sock q w)
        else (Ret (firstn k data), set_rx sock (Chunk (skipn k data) :: q) w)
    end.

(** [s.sendall(data)]: the call is recorded with its outcome. *)
Definition sendall (s : conn) (data : bytes) : M world unit :=
  fun w =>
    let ok := send_ok E (ticks w) s in
    (if ok then Ret tt else Raise OSError, tick (emit (EvSendall s data ok) w)).

(** [conn.close()]. *)
Definition close (s : conn) : M world unit :=
  fun w => (Ret tt, emit (EvClose s) w).

(** [int(time.time())]. *)
Definition now : M world Z :=
  fun w => (Ret (time_of E (ticks w)), tick w).

(** [with open(fname, 'ab') as f: f.write(data)]. *)
Definition append_file (fname : str) (data : bytes) : M world unit :=
  fun w =>
    if open_ok E (ticks w) fname then (Ret tt, tick (emit (EvAppend fname data) w))
    else (Raise OSError, tick w).

(** [with clients_lock: body].  The lock is released however the body
    ends. *)
Definition with_lock {A} (body : M world A) : M world A :=
  fun w =>
    match body (emit EvAcquire w) with
    | (r, w') => (r, emit EvRelease w')
    end.

Definition get_clients : M world registry := fun w => (Ret (clients w), w).

Definition put_clients (d : registry) : M world unit := fun w => (Ret tt, set_clients d w).

(** The loop of [recv_all]: [data] is what has been read so far. *)
Fixpoint recv_all_loop (fuel : nat) (sock : conn) (data : bytes) (n : nat)
  : M world (option bytes) :=
  match fuel with
  | O => out_of_fuel
  | S fuel' =>
      if (length data <? n)%nat then
        chunk <- recv sock (n - length data) ;;
        match chunk with
        | [] => ret None
        | _ => recv_all_loop fuel' sock (data ++ chunk) n
        end
      else ret (Some data)
  end.

(** [recv_all(sock, n)].  Every pass adds at least one byte, so [n]
    passes and the final test are enough ([recv_all_returns]). *)
Definition recv_all (sock : conn) (n : nat) : M world (option bytes) :=
  recv_all_loop (S n) sock [] n.

(** [send_ack(sock, seq, message)]. *)
Definition send_ack (sock : conn) (seq : Z) (message : bytes) : M world unit :=
  hdr <- lift_option StructError (build_header VERSION TYPE_ACK seq (len message)) ;;
  try_except is_Exception (sendall sock (hdr ++ message)) (fun _ => ret tt).

(** [broadcast(sender_sock, header, payload)]. *)
Definition broadcast (sender_sock : conn) (header payload : bytes) : M world unit :=
  recipients <- with_lock (d <- get_clients ;; ret (snapshot_except sender_sock d)) ;;
  for_each recipients (fun s =>
    try_except is_Exception (sendall s (header ++ payload)) (fun _ => ret tt)).

(** A frame as [handle_client] holds it after reading. *)
Record frame : Type := Frame {
  fversion : Z; ftype : Z; fseq : Z; flength : Z; fpayload : bytes }.

(** What the reading part of a pass yields: a frame, or one of the two
    [break]s (stream closed where a header was expected, stream closed
    inside a payload). *)
Inductive reading : Type :=
| Got (f : frame)
| LostHeader
| LostPayload.

(** Lines 77 to 87 of [handle_client]: header, then payload. *)
Definition read_frame (c : conn) : M world reading :=
  hdr_bytes <- recv_all c HEADER_SIZE ;;
  match hdr_bytes with
  | None => ret LostHeader
  | Some hdr =>
      h <- lift_option ValueError (parse_header hdr) ;;
      let '(version, type_, seq, length) := h in
      if 0 <? length then
        payload <- recv_all c (Z.to_nat length) ;;
        match payload with
        | None => ret LostPayload
        | Some p => ret (Got (Frame version type_ seq length p))
        end
      else ret (Got (Frame version type_ seq length []))
  end.

(** The file name [f"recv_file_{int(time.time())}_{seq}.bin"]. *)
Definition recv_file_name (t seq : Z) : str :=
  lit "recv_file_" ++ str_of_int t ++ lit "_" ++ str_of_int seq ++ lit ".bin".

(** Lines 91 to 130 of [handle_client]: the action for one frame. *)
Definition dispatch (c : conn) (a : addr) (f : frame) : M world ctl :=
  let type_ := ftype f in
  let seq := fseq f in
  let payload := fpayload f in
  if type_ =? TYPE_CONNECT then
    name <- try_except (fun _ => true)
              (ret (decode_utf8_ignore E payload))
              (fun _ => ret (str_of_addr E a)) ;;
    with_lock (d <- get_clients ;; put_clients (dict_set c (Info name a) d)) ;;
    send_ack c seq (blit "CONNECTED") ;;
    ret Continue
  else if type_ =? TYPE_MSG then
    header <- lift_option StructError
                (build_header (fversion f) TYPE_MSG seq (flength f)) ;;
    broadcast c header payload ;;
    send_ack c seq (blit "MSG_RECEIVED") ;;
    ret Continue
  else if type_ =? TYPE_LIST then
    names <- with_lock (d <- get_clients ;; ret (list_names d)) ;;
    list_payload <- lift_option UnicodeEncodeError
                      (utf8_encode (str_join (lit ";") names)) ;;
    resp_hdr <- lift_option StructError
                  (build_header VERSION TYPE_LIST seq (len list_payload)) ;;
    sendall c (resp_hdr ++ list_payload) ;;
    ret Continue
  else if type_ =? TYPE_FILE then
    t <- now ;;
    let fname := recv_file_name t seq in
    append_file fname payload ;;
    msg <- lift_option UnicodeEncodeError
             (utf8_encode (lit "FILE_SAVED:" ++ fname)) ;;
    send_ack c seq msg ;;
    ret Continue
  else if type_ =? TYPE_DISCONNECT then
    send_ack c seq (blit "BYE") ;;
    ret Break
  else if type_ =? TYPE_ACK then
    ret Continue
  else
    ret Continue.

(** One pass through the body of the [while True] of [handle_client]. *)
Definition loop_body (c : conn) (a : addr) : M world ctl :=
  r <- read_frame c ;;
  match r with
  | Got f => dispatch c a f
  | LostHeader => ret Break
  | LostPayload => ret Break
  end.

(** The [while True] loop. *)
Fixpoint serve_loop (fuel : nat) (c : conn) (a : addr) : M world unit :=
  match fuel with
  | O => out_of_fuel
  | S fuel' =>
      k <- loop_body c a ;;
      match k with
      | Break => ret tt
      | Continue => serve_loop fuel' c a
      end
  end.

(** The [finally] block of [handle_client]. *)
Definition cleanup (c : conn) : M world unit :=
  with_lock (d <- get_clients ;; put_clients (unregister c d)) ;;
  try_except (fun _ => true) (close c) (fun _ => ret tt).

(** [handle_client(conn, addr)]. *)
Definition handle_client (fuel : nat) (c : conn) (a : addr) : M world unit :=
  try_finally
    (try_except is_Exception (serve_loop fuel c a) (fun _ => ret tt))
    (cleanup c).
End Server.

(* ================================================================= *)
(** ** The client: senders and command loop of [client.py] *)

Module Client.

(** What the console gives to [input()]: a line, or Ctrl-C.  An empty
    list is the end of the input. *)
Inductive console_event : Type :=
| Line (text : str)
| Interrupt.

Inductive effect : Type :=
| EvSendall (data : bytes) (ok : bool)   (* sock.sendall(data) *)
| EvClose.                               (* sock.close() *)

Record world : Type := World {
  console : list console_event;
  seq : Z;                  (* the variable [seq] of [main] *)
  trace : list effect;
  ticks : nat
}.

Record Env : Type := {
  send_ok : nat -> bool;          (* does sendall return? *)
  file_bytes : str -> option bytes  (* the content of a regular file; None: no such file *)
}.

(** [line.startswith(prefix)]. *)
Fixpoint startswith (line prefix : str) : bool :=
  match prefix, line with
  | [], _ => true
  | p :: prefix', c :: line' => N.eqb p c && startswith line' prefix'
  | _ :: _, [] => false
  end.

Definition SPACE : codepoint := 32%N.

(** The second part of [line.split(' ', 1)]; [None] when the line has
    no space (the unpacking into two names fails). *)
Fixpoint after_first_space (line : str) : option str :=
  match line with
  | [] => None
  | c :: rest => if N.eqb c SPACE then Some rest else after_first_space rest
  end.

(** The characters [str.strip()] removes. *)
Definition isspace (c : codepoint) : bool :=
  ((9 <=? c) && (c <=? 13) || (28 <=? c) && (c <=? 32) || (c =? 133) || (c =? 160)
   || (c =? 5760) || (8192 <=? c) && (c <=? 8202) || (c =? 8232) || (c =? 8233)
   || (c =? 8239) || (c =? 8287) || (c =? 12288))%N.

Fixpoint lstrip (s : str) : str :=
  match s with
  | c :: rest => if isspace c then lstrip rest else s
  | [] => []
  end.

Definition strip (s : str) : str := rev (lstrip (rev (lstrip s))).

Section Shell.
Variable E : Env.

Definition sendall (data : bytes) : M world unit :=
  fun w =>
    let ok := send_ok E (ticks w) in
    (if ok then Ret tt else Raise OSError,
     World (console w) (seq w) (trace w ++ [EvSendall data ok]) (S (ticks w))).

Definition close : M world unit :=
  fun w => (Ret tt, World (console w) (seq w) (trace w ++ [EvClose]) (ticks w)).

(** [input()]. *)
Definition input : M world str :=
  fun w =>
    match console w with
    | [] => (Raise EOFError, w)
    | Interrupt :: rest =>
        (Raise KeyboardInterrupt, World rest (seq w) (trace w) (ticks w))
    | Line text :: rest => (Ret text, World rest (seq w) (trace w) (ticks w))
    end.

Definition get_seq : M world Z := fun w => (Ret (seq w), w).

Definition set_seq (s : Z) : M world unit :=
  fun w => (Ret tt, World (console w) s (trace w) (ticks w)).

(** [send_connect(sock, name, seq)]. *)
Definition send_connect (name : str) (seq : Z) : M world unit :=
  payload <- lift_option UnicodeEncodeError (utf8_encode name) ;;
  hdr <- lift_option StructError (build_header VERSION TYPE_CONNECT seq (len payload)) ;;
  sendall (hdr ++ payload).

(** [send_msg(sock, text, seq)]. *)
Definition send_msg (text : str) (seq : Z) : M world unit :=
  payload <- lift_option UnicodeEncodeError (utf8_encode text) ;;
  hdr <- lift_option StructError (build_header VERSION TYPE_MSG seq (len payload)) ;;
  sendall (hdr ++ payload).

(** [send_list(sock, seq)]. *)
Definition send_list (seq : Z) : M world unit :=
  hdr <- lift_option StructError (build_header VERSION TYPE_LIST seq 0) ;;
  sendall hdr.

(** [send_disconnect(sock, seq)]. *)
Definition send_disconnect (seq : Z) : M world unit :=
  hdr <- lift_option StructError (build_header VERSION TYPE_DISCONNECT seq 0) ;;
  sendall hdr.

(** The loop of [send_file]: [f] is what is left of the file, [seq]
    the local variable of [send_file]. *)
Fixpoint send_file_loop (fuel : nat) (f : bytes) (seq : Z) (chunk_size : nat)
  : M world unit :=
  match fuel with
  | O => out_of_fuel
  | S fuel' =>
      match firstn chunk_size f with
      | [] => ret tt
      | chunk =>
          hdr <- lift_option StructError
                   (build_header VERSION TYPE_FILE seq (len chunk)) ;;
          sendall (hdr ++ chunk) ;;
          send_file_loop fuel' (skipn chunk_size f) ((seq + 1) mod 65536) chunk_size
      end
  end.

(** [send_file(sock, filepath, seq_start, chunk_size)].  It returns
    nothing: the sequence numbers it counts up are its own. *)
Definition send_file (filepath : str) (seq_start : Z) (chunk_size : nat)
  : M world unit :=
  match file_bytes E filepath with
  | None => ret tt
  | Some content => send_file_loop (S (length content)) content seq_start chunk_size
  end.

(** The [while True] of [main]. *)
Fixpoint command_loop (fuel : nat) : M world unit :=
  match fuel with
  | O => out_of_fuel
  | S fuel' =>
      line <- input ;;
      if negb (truthy line) then command_loop fuel'
      else if startswith line (lit "/quit") || startswith line (lit "/exit") then
        seq <- get_seq ;;
        send_disconnect seq ;; set_seq ((seq + 1) mod 65536) ;;
        ret tt
      else if startswith line (lit "/who") || startswith line (lit "/list") then
        seq <- get_seq ;;
        send_list seq ;; set_seq ((seq + 1) mod 65536) ;;
        command_loop fuel'
      else if startswith line (lit "/sendfile ") then
        path <- lift_option ValueError (after_first_space line) ;;
        seq <- get_seq ;;
        send_file (strip path) seq 4096 ;;
        set_seq ((seq + 1) mod 65536) ;;
        command_loop fuel'
      else
        seq <- get_seq ;;
        send_msg line seq ;; set_seq ((seq + 1) mod 65536) ;;
        command_loop fuel'
  end.

(** [main()], after the connection is made, for [--name name].  The
    receiving thread it starts is [Receiver.recv_loop], further down. *)
Definition main (fuel : nat) (name : str) : M world unit :=
  set_seq 1 ;;
  seq <- get_seq ;;
  send_connect name seq ;; set_seq ((seq + 1) mod 65536) ;;
  try_finally
    (try_except (fun e => negb (is_Exception e))
       (command_loop fuel)
       (fun _ => seq <- get_seq ;; send_disconnect seq))
    (try_except (fun _ => true) close (fun _ => ret tt)).
End Shell.

(** Type and sequence number of the frames a trace sent, in order. *)
Definition type_and_seq (data : bytes) : option (Z * Z) :=
  match parse_header data with
  | Some (_, t, s, _) => Some (t, s)
  | None => None
  end.

Fixpoint sent_frames (tr : list effect) : list (option (Z * Z)) :=
  match tr with
  | [] => []
  | EvSendall data _ :: rest => type_and_seq data :: sent_frames rest
  | EvClose :: rest => sent_frames rest
  end.

End Client.

(* ================================================================= *)
(** ** Notions used by the statements *)

(** The bytes a stream still delivers before it closes or resets. *)
Fixpoint pending (q : list segment) : bytes :=
  match q with
  | Chunk (b :: data) :: rest => (b :: data) ++ pending rest
  | _ => []
  end.

(** After its pending bytes the stream is closed ([true]) or reset. *)
Fixpoint closes (q : list segment) : bool :=
  match q with
  | [] => true
  | Chunk [] :: _ => true
  | Chunk (_ :: _) :: rest => closes rest
  | Reset :: _ => false
  end.

(** A measure of a queue that every successful [recv] lowers. *)
Fixpoint qsize (q : list segment) : nat :=
  match q with
  | [] => 0
  | Chunk data :: rest => S (length data + qsize rest)
  | Reset :: rest => S (qsize rest)
  end.

(** [w'] differs from [w] at most in what socket [s] still has to
    deliver. *)
Definition same_but_rx (s : conn) (w w' : world) : Prop :=
  clients w' = clients w /\ trace w' = trace w /\ ticks w' = ticks w /\
  forall s', s' <> s -> rx w' s' = rx w s'.

(** The reader as section 4.2 describes it, on the pending bytes: eight
    bytes of header, then as many bytes as the header announces.  [None]
    where the stream resets before the frame is complete. *)
Definition spec_reading (q : list segment) : option reading :=
  let p := pending q in
  if (length p <? 8)%nat then
    if closes q then Some LostHeader else None
  else
    match parse_header (firstn 8 p) with
    | None => None
    | Some (v, t, s, l) =>
        if (Z.to_nat l <=? length p - 8)%nat then
          Some (Got (Frame v t s l (firstn (Z.to_nat l) (skipn 8 p))))
        else if closes q then Some LostPayload else None
    end.

(** The number of bytes a reading takes from the stream, when it yields
    a frame. *)
Definition consumed (r : reading) : nat :=
  match r with
  | Got f => 8 + length (fpayload f)
  | _ => 0
  end.

(** A frame whose fields fit the header and whose payload is as long as
    the header says. *)
Definition frame_complete (f : frame) : Prop :=
  0 <= fversion f < 256 /\ 0 <= ftype f < 256 /\ 0 <= fseq f < 65536 /\
  0 <= flength f < 2 ^ 32 /\ len (fpayload f) = flength f.

(** [d.get(k)]. *)
Fixpoint dict_get (k : conn) (d : registry) : option info :=
  match d with
  | [] => None
  | (k', v) :: rest => if Nat.eqb k k' then Some v else dict_get k rest
  end.

(** Bytes written in one [sendall] are a well-formed frame: a header
    whose length field counts the bytes after it. *)
Definition frame_ok (data : bytes) : bool :=
  match parse_header data with
  | Some (_, _, _, l) => len data =? 8 + l
  | None => false
  end.

(** Scanning a trace with the state of the lock: [None] as soon as the
    lock is taken twice, released when free, or held during I/O. *)
Fixpoint lock_scan (held : bool) (tr : list effect) : option bool :=
  match tr with
  | [] => Some held
  | EvAcquire :: rest => if held then None else lock_scan true rest
  | EvRelease :: rest => if held then lock_scan false rest else None
  | _ :: rest => if held then None else lock_scan false rest
  end.

(** Effects the loop of a handler may produce. *)
Definition loop_effect_ok (ev : effect) : Prop :=
  match ev with
  | EvSendall _ data _ => frame_ok data = true
  | EvClose _ => False
  | _ => True
  end.

(** A stretch of trace that starts and ends with the lock free, never
    does I/O under the lock, sends only well-formed frames and closes
    nothing. *)
Definition tidy (seg : list effect) : Prop :=
  lock_scan false seg = Some false /\ Forall loop_effect_ok seg.

(** A computation that returns, leaves the incoming queues alone and
    adds a tidy stretch to the trace. *)
Definition runs_tidy {A : Type} (m : M world A) : Prop :=
  forall w,
    fst (m w) <> OutOfFuel /\
    rx (snd (m w)) = rx w /\
    exists seg, trace (snd (m w)) = trace w ++ seg /\ tidy seg.

(** A computation without effects on sockets, files or the trace. *)
Definition silent {A : Type} (m : M world A) : Prop :=
  forall w,
    fst (m w) <> OutOfFuel /\ rx (snd (m w)) = rx w /\ trace (snd (m w)) = trace w.

Definition sends_well_formed (seg : list effect) : Prop :=
  Forall (fun ev => match ev with
                    | EvSendall _ data _ => frame_ok data = true
                    | _ => True
                    end) seg.

(** How often a trace closes [c]. *)
Fixpoint count_close (c : conn) (tr : list effect) : nat :=
  match tr with
  | [] => 0
  | EvClose s :: rest => (if Nat.eqb s c then 1 else 0) + count_close c rest
  | _ :: rest => count_close c rest
  end.

(** The writes of the fan-out of [broadcast]: [data] to each recipient
    in turn, the [n]-th write succeeding as the oracle says. *)
Fixpoint fanout (E : Env) (t : nat) (recipients : list conn) (data : bytes)
  : list effect :=
  match recipients with
  | [] => []
  | s :: rest => EvSendall s data (send_ok E t s) :: fanout E (S t) rest data
  end.

(** The payload of a LIST reply as the specification words it: the names
    of all registered connections, in some order, joined with [;]. *)
Definition list_payload_of_all_names (d : registry) (payload : bytes) : Prop :=
  exists order,
    Permutation order (map name (values d)) /\
    utf8_encode (str_join (lit ";") order) = Some payload.

(* ================================================================= *)
(** ** Concrete environments and inputs *)

(** [encode(version, type, sequence, payload)]: header, then payload. *)
Definition encode (version type_ seq : Z) (payload : bytes) : bytes :=
  match build_header version type_ seq (len payload) with
  | Some hdr => hdr ++ payload
  | None => []
  end.

(** A continuation byte of UTF-8: [0x80] to [0xBF]. *)
Definition is_continuation (n : N) : bool :=
  ((128 <=? n) && (n <? 192))%N.

(** The second byte [n1] after the lead byte [n0] of a sequence of three
    or four bytes: a continuation byte that gives neither an overlong
    form ([E0 80..9F], [F0 80..8F]) nor a surrogate ([ED A0..BF]) nor a
    code point above [0x10FFFF] ([F4 90..BF]). *)
Definition second_of_three (n0 n1 : N) : bool :=
  (is_continuation n1 &&
   negb (if n1 <? 160 then n0 =? 224 else n0 =? 237))%N.

Definition second_of_four (n0 n1 : N) : bool :=
  (is_continuation n1 &&
   negb (if n1 <? 144 then n0 =? 240 else n0 =? 244))%N.

(** [data.decode('utf-8', errors='ignore')] as CPython computes it.  A
    byte that cannot start a sequence ([80..C1], [F5..FF]) is dropped; a
    sequence broken by a wrong byte loses the bytes that were right so
    far and decoding goes on at the wrong byte; a sequence cut short by
    the end of the data is dropped whole.  Every byte string has a
    result: this decoder raises nothing. *)
Fixpoint utf8_decode_ignore (data : bytes) : str :=
  match data with
  | [] => []
  | b0 :: t0 =>
      let n0 := Byte.to_N b0 in
      (if n0 <? 128 then n0 :: utf8_decode_ignore t0
       else if n0 <? 194 then utf8_decode_ignore t0
       else if n0 <? 224 then
         match t0 with
         | [] => []
         | b1 :: t1 =>
             let n1 := Byte.to_N b1 in
             if is_continuation n1
             then ((n0 - 192) * 64 + (n1 - 128)) :: utf8_decode_ignore t1
             else utf8_decode_ignore t0
         end
       else if n0 <? 240 then
         match t0 with
         | [] => []
         | b1 :: t1 =>
             let n1 := Byte.to_N b1 in
             if second_of_three n0 n1 then
               match t1 with
               | [] => []
               | b2 :: t2 =>
                   let n2 := Byte.to_N b2 in
                   if is_continuation n2
                   then ((n0 - 224) * 4096 + (n1 - 128) * 64 + (n2 - 128))
                        :: utf8_decode_ignore t2
                   else utf8_decode_ignore t1
               end
             else utf8_decode_ignore t0
         end
       else if n0 <? 245 then
         match t0 with
         | [] => []
         | b1 :: t1 =>
             let n1 := Byte.to_N b1 in
             if second_of_four n0 n1 then
               match t1 with
               | [] => []
               | b2 :: t2 =>
                   let n2 := Byte.to_N b2 in
                   if is_continuation n2 then
                     match t2 with
                     | [] => []
                     | b3 :: t3 =>
                         let n3 := Byte.to_N b3 in
                         if is_continuation n3
                         then ((n0 - 240) * 262144 + (n1 - 128) * 4096
                               + (n2 - 128) * 64 + (n3 - 128))
                              :: utf8_decode_ignore t3
                         else utf8_decode_ignore t2
                     end
                   else utf8_decode_ignore t1
               end
             else utf8_decode_ignore t0
         end
       else utf8_decode_ignore t0)%N
  end.

(** [str((ip, port))] for an [ip] without quotes or escapes. *)
Definition str_of_addr_plain (a : addr) : str :=
  lit "('" ++ fst a ++ lit "', " ++ str_of_int (snd a) ++ lit ")".

(** Every write succeeds. *)
Definition calm : Env :=
  {| decode_utf8_ignore := utf8_decode_ignore;
     str_of_addr := str_of_addr_plain;
     send_ok := fun _ _ => true;
     time_of := fun _ => 1700000000;
     open_ok := fun _ _ => true |}.

(** No write succeeds. *)
Definition stormy : Env :=
  {| decode_utf8_ignore := utf8_decode_ignore;
     str_of_addr := str_of_addr_plain;
     send_ok := fun _ _ => false;
     time_of := fun _ => 1700000000;
     open_ok := fun _ _ => false |}.

Definition localhost (port : Z) : addr := (lit "127.0.0.1", port).

Definition no_input : conn -> list segment := fun _ => [].

Definition feed (s : conn) (q : list segment) (rx : conn -> list segment)
  : conn -> list segment :=
  fun s' => if Nat.eqb s' s then q else rx s'.

Definition alice : info := Info (lit "Alice") (localhost 4001).
Definition bob : info := Info (lit "Bob") (localhost 4002).
Definition carol : info := Info (lit "Carol") (localhost 4003).

(** Scenario 1: an unregistered connection sends CONNECT "Alice", seq 1. *)
Definition world_connect : world :=
  World [] (feed 1%nat [Chunk (encode 1 TYPE_CONNECT 1 (blit "Alice"))] no_input) [] 0.

(** Scenario 2: Alice (socket 1), Bob (2) and Carol (3) are registered;
    Alice sends MSG "hi", seq 5, which arrives in two segments. *)
Definition world_msg : world :=
  World [(1%nat, alice); (2%nat, bob); (3%nat, carol)]
        (feed 1%nat [Chunk (firstn 3 (encode 1 TYPE_MSG 5 (blit "hi")));
                     Chunk (skipn 3 (encode 1 TYPE_MSG 5 (blit "hi")))] no_input)
        [] 0.

(** Alice and Bob are registered; Alice sends LIST, seq 7. *)
Definition world_list : world :=
  World [(1%nat, alice); (2%nat, bob)]
        (feed 1%nat [Chunk (encode 1 TYPE_LIST 7 [])] no_input) [] 0.

(** Scenario 4: the header announces 100 bytes, 40 arrive, then the
    stream closes. *)
Definition world_truncated : world :=
  World [(1%nat, alice); (2%nat, bob)]
        (feed 1%nat [Chunk (firstn 48 (encode 1 TYPE_MSG 3 (repeat x00 100)))] no_input)
        [] 0.

(** Scenario 5: Alice and Bob are registered; Alice sends DISCONNECT,
    seq 9; Bob has a LIST request, seq 4, waiting. *)
Definition world_disconnect : world :=
  World [(1%nat, alice); (2%nat, bob)]
        (feed 1%nat [Chunk (encode 1 TYPE_DISCONNECT 9 [])]
           (feed 2%nat [Chunk (encode 1 TYPE_LIST 4 [])] no_input))
        [] 0.

(** Alice is registered and her stream is closed, or reset. *)
Definition world_closed : world :=
  World [(1%nat, alice); (2%nat, bob)] no_input [] 0.

Definition world_reset : world :=
  World [(1%nat, alice); (2%nat, bob)] (feed 1%nat [Reset] no_input) [] 0.

(** A connection registers with an empty name (socket 2), another as
    "a" (socket 1), which then asks for the list. *)
Definition world_anonymous : world :=
  World []
        (feed 2%nat [Chunk (encode 1 TYPE_CONNECT 1 [])]
           (feed 1%nat [Chunk (encode 1 TYPE_CONNECT 1 (blit "a"));
                        Chunk (encode 1 TYPE_LIST 2 [])] no_input))
        [] 0.

Definition world_anonymous_registered : world :=
  snd (loop_body calm 1%nat (localhost 4001)
         (snd (loop_body calm 2%nat (localhost 4002) world_anonymous))).

(** A client session: a file of 5000 bytes is sent with [/sendfile],
    then a line of chat. *)
Definition two_chunk_file : Client.Env :=
  {| Client.send_ok := fun _ => true;
     Client.file_bytes := fun path =>
       if Client.startswith path (lit "a.bin") && Client.startswith (lit "a.bin") path
       then Some (repeat x00 5000) else None |}.

Definition session_sendfile : Client.world :=
  Client.World [Client.Line (lit "/sendfile a.bin"); Client.Line (lit "hi")] 0 [] 0.

(* ================================================================= *)
(** ** Further inputs *)

(** The frame of scenario 2 in one segment, and byte by byte. *)
Definition world_msg_one_segment : world :=
  World [(1%nat, alice); (2%nat, bob); (3%nat, carol)]
        (feed 1%nat [Chunk (encode 1 TYPE_MSG 5 (blit "hi"))] no_input) [] 0.

Definition world_msg_bytewise : world :=
  World [(1%nat, alice); (2%nat, bob); (3%nat, carol)]
        (feed 1%nat (map (fun b => Chunk [b]) (encode 1 TYPE_MSG 5 (blit "hi"))) no_input)
        [] 0.

(** A [str] of 7-bit characters: its UTF-8 encoding is one byte for
    each. *)
Definition is_ascii (s : str) : bool := forallb (fun c => (c <? 128)%N) s.

(** Alice sends a FILE frame, seq 8, with three bytes. *)
Definition world_file : world :=
  World [(1%nat, alice); (2%nat, bob)]
        (feed 1%nat [Chunk (encode 1 TYPE_FILE 8 (blit "abc"))] no_input) [] 0.

(** Alice sends a frame of a type the protocol does not know (9), and a
    LIST request after it. *)
Definition world_unknown : world :=
  World [(1%nat, alice); (2%nat, bob)]
        (feed 1%nat [Chunk (encode 1 9 8 (blit "abc"));
                     Chunk (encode 1 TYPE_LIST 9 [])] no_input) [] 0.

(** Alice sends DISCONNECT, seq 9, and a MSG after it. *)
Definition world_disconnect_then_msg : world :=
  World [(1%nat, alice); (2%nat, bob)]
        (feed 1%nat [Chunk (encode 1 TYPE_DISCONNECT 9 []);
                     Chunk (encode 1 TYPE_MSG 10 (blit "late"))] no_input) [] 0.

(* ================================================================= *)
(** ** Invariants of computations *)

(** A computation that returns and takes every state to one related to
    it by [R]. *)
Definition sound {St A : Type} (R : St -> St -> Prop) (m : M St A) : Prop :=
  forall w, fst (m w) <> OutOfFuel /\ R w (snd (m w)).

(** From [w] to [w'] nothing has happened to the other connections:
    their entries in the registry are the same, in the same order, and
    their incoming queues are as they were; and the keys of the registry
    are still distinct if they were. *)
Definition own_only (c : conn) (w w' : world) : Prop :=
  dict_del c (clients w') = dict_del c (clients w) /\
  (forall s, s <> c -> rx w' s = rx w s) /\
  (NoDup (keys (clients w)) -> NoDup (keys (clients w'))).



(** A byte string that the strict decoder of UTF-8 accepts: the
    encoding of some [str].  On any other, decoding fails. *)
Definition valid_utf8 (data : bytes) : Prop :=
  exists s, utf8_encode s = Some data.

(** The display name of a CONNECT as the specification words it: the
    decoded payload, and the string of the peer address where decoding
    fails. *)
Definition claimed_connect_name (E : Env) (a : addr) (payload : bytes) (nm : str)
  : Prop :=
  (forall s, utf8_encode s = Some payload -> nm = s) /\
  (~ valid_utf8 payload -> nm = str_of_addr E a).

(** An unregistered connection sends CONNECT, seq 1, with the payload
    [b'\xff'], which is no UTF-8. *)
Definition world_connect_undecodable : world :=
  World [] (feed 1%nat [Chunk (encode 1 TYPE_CONNECT 1 [xff])] no_input) [] 0.

(* ================================================================= *)
(** ** Notions for the client *)

(** The byte strings a client trace wrote, in order. *)
Fixpoint client_sent_data (tr : list Client.effect) : list bytes :=
  match tr with
  | [] => []
  | Client.EvSendall data _ :: rest => data :: client_sent_data rest
  | Client.EvClose :: rest => client_sent_data rest
  end.

(** [n] successive sequence numbers from [s] on, wrapping at 65536. *)
Fixpoint seq_run (n : nat) (s : Z) : list Z :=
  match n with
  | O => []
  | S n' => s :: seq_run n' ((s + 1) mod 65536)
  end.

(** Effects of the senders: well-formed frames, and no [close]. *)
Definition client_effect_ok (ev : Client.effect) : Prop :=
  match ev with
  | Client.EvSendall data _ => frame_ok data = true
  | Client.EvClose => False
  end.

(** What a sender does to the world of the client: it writes frames;
    console and counter are as before. *)
Definition sender_step (w w' : Client.world) : Prop :=
  Client.console w' = Client.console w /\
  Client.seq w' = Client.seq w /\
  exists seg, Client.trace w' = Client.trace w ++ seg /\ Forall client_effect_ok seg.

(** What the command loop does: it writes frames and keeps the counter
    within 16 bits. *)
Definition shell_step (w w' : Client.world) : Prop :=
  (0 <= Client.seq w < 65536 -> 0 <= Client.seq w' < 65536) /\
  exists seg, Client.trace w' = Client.trace w ++ seg /\ Forall client_effect_ok seg.

(** How often a client trace closes the socket. *)
Fixpoint client_count_close (tr : list Client.effect) : nat :=
  match tr with
  | [] => 0
  | Client.EvClose :: rest => S (client_count_close rest)
  | _ :: rest => client_count_close rest
  end.

(** Sessions that begin with a quit command, and with Ctrl-C. *)
Definition session_quit : Client.world :=
  Client.World [Client.Line (lit "/quit now"); Client.Line (lit "never sent")] 0 [] 0.

Definition session_interrupt : Client.world :=
  Client.World [Client.Interrupt; Client.Line (lit "never sent")] 0 [] 0.

(** No write succeeds. *)
Definition offline : Client.Env :=
  {| Client.send_ok := fun _ => false;
     Client.file_bytes := fun _ => None |}.

(** A well-formed frame, or the closing of the socket. *)
Definition client_frame_ok (ev : Client.effect) : Prop :=
  match ev with
  | Client.EvSendall data _ => frame_ok data = true
  | Client.EvClose => True
  end.

(** The world in which [main] sends its CONNECT. *)
Definition at_connect (w : Client.world) : Client.world :=
  Client.World (Client.console w) 1 (Client.trace w) (Client.ticks w).

(* ================================================================= *)
(** ** The receiving thread of the client *)

(** [recv_loop] of [client.py] runs on the same kind of socket as the
    handler of the server, so it is written over the same world.  Its
    [recv_all] is, line for line, the one of the server.  What it
    prints is left out; what it saves is an effect. *)
Module Receiver.

(** [parse_header] of the client: [struct.unpack] on [data[:8]];
    [None] is the [struct.error] for fewer than eight bytes. *)
Definition parse_header (data : bytes) : option (Z * Z * Z * Z) :=
  match firstn HEADER_SIZE data with
  | [b0; b1; b2; b3; b4; b5; b6; b7] =>
      Some (be_value [b0], be_value [b1], be_value [b2; b3],
            be_value [b4; b5; b6; b7])
  | _ => None
  end.

Section Loop.
Variable E : Env.

(** Lines 44 to 54 of [recv_loop]: header, then payload. *)
Definition read_frame (sock : conn) : M world reading :=
  hdr <- recv_all sock HEADER_SIZE ;;
  match hdr with
  | None => ret LostHeader
  | Some hdr =>
      h <- lift_option StructError (parse_header hdr) ;;
      let '(version, type_, seq, length) := h in
      if 0 <? length then
        payload <- recv_all sock (Z.to_nat length) ;;
        match payload with
        | None => ret LostPayload
        | Some p => ret (Got (Frame version type_ seq length p))
        end
      else ret (Got (Frame version type_ seq length []))
  end.

(** The file name [f"received_from_server_{seq}.bin"]. *)
Definition received_file_name (seq : Z) : str :=
  lit "received_from_server_" ++ str_of_int seq ++ lit ".bin".

(** Lines 56 to 81: MSG, LIST and ACK frames and frames of other types
    are printed; the payload of a FILE frame is appended to a file. *)
Definition show (f : frame) : M world unit :=
  if ftype f =? TYPE_MSG then ret tt
  else if ftype f =? TYPE_LIST then ret tt
  else if ftype f =? TYPE_ACK then ret tt
  else if ftype f =? TYPE_FILE then
    append_file E (received_file_name (fseq f)) (fpayload f)
  else ret tt.

(** The [while True] of [recv_loop]. *)
Fixpoint receive (fuel : nat) (sock : conn) : M world unit :=
  match fuel with
  | O => out_of_fuel
  | S fuel' =>
      r <- read_frame sock ;;
      match r with
      | Got f => show f ;; receive fuel' sock
      | LostHeader => ret tt
      | LostPayload => ret tt
      end
  end.

(** [recv_loop(sock)]. *)
Definition recv_loop (fuel : nat) (sock : conn) : M world unit :=
  try_finally
    (try_except is_Exception (receive fuel sock) (fun _ => ret tt))
    (try_except (fun _ => true) (close sock) (fun _ => ret tt)).
End Loop.

End Receiver.

(** Effects of the receiving loop: files, nothing else. *)
Definition is_append (ev : effect) : Prop :=
  match ev with
  | EvAppend _ _ => True
  | _ => False
  end.

(** What the receiving loop on [sock] does to the world: it reads from
    [sock] and appends to files. *)
Definition receiver_step (sock : conn) (w w' : world) : Prop :=
  clients w' = clients w /\
  (forall s, s <> sock -> rx w' s = rx w s) /\
  exists seg, trace w' = trace w ++ seg /\ Forall is_append seg.

(** The server sends the client, on socket 7, an ACK, a FILE frame of
    three bytes with sequence number 12, and closes. *)
Definition world_client_side : world :=
  World []
        (feed 7%nat [Chunk (encode VERSION TYPE_ACK 1 (blit "CONNECTED"));
                     Chunk (encode VERSION TYPE_FILE 12 (blit "xyz"))] no_input)
        [] 0.


(* ================================================================= *)
(** * Properties *)

(** ** Codec *)

Lemma Z_of_byte_range (b : byte) : 0 <= Z_of_byte b < 256.
Proof.
  unfold Z_of_byte. pose proof (Byte.to_N_bounded b). lia.
Qed.

Lemma Z_of_byte_of_Z (z : Z) : 0 <= z < 256 -> Z_of_byte (byte_of_Z z) = z.
Proof.
  intros Hz. unfold Z_of_byte, byte_of_Z.
  destruct (Byte.of_N (Z.to_N z)) as [b|] eqn:Hb.
  - apply Byte.to_of_N in Hb. lia.
  - apply Byte.of_N_None_iff in Hb. lia.
Qed.

Lemma byte_of_Z_of_byte (b : byte) : byte_of_Z (Z_of_byte b) = b.
Proof.
  unfold Z_of_byte, byte_of_Z. rewrite N2Z.id, Byte.of_to_N. reflexivity.
Qed.

Lemma length_be_bytes (w : nat) (x : Z) : length (be_bytes w x) = w.
Proof.
  revert x. induction w as [|w IH]; intros x; simpl.
  - reflexivity.
  - rewrite length_app, IH. simpl. lia.
Qed.

Lemma be_value_snoc (bs : bytes) (b : byte) :
  be_value (bs ++ [b]) = be_value bs * 256 + Z_of_byte b.
Proof.
  unfold be_value. rewrite fold_left_app. reflexivity.
Qed.

(** Unpacking what was packed gives the number back, cut to the width. *)
Lemma be_value_be_bytes (w : nat) (x : Z) :
  0 <= x -> be_value (be_bytes w x) = x mod 2 ^ (8 * Z.of_nat w).
Proof.
  revert x. induction w as [|w IH]; intros x Hx.
  - simpl. rewrite Z.mod_1_r. reflexivity.
  - cbn [be_bytes]. rewrite be_value_snoc, IH by (apply Z.div_pos; lia).
    rewrite Z_of_byte_of_Z by (apply Z.mod_pos_bound; lia).
    replace (8 * Z.of_nat (S w)) with (8 + 8 * Z.of_nat w) by lia.
    rewrite Z.pow_add_r by lia.
    change (2 ^ 8) with 256.
    rewrite Z.rem_mul_r by (try apply Z.pow_pos_nonneg; lia).
    lia.
Qed.

Lemma pack_uint_some (w : nat) (x : Z) (bs : bytes) :
  pack_uint w x = Some bs ->
  bs = be_bytes w x /\ 0 <= x < 2 ^ (8 * Z.of_nat w).
Proof.
  unfold pack_uint. intros H.
  destruct (0 <=? x) eqn:H0; destruct (x <? 2 ^ (8 * Z.of_nat w)) eqn:H1;
    simpl in H; try discriminate.
  injection H as <-. split; [reflexivity | lia].
Qed.

Lemma pack_uint_in_range (w : nat) (x : Z) :
  0 <= x < 2 ^ (8 * Z.of_nat w) -> pack_uint w x = Some (be_bytes w x).
Proof.
  intros [H0 H1]. unfold pack_uint.
  apply Z.leb_le in H0. apply Z.ltb_lt in H1. rewrite H0, H1. reflexivity.
Qed.

Lemma build_header_in_range (v t s l : Z) :
  0 <= v < 256 -> 0 <= t < 256 -> 0 <= s < 65536 -> 0 <= l < 2 ^ 32 ->
  build_header v t s l =
  Some (be_bytes 1 v ++ be_bytes 1 t ++ be_bytes 2 s ++ be_bytes 4 l).
Proof.
  intros Hv Ht Hs Hl. unfold build_header.
  rewrite !pack_uint_in_range; auto.
Qed.

Lemma build_header_some (v t s l : Z) (hdr : bytes) :
  build_header v t s l = Some hdr ->
  hdr = be_bytes 1 v ++ be_bytes 1 t ++ be_bytes 2 s ++ be_bytes 4 l /\
  0 <= v < 256 /\ 0 <= t < 256 /\ 0 <= s < 65536 /\ 0 <= l < 2 ^ 32.
Proof.
  unfold build_header. intros H.
  destruct (pack_uint 1 v) as [bv|] eqn:Hv; try discriminate.
  destruct (pack_uint 1 t) as [bt|] eqn:Ht; try discriminate.
  destruct (pack_uint 2 s) as [bs|] eqn:Hs; try discriminate.
  destruct (pack_uint 4 l) as [bl|] eqn:Hl; try discriminate.
  injection H as <-.
  apply pack_uint_some in Hv, Ht, Hs, Hl.
  destruct Hv as [-> Hv], Ht as [-> Ht], Hs as [-> Hs], Hl as [-> Hl].
  repeat split; auto; lia.
Qed.

Lemma length_build_header (v t s l : Z) (hdr : bytes) :
  build_header v t s l = Some hdr -> length hdr = 8%nat.
Proof.
  intros H. apply build_header_some in H. destruct H as [-> _].
  rewrite !length_app, !length_be_bytes. reflexivity.
Qed.

(** [parse_header] reads back the header [build_header] made, whatever
    follows it. *)
Lemma parse_build_header (v t s l : Z) (hdr rest : bytes) :
  build_header v t s l = Some hdr ->
  parse_header (hdr ++ rest) = Some (v, t, s, l).
Proof.
  intros H. apply build_header_some in H.
  destruct H as [-> (Hv & Ht & Hs & Hl)].
  assert (E1 : forall x, 0 <= x < 256 -> be_value (be_bytes 1 x) = x).
  { intros x Hx. rewrite be_value_be_bytes by lia. apply Z.mod_small. simpl. lia. }
  assert (E2 : be_value (be_bytes 2 s) = s).
  { rewrite be_value_be_bytes by lia. apply Z.mod_small. simpl. lia. }
  assert (E4 : be_value (be_bytes 4 l) = l).
  { rewrite be_value_be_bytes by lia. apply Z.mod_small. simpl. lia. }
  unfold parse_header.
  replace (length ((be_bytes 1 v ++ be_bytes 1 t ++ be_bytes 2 s ++ be_bytes 4 l) ++ rest)
           <? HEADER_SIZE)%nat with false.
  2:{ symmetry. apply Nat.ltb_ge. rewrite !length_app, !length_be_bytes.
      unfold HEADER_SIZE. lia. }
  cbn [be_bytes app firstn HEADER_SIZE] in *.
  rewrite (E1 v Hv), (E1 t Ht), E2, E4. reflexivity.
Qed.

Lemma parse_header_some (data : bytes) (v t s l : Z) :
  parse_header data = Some (v, t, s, l) ->
  (8 <= length data)%nat /\
  0 <= v < 256 /\ 0 <= t < 256 /\ 0 <= s < 65536 /\ 0 <= l < 2 ^ 32.
Proof.
  unfold parse_header. intros H.
  destruct (length data <? HEADER_SIZE)%nat eqn:Hlen; try discriminate.
  apply Nat.ltb_ge in Hlen. unfold HEADER_SIZE in *.
  destruct (firstn 8 data) as [|b0 [|b1 [|b2 [|b3 [|b4 [|b5 [|b6 [|b7 [|? ?]]]]]]]]];
    try discriminate.
  injection H as <- <- <- <-.
  unfold be_value. cbn [fold_left].
  pose proof (Z_of_byte_range b0). pose proof (Z_of_byte_range b1).
  pose proof (Z_of_byte_range b2). pose proof (Z_of_byte_range b3).
  pose proof (Z_of_byte_range b4). pose proof (Z_of_byte_range b5).
  pose proof (Z_of_byte_range b6). pose proof (Z_of_byte_range b7).
  change (2 ^ 32) with 4294967296.
  repeat split; try lia.
Qed.

Lemma parse_header_firstn (data : bytes) :
  (8 <= length data)%nat -> parse_header (firstn 8 data) = parse_header data.
Proof.
  intros H. unfold parse_header, HEADER_SIZE.
  rewrite firstn_firstn, length_firstn.
  replace (Nat.min 8 8) with 8%nat by reflexivity.
  replace (Nat.min 8 (length data)) with 8%nat by lia.
  destruct (length data <? 8)%nat eqn:Hlt.
  - apply Nat.ltb_lt in Hlt. lia.
  - reflexivity.
Qed.

Lemma be_bytes_be_value (bs : bytes) : be_bytes (length bs) (be_value bs) = bs.
Proof.
  induction bs as [|b bs IH] using rev_ind; [reflexivity|].
  rewrite length_app, Nat.add_1_r, be_value_snoc. cbn [be_bytes].
  pose proof (Z_of_byte_range b) as Hb.
  replace ((be_value bs * 256 + Z_of_byte b) / 256) with (be_value bs)
    by (apply Z.div_unique with (r := Z_of_byte b); lia).
  replace ((be_value bs * 256 + Z_of_byte b) mod 256) with (Z_of_byte b)
    by (apply Z.mod_unique with (q := be_value bs); lia).
  rewrite IH, byte_of_Z_of_byte. reflexivity.
Qed.

(** Building a header from parsed fields gives the parsed bytes back. *)
Lemma build_parse_header (data : bytes) (v t s l : Z) :
  parse_header data = Some (v, t, s, l) ->
  build_header v t s l = Some (firstn 8 data).
Proof.
  intros H. pose proof (parse_header_some _ _ _ _ _ H) as (_ & Hv & Ht & Hs & Hl).
  rewrite build_header_in_range by assumption.
  unfold parse_header in H.
  destruct (length data <? HEADER_SIZE)%nat; [discriminate|].
  unfold HEADER_SIZE in H.
  destruct (firstn 8 data) as [|b0 [|b1 [|b2 [|b3 [|b4 [|b5 [|b6 [|b7 [|? ?]]]]]]]]];
    try discriminate.
  injection H as <- <- <- <-.
  pose proof (be_bytes_be_value [b0]) as E0.
  pose proof (be_bytes_be_value [b1]) as E1.
  pose proof (be_bytes_be_value [b2; b3]) as E2.
  pose proof (be_bytes_be_value [b4; b5; b6; b7]) as E4.
  cbn [length] in E0, E1, E2, E4.
  rewrite E0, E1, E2, E4. reflexivity.
Qed.

(** C1. Codec round trip: for a version and a type in [0, 255], a
    sequence number in [0, 65535] and a payload whose length fits in 32
    bits, [build_header] succeeds with a header of eight bytes, and
    parsing the first eight bytes of that header followed by the payload
    gives back the version, the type, the sequence number and the length
    of the payload. *)
Theorem codec_round_trip (version type_ seq : Z) (payload : bytes) :
  0 <= version <= 255 -> 0 <= type_ <= 255 -> 0 <= seq <= 65535 ->
  len payload < 2 ^ 32 ->
  exists hdr,
    build_header version type_ seq (len payload) = Some hdr /\
    length hdr = 8%nat /\
    parse_header (firstn 8 (hdr ++ payload)) =
      Some (version, type_, seq, len payload).
Proof.
  intros Hv Ht Hs Hl.
  assert (Hl0 : 0 <= len payload) by (unfold len; lia).
  destruct (build_header version type_ seq (len payload)) as [hdr|] eqn:Hb.
  2:{ rewrite build_header_in_range in Hb by lia. discriminate. }
  exists hdr. split; [reflexivity|].
  pose proof (length_build_header _ _ _ _ _ Hb) as Hlen.
  split; [exact Hlen|].
  rewrite parse_header_firstn by (rewrite length_app; lia).
  apply parse_build_header. exact Hb.
Qed.

Lemma codec_round_trip_example :
  exists hdr,
    build_header 1 TYPE_MSG 5 (len (blit "hi")) = Some hdr /\
    length hdr = 8%nat /\
    parse_header (firstn 8 (hdr ++ blit "hi")) = Some (1, TYPE_MSG, 5, len (blit "hi")).
Proof.
  apply (codec_round_trip 1 TYPE_MSG 5 (blit "hi")); vm_compute; intuition discriminate.
Defined.

(** ** Registry *)

Lemma dict_mem_In (k : conn) (d : registry) :
  dict_mem k d = true <-> In k (keys d).
Proof.
  unfold dict_mem. rewrite existsb_exists. split.
  - intros (x & Hx & Heq). apply Nat.eqb_eq in Heq. subst. exact Hx.
  - intros H. exists k. split; [exact H | apply Nat.eqb_refl].
Qed.

Lemma keys_dict_del (k : conn) (d : registry) :
  keys (dict_del k d) = filter (fun s => negb (Nat.eqb k s)) (keys d).
Proof.
  unfold keys, dict_del. induction d as [|[k' v] d IH]; simpl.
  - reflexivity.
  - destruct (Nat.eqb k k'); simpl; rewrite IH; reflexivity.
Qed.

Lemma dict_mem_del (k : conn) (d : registry) : dict_mem k (dict_del k d) = false.
Proof.
  destruct (dict_mem k (dict_del k d)) eqn:H; [|reflexivity].
  apply dict_mem_In in H. rewrite keys_dict_del in H.
  apply filter_In in H. destruct H as [_ H].
  rewrite Nat.eqb_refl in H. discriminate.
Qed.

Lemma dict_del_absent (k : conn) (d : registry) :
  dict_mem k d = false -> dict_del k d = d.
Proof.
  unfold dict_mem, dict_del, keys.
  induction d as [|[k' v] d IH]; simpl; intros H.
  - reflexivity.
  - apply orb_false_iff in H. destruct H as [H1 H2].
    rewrite H1. simpl. rewrite IH by exact H2. reflexivity.
Qed.

Lemma dict_mem_unregister (c : conn) (d : registry) :
  dict_mem c (unregister c d) = false.
Proof.
  unfold unregister. destruct (dict_mem c d) eqn:H.
  - apply dict_mem_del.
  - exact H.
Qed.

Lemma dict_get_set (k : conn) (v : info) (d : registry) :
  dict_get k (dict_set k v d) = Some v.
Proof.
  induction d as [|[k' v'] d IH]; simpl.
  - rewrite Nat.eqb_refl. reflexivity.
  - destruct (Nat.eqb k k') eqn:Hk; simpl.
    + rewrite Nat.eqb_refl. reflexivity.
    + rewrite Hk. exact IH.
Qed.

Lemma keys_dict_set (k : conn) (v : info) (d : registry) :
  keys (dict_set k v d) = if dict_mem k d then keys d else keys d ++ [k].
Proof.
  unfold dict_mem, keys. induction d as [|[k' v'] d IH]; simpl.
  - reflexivity.
  - destruct (Nat.eqb k k') eqn:Hk; simpl.
    + apply Nat.eqb_eq in Hk. subst. reflexivity.
    + rewrite IH. destruct (existsb (Nat.eqb k) (map fst d)); reflexivity.
Qed.

(** A dict holds a key once: the two updates keep it so. *)
Lemma dict_set_NoDup (k : conn) (v : info) (d : registry) :
  NoDup (keys d) -> NoDup (keys (dict_set k v d)).
Proof.
  intros H. rewrite keys_dict_set. destruct (dict_mem k d) eqn:Hm.
  - exact H.
  - apply NoDup_app; [exact H | repeat constructor; auto |].
    intros x Hx [<-|[]]. apply dict_mem_In in Hx. congruence.
Qed.

Lemma unregister_NoDup (c : conn) (d : registry) :
  NoDup (keys d) -> NoDup (keys (unregister c d)).
Proof.
  intros H. unfold unregister. destruct (dict_mem c d); [|exact H].
  rewrite keys_dict_del. apply NoDup_filter. exact H.
Qed.

(** C8. [unregister] is idempotent: for every registry and every
    connection, removing the connection twice leaves the registry as
    removing it once does; removing a connection that is not registered
    changes nothing; and after a removal the connection is not
    registered. *)
Theorem unregister_idempotent (d : registry) (c : conn) :
  unregister c (unregister c d) = unregister c d /\
  (dict_mem c d = false -> unregister c d = d) /\
  dict_mem c (unregister c d) = false.
Proof.
  split; [|split].
  - unfold unregister at 1. rewrite dict_mem_unregister. reflexivity.
  - intros H. unfold unregister. rewrite H. reflexivity.
  - apply dict_mem_unregister.
Qed.

Lemma unregister_idempotent_example :
  unregister 2 (unregister 2 [(1%nat, alice); (2%nat, bob)]) = [(1%nat, alice)] /\
  unregister 3 [(1%nat, alice); (2%nat, bob)] = [(1%nat, alice); (2%nat, bob)].
Proof.
  split.
  - rewrite (proj1 (unregister_idempotent [(1%nat, alice); (2%nat, bob)] 2)).
    reflexivity.
  - apply (proj1 (proj2 (unregister_idempotent [(1%nat, alice); (2%nat, bob)] 3))).
    reflexivity.
Defined.

(** ** The exact-length reader *)

Lemma same_but_rx_refl (s : conn) (w : world) : same_but_rx s w w.
Proof. repeat split; auto. Qed.

Lemma same_but_rx_trans (s : conn) (w1 w2 w3 : world) :
  same_but_rx s w1 w2 -> same_but_rx s w2 w3 -> same_but_rx s w1 w3.
Proof.
  intros (A1 & A2 & A3 & A4) (B1 & B2 & B3 & B4).
  repeat split; try congruence.
  intros s' Hs. rewrite B4, A4 by exact Hs. reflexivity.
Qed.

Lemma same_but_rx_set (s : conn) (q : list segment) (w : world) :
  same_but_rx s w (set_rx s q w).
Proof.
  repeat split; auto. intros s' Hs. simpl.
  apply Nat.eqb_neq in Hs. rewrite Hs. reflexivity.
Qed.

Lemma rx_set_rx (s : conn) (q : list segment) (w : world) :
  rx (set_rx s q w) s = q.
Proof. simpl. rewrite Nat.eqb_refl. reflexivity. Qed.

Lemma pending_chunk (b : byte) (data : bytes) (q : list segment) :
  pending (Chunk (b :: data) :: q) = (b :: data) ++ pending q.
Proof. reflexivity. Qed.

(** What [recv_all] returns is decided by the pending bytes: with
    enough of them it returns the first [n] and leaves the others; with
    too few it returns [None] on a closed stream and raises on a reset
    one. *)
Lemma recv_all_loop_spec (sock : conn) (n : nat) :
  forall (fuel : nat) (data : bytes) (w : world),
    (n - length data < fuel)%nat ->
    exists w',
      same_but_rx sock w w' /\
      if (n - length data <=? length (pending (rx w sock)))%nat then
        recv_all_loop fuel sock data n w =
          (Ret (Some (data ++ firstn (n - length data) (pending (rx w sock)))), w') /\
        pending (rx w' sock) = skipn (n - length data) (pending (rx w sock)) /\
        closes (rx w' sock) = closes (rx w sock) /\
        (qsize (rx w' sock) + (n - length data) <= qsize (rx w sock))%nat
      else if closes (rx w sock) then
        recv_all_loop fuel sock data n w = (Ret None, w')
      else
        recv_all_loop fuel sock data n w = (Raise ConnectionResetError, w').
Proof.
  induction fuel as [|fuel IH]; intros data w Hfuel; [lia|].
  cbn [recv_all_loop].
  destruct (length data <? n)%nat eqn:Hlt.
  2:{ apply Nat.ltb_ge in Hlt. exists w. split; [apply same_but_rx_refl|].
      replace (n - length data)%nat with 0%nat by lia.
      simpl. rewrite app_nil_r. repeat split; auto; lia. }
  apply Nat.ltb_lt in Hlt.
  unfold bind, recv.
  destruct (rx w sock) as [|[chunk|] q] eqn:Hq.
  - (* closed *)
    exists w. split; [apply same_but_rx_refl|].
    simpl pending. simpl length.
    destruct (n - length data <=? 0)%nat eqn:Hle; [apply Nat.leb_le in Hle; lia|].
    reflexivity.
  - destruct chunk as [|b chunk].
    + (* an empty segment: closed *)
      exists (set_rx sock q w). split; [apply same_but_rx_set|].
      simpl.
      destruct (n - length data <=? 0)%nat eqn:Hle; [apply Nat.leb_le in Hle; lia|].
      reflexivity.
    + assert (Hpos : (1 <= length (b :: chunk))%nat) by (simpl; lia).
      destruct (length (b :: chunk) <=? n - length data)%nat eqn:Hfit.
      * (* the whole segment is taken *)
        apply Nat.leb_le in Hfit.
        specialize (IH (data ++ b :: chunk) (set_rx sock q w)).
        rewrite length_app in IH.
        destruct IH as (w' & Hsame & IH); [lia|].
        exists w'. split.
        { eapply same_but_rx_trans; [apply same_but_rx_set | exact Hsame]. }
        rewrite rx_set_rx in IH.
        rewrite pending_chunk, length_app.
        replace (n - (length data + length (b :: chunk)))%nat
          with (n - length data - length (b :: chunk))%nat in IH by lia.
        set (need := (n - length data)%nat) in *.
        destruct (need - length (b :: chunk) <=? length (pending q))%nat eqn:Hen.
        -- apply Nat.leb_le in Hen.
           replace (need <=? length (b :: chunk) + length (pending q))%nat with true
             by (symmetry; apply Nat.leb_le; lia).
           destruct IH as (Hr & Hp & Hc & Hs).
           rewrite firstn_app, skipn_app.
           rewrite (@firstn_all2 _ need (b :: chunk)) by exact Hfit.
           rewrite (@skipn_all2 _ need (b :: chunk)) by exact Hfit.
           rewrite <- app_assoc in Hr.
           simpl closes. simpl qsize. simpl length in *.
           repeat split; auto. lia.
        -- apply Nat.leb_gt in Hen.
           replace (need <=? length (b :: chunk) + length (pending q))%nat with false
             by (symmetry; apply Nat.leb_gt; lia).
           simpl closes. exact IH.
      * (* a part of the segment is taken *)
        apply Nat.leb_gt in Hfit.
        set (need := (n - length data)%nat) in *.
        assert (Hneed : exists k, need = S k) by (exists (need - 1)%nat; lia).
        destruct Hneed as [k Hk].
        assert (Hrest : exists b' rest', skipn need (b :: chunk) = b' :: rest').
        { destruct (skipn need (b :: chunk)) as [|b' rest'] eqn:Hsk.
          - apply (f_equal (@length byte)) in Hsk. rewrite length_skipn in Hsk.
            simpl length in *. lia.
          - eauto. }
        destruct Hrest as (b' & rest' & Hsk).
        assert (Hfn : length (firstn need (b :: chunk)) = need).
        { rewrite length_firstn. lia. }
        specialize (IH (data ++ firstn need (b :: chunk))
                       (set_rx sock (Chunk (skipn need (b :: chunk)) :: q) w)).
        rewrite length_app, Hfn in IH.
        destruct IH as (w' & Hsame & IH); [lia|].
        exists w'. split.
        { eapply same_but_rx_trans; [apply same_but_rx_set | exact Hsame]. }
        rewrite rx_set_rx in IH.
        replace (n - (length data + need))%nat with 0%nat in IH by lia.
        simpl Nat.leb in IH. destruct IH as (Hr & Hp & Hc & Hs).
        rewrite pending_chunk, length_app.
        replace (need <=? length (b :: chunk) + length (pending q))%nat with true
          by (symmetry; apply Nat.leb_le; lia).
        rewrite firstn_app, skipn_app.
        replace (need - length (b :: chunk))%nat with 0%nat by lia.
        assert (Hl : (length (b' :: rest') + need = length (b :: chunk))%nat).
        { rewrite <- Hsk, length_skipn. lia. }
        clearbody need. subst need.
        rewrite Hsk in *.
        cbn [firstn skipn] in *. rewrite app_nil_r in *.
        cbn [pending closes qsize length] in *.
        repeat split; auto. lia.
  - (* reset *)
    exists (set_rx sock q w). split; [apply same_but_rx_set|].
    simpl.
    destruct (n - length data <=? 0)%nat eqn:Hle; [apply Nat.leb_le in Hle; lia|].
    reflexivity.
Qed.

Lemma recv_all_spec (sock : conn) (n : nat) (w : world) :
  exists w',
    same_but_rx sock w w' /\
    if (n <=? length (pending (rx w sock)))%nat then
      recv_all sock n w = (Ret (Some (firstn n (pending (rx w sock)))), w') /\
      pending (rx w' sock) = skipn n (pending (rx w sock)) /\
      closes (rx w' sock) = closes (rx w sock) /\
      (qsize (rx w' sock) + n <= qsize (rx w sock))%nat
    else if closes (rx w sock) then recv_all sock n w = (Ret None, w')
    else recv_all sock n w = (Raise ConnectionResetError, w').
Proof.
  unfold recv_all.
  destruct (recv_all_loop_spec sock n (S n) [] w) as (w' & Hsame & H);
    [simpl; lia|].
  exists w'. split; [exact Hsame|].
  simpl length in H. rewrite Nat.sub_0_r in H. simpl app in H. exact H.
Qed.

(** [recv_all] always returns: its loop bound is never reached. *)
Lemma recv_all_returns (sock : conn) (n : nat) (w : world) :
  fst (recv_all sock n w) <> OutOfFuel.
Proof.
  destruct (recv_all_spec sock n w) as (w' & _ & H).
  destruct (n <=? length (pending (rx w sock)))%nat.
  - destruct H as (-> & _). discriminate.
  - destruct (closes (rx w sock)); rewrite H; discriminate.
Qed.

Lemma parse_header_total (data : bytes) :
  (8 <= length data)%nat -> parse_header data <> None.
Proof.
  intros H. unfold parse_header, HEADER_SIZE.
  replace (length data <? 8)%nat with false by (symmetry; apply Nat.ltb_ge; exact H).
  destruct data as [|b0 [|b1 [|b2 [|b3 [|b4 [|b5 [|b6 [|b7 rest]]]]]]]];
    simpl in H; try lia.
  simpl. discriminate.
Qed.

(** The reading part of a pass does what section 4.2 says, and touches
    nothing but the queue of its own socket. *)
Lemma read_frame_spec (c : conn) (w : world) :
  exists w',
    same_but_rx c w w' /\
    read_frame c w =
      (match spec_reading (rx w c) with
       | Some r => Ret r
       | None => Raise ConnectionResetError
       end, w') /\
    forall f, spec_reading (rx w c) = Some (Got f) ->
      pending (rx w' c) = skipn (8 + length (fpayload f)) (pending (rx w c)) /\
      (qsize (rx w' c) < qsize (rx w c))%nat /\
      frame_complete f.
Proof.
  unfold read_frame, spec_reading, bind, HEADER_SIZE.
  destruct (recv_all_spec c 8 w) as (w1 & Hsame1 & H1).
  set (p := pending (rx w c)) in *.
  destruct (8 <=? length p)%nat eqn:Hhdr.
  2:{ apply Nat.leb_gt in Hhdr.
      replace (length p <? 8)%nat with true by (symmetry; apply Nat.ltb_lt; exact Hhdr).
      exists w1. split; [exact Hsame1|].
      destruct (closes (rx w c)); rewrite H1; split; try reflexivity; discriminate. }
  apply Nat.leb_le in Hhdr.
  replace (length p <? 8)%nat with false by (symmetry; apply Nat.ltb_ge; exact Hhdr).
  destruct H1 as (-> & Hp1 & Hc1 & Hs1).
  assert (Hlen8 : length (firstn 8 p) = 8%nat) by (rewrite length_firstn; lia).
  destruct (parse_header (firstn 8 p)) as [[[[v t] s] l]|] eqn:Hparse.
  2:{ exfalso. revert Hparse. apply parse_header_total. lia. }
  pose proof (parse_header_some _ _ _ _ _ Hparse) as (_ & Hv & Ht & Hs & Hl).
  unfold lift_option, ret.
  destruct (0 <? l) eqn:Hpos.
  - apply Z.ltb_lt in Hpos.
    destruct (recv_all_spec c (Z.to_nat l) w1) as (w2 & Hsame2 & H2).
    rewrite Hp1, length_skipn in H2.
    destruct (Z.to_nat l <=? length p - 8)%nat eqn:Hpay.
    + apply Nat.leb_le in Hpay.
      destruct H2 as (-> & Hp2 & Hc2 & Hs2).
      exists w2. split; [eapply same_but_rx_trans; eassumption|].
      split; [reflexivity|].
      intros f Hf.
      assert (Hf' : f = Frame v t s l (firstn (Z.to_nat l) (skipn 8 p))) by congruence.
      subst f. cbn [fpayload fversion ftype fseq flength].
      assert (Hlp : length (firstn (Z.to_nat l) (skipn 8 p)) = Z.to_nat l).
      { rewrite length_firstn, length_skipn. lia. }
      rewrite Hlp. split; [|split].
      * rewrite Hp2, skipn_skipn. f_equal. lia.
      * lia.
      * unfold frame_complete, len. cbn [fpayload fversion ftype fseq flength].
        rewrite Hlp. repeat split; try lia.
    + exists w2. split; [eapply same_but_rx_trans; eassumption|].
      rewrite Hc1 in H2.
      destruct (closes (rx w c)); rewrite H2; split; try reflexivity; discriminate.
  - apply Z.ltb_ge in Hpos. assert (l = 0) by lia. subst l.
    exists w1. split; [exact Hsame1|].
    simpl. split; [reflexivity|].
    intros f Hf.
    assert (Hf' : f = Frame v t s 0 []) by congruence.
    subst f. cbn [fpayload fversion ftype fseq flength length].
    split; [|split].
    + rewrite Hp1. reflexivity.
    + lia.
    + unfold frame_complete, len. cbn. repeat split; lia.
Qed.

Lemma firstn_add {X : Type} (a b : nat) (l : list X) :
  firstn (a + b) l = firstn a l ++ firstn b (skipn a l).
Proof.
  revert l. induction a as [|a IH]; intros l; [reflexivity|].
  destruct l as [|x l]; simpl.
  - rewrite firstn_nil. reflexivity.
  - rewrite IH. reflexivity.
Qed.

(** The bytes of a frame that was read are the first pending bytes. *)
Lemma spec_reading_got (q : list segment) (f : frame) :
  spec_reading q = Some (Got f) ->
  parse_header (firstn 8 (pending q)) =
    Some (fversion f, ftype f, fseq f, flength f) /\
  firstn 8 (pending q) ++ fpayload f =
    firstn (8 + length (fpayload f)) (pending q).
Proof.
  unfold spec_reading. set (p := pending q).
  destruct (length p <? 8)%nat eqn:Hlt.
  { destruct (closes q); discriminate. }
  apply Nat.ltb_ge in Hlt.
  destruct (parse_header (firstn 8 p)) as [[[[v t] s] l]|] eqn:Hparse; [|discriminate].
  destruct (Z.to_nat l <=? length p - 8)%nat eqn:Hpay.
  2:{ destruct (closes q); discriminate. }
  intros H.
  assert (Hf : f = Frame v t s l (firstn (Z.to_nat l) (skipn 8 p))) by congruence.
  subst f. cbn [fversion ftype fseq flength fpayload].
  split; [reflexivity|].
  rewrite firstn_add. f_equal.
  rewrite length_firstn, length_skipn.
  apply Nat.leb_le in Hpay.
  replace (Nat.min (Z.to_nat l) (length p - 8)) with (Z.to_nat l) by lia.
  reflexivity.
Qed.

Lemma read_frame_got_bytes (c : conn) (w w1 : world) (f : frame) :
  read_frame c w = (Ret (Got f), w1) ->
  parse_header (firstn 8 (pending (rx w c))) =
    Some (fversion f, ftype f, fseq f, flength f) /\
  firstn 8 (pending (rx w c)) ++ fpayload f =
    firstn (8 + length (fpayload f)) (pending (rx w c)).
Proof.
  intros H. destruct (read_frame_spec c w) as (w' & _ & Hr & _).
  rewrite H in Hr.
  destruct (spec_reading (rx w c)) as [r|] eqn:Hspec; [|discriminate].
  apply spec_reading_got. congruence.
Qed.

Lemma read_frame_got (c : conn) (w w1 : world) (f : frame) :
  read_frame c w = (Ret (Got f), w1) ->
  frame_complete f /\ same_but_rx c w w1 /\ (qsize (rx w1 c) < qsize (rx w c))%nat.
Proof.
  intros H. destruct (read_frame_spec c w) as (w' & Hsame & Hr & Hgot).
  rewrite H in Hr.
  destruct (spec_reading (rx w c)) as [r|] eqn:Hspec; [|discriminate].
  injection Hr as Hr1 Hr2. subst r w'.
  destruct (Hgot f eq_refl) as (_ & Hq & Hf). auto.
Qed.

Lemma read_frame_returns (c : conn) (w : world) :
  fst (read_frame c w) <> OutOfFuel.
Proof.
  destruct (read_frame_spec c w) as (w' & _ & -> & _).
  destruct (spec_reading (rx w c)); discriminate.
Qed.

(** C7. Connection reader.  Whenever the stream of a connection does
    not reset inside a frame, a pass reads as section 4.2 says
    ([spec_reading]) and changes nothing but the queue of its socket.
    When it yields a frame, the pending bytes were an eight-byte header,
    then a payload of exactly the length the header announces, then what
    is still pending afterwards; the frame carries the fields of that
    header and that payload, and it is this frame that is dispatched.
    When the stream closes before eight header bytes have come, or after
    the header and before the whole payload, the pass ends the loop
    ([Break]) and nothing is dispatched: trace and registry are as
    before. *)
Theorem reader_yields_complete_frames
  (E : Env) (c : conn) (a : addr) (w : world) (r : reading) :
  spec_reading (rx w c) = Some r ->
  exists w',
    read_frame c w = (Ret r, w') /\
    same_but_rx c w w' /\
    match r with
    | Got f =>
        frame_complete f /\
        parse_header (firstn 8 (pending (rx w c))) =
          Some (fversion f, ftype f, fseq f, flength f) /\
        pending (rx w c) =
          firstn 8 (pending (rx w c)) ++ fpayload f ++ pending (rx w' c) /\
        loop_body E c a w = dispatch E c a f w'
    | LostHeader =>
        (length (pending (rx w c)) < 8)%nat /\
        loop_body E c a w = (Ret Break, w')
    | LostPayload =>
        (8 <= length (pending (rx w c)))%nat /\
        loop_body E c a w = (Ret Break, w')
    end.
Proof.
  intros Hspec.
  destruct (read_frame_spec c w) as (w' & Hsame & Hr & Hgot).
  rewrite Hspec in Hr. exists w'. split; [exact Hr|]. split; [exact Hsame|].
  assert (Hloop : loop_body E c a w =
                  match r with
                  | Got f => dispatch E c a f w'
                  | _ => (Ret Break, w')
                  end).
  { unfold loop_body, bind. rewrite Hr. destruct r; reflexivity. }
  pose proof Hspec as Hspec0.
  unfold spec_reading in Hspec.
  set (p := pending (rx w c)) in *.
  destruct (length p <? 8)%nat eqn:Hlt.
  - apply Nat.ltb_lt in Hlt.
    destruct (closes (rx w c)); [|discriminate].
    injection Hspec as <-. split; [exact Hlt | exact Hloop].
  - apply Nat.ltb_ge in Hlt.
    destruct (parse_header (firstn 8 p)) as [[[[v t] s] l]|] eqn:Hparse; [|discriminate].
    destruct (Z.to_nat l <=? length p - 8)%nat eqn:Hpay.
    + assert (Hr' : r = Got (Frame v t s l (firstn (Z.to_nat l) (skipn 8 p))))
        by congruence.
      subst r. destruct (Hgot _ Hspec0) as (Hp & _ & Hf).
      cbn [fpayload fversion ftype fseq flength] in *.
      split; [exact Hf|]. split; [reflexivity|]. split; [|exact Hloop].
      rewrite Hp. fold p.
      rewrite <- (firstn_skipn 8 p) at 1. f_equal.
      rewrite <- (firstn_skipn (Z.to_nat l) (skipn 8 p)) at 1. f_equal.
      rewrite skipn_skipn. f_equal.
      rewrite length_firstn, length_skipn. apply Nat.leb_le in Hpay. lia.
    + destruct (closes (rx w c)); [|discriminate].
      injection Hspec as <-. split; [exact Hlt | exact Hloop].
Qed.

Lemma reader_truncated_example :
  exists w',
    read_frame 1 world_truncated = (Ret LostPayload, w') /\
    same_but_rx 1 world_truncated w' /\
    (8 <= length (pending (rx world_truncated 1)))%nat /\
    loop_body calm 1 (localhost 4001) world_truncated = (Ret Break, w').
Proof.
  apply (reader_yields_complete_frames calm 1 (localhost 4001) world_truncated LostPayload).
  vm_compute. reflexivity.
Defined.

(** ** Traces of the handler *)

Lemma lock_scan_app (held : bool) (s1 s2 : list effect) :
  lock_scan held (s1 ++ s2) =
  match lock_scan held s1 with
  | Some held' => lock_scan held' s2
  | None => None
  end.
Proof.
  revert held. induction s1 as [|ev s1 IH]; intros held; simpl.
  - reflexivity.
  - destruct ev, held; auto.
Qed.

Lemma tidy_nil : tidy [].
Proof. split; [reflexivity | constructor]. Qed.

Lemma tidy_app (s1 s2 : list effect) : tidy s1 -> tidy s2 -> tidy (s1 ++ s2).
Proof.
  intros [L1 F1] [L2 F2]. split.
  - rewrite lock_scan_app, L1. exact L2.
  - apply Forall_app. split; assumption.
Qed.

Lemma tidy_lock : tidy [EvAcquire; EvRelease].
Proof. split; [reflexivity | repeat constructor]. Qed.

Lemma tidy_send (s : conn) (data : bytes) (ok : bool) :
  frame_ok data = true -> tidy [EvSendall s data ok].
Proof. intros H. split; [reflexivity | repeat constructor; exact H]. Qed.

Lemma tidy_append (fname : str) (data : bytes) : tidy [EvAppend fname data].
Proof. split; [reflexivity | repeat constructor]. Qed.

Create HintDb tidy.
#[local] Hint Resolve tidy_nil tidy_app tidy_lock tidy_send tidy_append : tidy.

Lemma frame_ok_built (v t s : Z) (hdr payload : bytes) :
  build_header v t s (len payload) = Some hdr -> frame_ok (hdr ++ payload) = true.
Proof.
  intros H. unfold frame_ok. rewrite (parse_build_header _ _ _ _ _ payload H).
  apply Z.eqb_eq. unfold len. rewrite length_app, (length_build_header _ _ _ _ _ H). lia.
Qed.

Section Tidy.
Context {A B : Type}.

Lemma runs_tidy_ret (a : A) : runs_tidy (ret a).
Proof.
  intros w. simpl. repeat split; try discriminate.
  exists []. rewrite app_nil_r. auto with tidy.
Qed.

Lemma runs_tidy_raise (e : exn) : runs_tidy (@raise world A e).
Proof.
  intros w. simpl. repeat split; try discriminate.
  exists []. rewrite app_nil_r. auto with tidy.
Qed.

Lemma runs_tidy_bind (m : M world A) (k : A -> M world B) :
  runs_tidy m ->
  (forall a w w', m w = (Ret a, w') -> runs_tidy (k a)) ->
  runs_tidy (bind m k).
Proof.
  intros Hm Hk w. unfold bind.
  destruct (Hm w) as (Hf & Hrx & seg & Htr & Hseg).
  destruct (m w) as [[a | e |] w1] eqn:Hmw; simpl in *.
  - destruct (Hk a w w1 Hmw w1) as (Hf2 & Hrx2 & seg2 & Htr2 & Hseg2).
    split; [exact Hf2|]. split; [congruence|].
    exists (seg ++ seg2). rewrite Htr2, Htr, app_assoc. auto with tidy.
  - split; [discriminate|]. split; [exact Hrx|]. eauto.
  - congruence.
Qed.

Lemma runs_tidy_lift_option (e : exn) (o : option A) (k : A -> M world B) :
  (forall a, o = Some a -> runs_tidy (k a)) ->
  runs_tidy (bind (lift_option e o) k).
Proof.
  intros Hk. destruct o as [a|]; simpl.
  - intros w. unfold bind, lift_option, ret. apply Hk. reflexivity.
  - intros w. unfold bind, lift_option, raise. simpl.
    repeat split; try discriminate. exists []. rewrite app_nil_r. auto with tidy.
Qed.

Lemma runs_tidy_try_except (catches : exn -> bool) (m : M world A)
      (h : exn -> M world A) :
  runs_tidy m -> (forall e, runs_tidy (h e)) -> runs_tidy (try_except catches m h).
Proof.
  intros Hm Hh w. unfold try_except.
  destruct (Hm w) as (Hf & Hrx & seg & Htr & Hseg).
  destruct (m w) as [[a | e |] w1] eqn:Hmw; simpl in *.
  - repeat split; try discriminate; eauto.
  - destruct (catches e).
    + destruct (Hh e w1) as (Hf2 & Hrx2 & seg2 & Htr2 & Hseg2).
      split; [exact Hf2|]. split; [congruence|].
      exists (seg ++ seg2). rewrite Htr2, Htr, app_assoc. auto with tidy.
    + simpl. repeat split; try discriminate; eauto.
  - congruence.
Qed.

Lemma silent_with_lock (body : M world A) :
  silent body -> runs_tidy (with_lock body).
Proof.
  intros Hb w. unfold with_lock.
  destruct (Hb (emit EvAcquire w)) as (Hf & Hrx & Htr).
  destruct (body (emit EvAcquire w)) as [r w1]; simpl in *.
  split; [exact Hf|]. split; [exact Hrx|].
  exists [EvAcquire; EvRelease]. rewrite Htr, <- app_assoc. auto with tidy.
Qed.
End Tidy.

Lemma runs_tidy_for_each {X : Type} (xs : list X) (body : X -> M world unit) :
  (forall x, runs_tidy (body x)) -> runs_tidy (for_each xs body).
Proof.
  intros Hb. induction xs as [|x xs IH]; simpl.
  - apply runs_tidy_ret.
  - apply runs_tidy_bind; [apply Hb | intros; exact IH].
Qed.

Lemma silent_read_registry {X : Type} (g : registry -> X) :
  silent (d <- get_clients ;; ret (g d)).
Proof. intros w. simpl. repeat split; discriminate. Qed.

Lemma silent_write_registry (g : registry -> registry) :
  silent (d <- get_clients ;; put_clients (g d)).
Proof. intros w. simpl. repeat split; discriminate. Qed.

Lemma runs_tidy_sendall (E : Env) (s : conn) (data : bytes) :
  frame_ok data = true -> runs_tidy (sendall E s data).
Proof.
  intros Hok w. unfold sendall. simpl.
  split; [destruct (send_ok E (ticks w) s); discriminate|].
  split; [reflexivity|]. eexists. split; [reflexivity|]. auto with tidy.
Qed.

Lemma runs_tidy_now (E : Env) : runs_tidy (now E).
Proof.
  intros w. simpl. repeat split; try discriminate.
  exists []. rewrite app_nil_r. auto with tidy.
Qed.

Lemma runs_tidy_append_file (E : Env) (fname : str) (data : bytes) :
  runs_tidy (append_file E fname data).
Proof.
  intros w. unfold append_file.
  destruct (open_ok E (ticks w) fname); simpl.
  - repeat split; try discriminate. eexists. split; [reflexivity|]. auto with tidy.
  - repeat split; try discriminate. exists []. rewrite app_nil_r. auto with tidy.
Qed.

Lemma runs_tidy_send_ack (E : Env) (sock : conn) (seq : Z) (message : bytes) :
  runs_tidy (send_ack E sock seq message).
Proof.
  unfold send_ack. apply runs_tidy_lift_option. intros hdr Hhdr.
  apply runs_tidy_try_except.
  - apply runs_tidy_sendall. eapply frame_ok_built. exact Hhdr.
  - intros e. apply runs_tidy_ret.
Qed.

Lemma runs_tidy_broadcast (E : Env) (sender : conn) (header payload : bytes) :
  frame_ok (header ++ payload) = true ->
  runs_tidy (broadcast E sender header payload).
Proof.
  intros Hok. unfold broadcast. apply runs_tidy_bind.
  - apply silent_with_lock. apply silent_read_registry.
  - intros recipients w w' _. apply runs_tidy_for_each. intros s.
    apply runs_tidy_try_except.
    + apply runs_tidy_sendall. exact Hok.
    + intros e. apply runs_tidy_ret.
Qed.

(** Whatever a complete frame asks for, handling it returns, reads
    nothing and leaves a tidy stretch of trace. *)
Lemma runs_tidy_dispatch (E : Env) (c : conn) (a : addr) (f : frame) :
  frame_complete f -> runs_tidy (dispatch E c a f).
Proof.
  intros (Hv & Ht & Hs & Hl & Hlen). unfold dispatch.
  destruct (ftype f =? TYPE_CONNECT).
  { apply runs_tidy_bind.
    { apply runs_tidy_try_except; [|intros e]; apply runs_tidy_ret. }
    intros name w w' _.
    apply runs_tidy_bind; [apply silent_with_lock, silent_write_registry|].
    intros. apply runs_tidy_bind; [apply runs_tidy_send_ack|].
    intros. apply runs_tidy_ret. }
  destruct (ftype f =? TYPE_MSG).
  { apply runs_tidy_lift_option. intros header Hh.
    apply runs_tidy_bind.
    { apply runs_tidy_broadcast. rewrite <- Hlen in Hh.
      eapply frame_ok_built. exact Hh. }
    intros. apply runs_tidy_bind; [apply runs_tidy_send_ack|].
    intros. apply runs_tidy_ret. }
  destruct (ftype f =? TYPE_LIST).
  { apply runs_tidy_bind; [apply silent_with_lock, silent_read_registry|].
    intros names w w' _.
    apply runs_tidy_lift_option. intros list_payload _.
    apply runs_tidy_lift_option. intros resp_hdr Hh.
    apply runs_tidy_bind.
    { apply runs_tidy_sendall. eapply frame_ok_built. exact Hh. }
    intros. apply runs_tidy_ret. }
  destruct (ftype f =? TYPE_FILE).
  { apply runs_tidy_bind; [apply runs_tidy_now|].
    intros t w w' _.
    apply runs_tidy_bind; [apply runs_tidy_append_file|].
    intros. apply runs_tidy_lift_option. intros msg _.
    apply runs_tidy_bind; [apply runs_tidy_send_ack|].
    intros. apply runs_tidy_ret. }
  destruct (ftype f =? TYPE_DISCONNECT).
  { apply runs_tidy_bind; [apply runs_tidy_send_ack|].
    intros. apply runs_tidy_ret. }
  destruct (ftype f =? TYPE_ACK); apply runs_tidy_ret.
Qed.

(** ** The loop and the cleanup *)

(** A pass of the loop returns and adds a tidy stretch to the trace; when
    the loop goes on, the queue of the connection has shrunk. *)
Lemma loop_body_spec (E : Env) (c : conn) (a : addr) (w : world) :
  fst (loop_body E c a w) <> OutOfFuel /\
  (exists seg, trace (snd (loop_body E c a w)) = trace w ++ seg /\ tidy seg) /\
  (fst (loop_body E c a w) = Ret Continue ->
   (qsize (rx (snd (loop_body E c a w)) c) < qsize (rx w c))%nat).
Proof.
  unfold loop_body, bind.
  pose proof (read_frame_returns c w) as Hret.
  destruct (read_frame_spec c w) as (w1 & (_ & Htr & _) & Hr & _).
  destruct (read_frame c w) as [[[f | |] | e |] w0] eqn:Hread; simpl in Hret;
    try congruence;
    assert (w0 = w1) by congruence; subst w0.
  - destruct (read_frame_got _ _ _ _ Hread) as (Hf & _ & Hq).
    destruct (runs_tidy_dispatch E c a f Hf w1) as (Hd1 & Hd2 & seg & Hd3 & Hd4).
    split; [exact Hd1|]. split.
    + exists seg. rewrite Hd3, Htr. auto.
    + intros _. rewrite Hd2. exact Hq.
  - simpl. split; [discriminate|]. split; [|discriminate].
    exists []. rewrite app_nil_r. auto using tidy_nil.
  - simpl. split; [discriminate|]. split; [|discriminate].
    exists []. rewrite app_nil_r. auto using tidy_nil.
  - simpl. split; [discriminate|]. split; [|discriminate].
    exists []. rewrite app_nil_r. auto using tidy_nil.
Qed.

(** The loop adds a tidy stretch to the trace, however long it runs. *)
Lemma serve_loop_tidy (E : Env) (c : conn) (a : addr) :
  forall (fuel : nat) (w : world),
    exists seg, trace (snd (serve_loop E fuel c a w)) = trace w ++ seg /\ tidy seg.
Proof.
  induction fuel as [|fuel IH]; intros w; cbn [serve_loop].
  - exists []. simpl. rewrite app_nil_r. auto using tidy_nil.
  - unfold bind.
    destruct (loop_body_spec E c a w) as (_ & (seg & Htr & Hseg) & _).
    destruct (loop_body E c a w) as [[[|] | e |] w1]; simpl in *; eauto.
    destruct (IH w1) as (seg2 & Htr2 & Hseg2).
    exists (seg ++ seg2). rewrite Htr2, Htr, app_assoc. auto using tidy_app.
Qed.

(** The loop ends within as many passes as the queue of the connection
    measures, plus one. *)
Lemma serve_loop_returns (E : Env) (c : conn) (a : addr) :
  forall (fuel : nat) (w : world),
    (qsize (rx w c) < fuel)%nat -> fst (serve_loop E fuel c a w) <> OutOfFuel.
Proof.
  induction fuel as [|fuel IH]; intros w Hfuel; [lia|].
  cbn [serve_loop]. unfold bind.
  destruct (loop_body_spec E c a w) as (Hret & _ & Hq).
  destruct (loop_body E c a w) as [[[|] | e |] w1]; simpl in *;
    try discriminate; try congruence.
  apply IH. specialize (Hq eq_refl). lia.
Qed.

(** The [finally] block, computed. *)
Lemma cleanup_run (c : conn) (w : world) :
  cleanup c w =
  (Ret tt,
   emit (EvClose c)
     (emit EvRelease (set_clients (unregister c (clients w)) (emit EvAcquire w)))).
Proof. reflexivity. Qed.

(** [handle_client] is the loop, with its exceptions caught, and then
    the cleanup. *)
Lemma handle_client_run (E : Env) (fuel : nat) (c : conn) (a : addr) (w : world) :
  fst (serve_loop E fuel c a w) <> OutOfFuel ->
  exists r,
    r <> OutOfFuel /\
    handle_client E fuel c a w =
    (r,
     emit (EvClose c)
       (emit EvRelease
          (set_clients (unregister c (clients (snd (serve_loop E fuel c a w))))
             (emit EvAcquire (snd (serve_loop E fuel c a w)))))).
Proof.
  intros Hret. unfold handle_client, try_finally, try_except.
  destruct (serve_loop E fuel c a w) as [[[] | e |] w1]; simpl in *.
  - exists (Ret tt). split; [discriminate | reflexivity].
  - destruct (is_Exception e); simpl.
    + exists (Ret tt). split; [discriminate | reflexivity].
    + exists (Raise e). split; [discriminate | reflexivity].
  - congruence.
Qed.

Lemma handle_client_out_of_fuel (E : Env) (fuel : nat) (c : conn) (a : addr) (w : world) :
  fst (serve_loop E fuel c a w) = OutOfFuel ->
  handle_client E fuel c a w = (OutOfFuel, snd (serve_loop E fuel c a w)).
Proof.
  intros Hret. unfold handle_client, try_finally, try_except.
  destruct (serve_loop E fuel c a w) as [[[] | e |] w1]; simpl in *;
    try discriminate. reflexivity.
Qed.

Lemma count_close_app (c : conn) (s1 s2 : list effect) :
  count_close c (s1 ++ s2) = (count_close c s1 + count_close c s2)%nat.
Proof.
  induction s1 as [|ev s1 IH]; simpl; [reflexivity|].
  destruct ev; auto. rewrite IH. lia.
Qed.

Lemma tidy_closes_nothing (c : conn) (seg : list effect) :
  tidy seg -> count_close c seg = 0%nat.
Proof.
  intros [_ H]. induction H as [|ev seg Hev _ IH]; simpl; [reflexivity|].
  destruct ev; simpl in Hev; auto. contradiction.
Qed.

Lemma tidy_sends_well_formed (seg : list effect) : tidy seg -> sends_well_formed seg.
Proof.
  intros [_ H]. unfold sends_well_formed.
  eapply Forall_impl; [|exact H]. intros [] Hev; simpl in *; auto.
Qed.

(** The trace of a whole run of [handle_client]: what the loop added,
    and, once the loop has ended, the three effects of the cleanup. *)
Lemma handle_client_trace (E : Env) (fuel : nat) (c : conn) (a : addr) (w : world) :
  exists seg,
    tidy seg /\
    trace (snd (serve_loop E fuel c a w)) = trace w ++ seg /\
    (trace (snd (handle_client E fuel c a w)) = trace w ++ seg \/
     trace (snd (handle_client E fuel c a w)) =
       trace w ++ seg ++ [EvAcquire; EvRelease; EvClose c]).
Proof.
  destruct (serve_loop_tidy E c a fuel w) as (seg & Htr & Hseg).
  exists seg. split; [exact Hseg|]. split; [exact Htr|].
  destruct (fst (serve_loop E fuel c a w)) as [[] | e |] eqn:Hres.
  - right. destruct (handle_client_run E fuel c a w) as (r & _ & ->); [congruence|].
    simpl. rewrite Htr, <- !app_assoc. reflexivity.
  - right. destruct (handle_client_run E fuel c a w) as (r & _ & ->); [congruence|].
    simpl. rewrite Htr, <- !app_assoc. reflexivity.
  - left. rewrite (handle_client_out_of_fuel E fuel c a w Hres). exact Htr.
Qed.

(** C3. Cleanup runs exactly once, on every way out of the loop.  For
    every environment, connection and world, and a loop bound above the
    measure of the connection's queue, [handle_client] returns; whatever
    ended the loop (DISCONNECT, a closed stream, a truncated payload, an
    exception), its last steps are the removal of the connection from
    the registry, inside the lock, and then the one [close] of its
    socket, which the loop itself never closes; afterwards the registry
    does not hold the connection. *)
Theorem cleanup_runs_once (E : Env) (fuel : nat) (c : conn) (a : addr) (w : world) :
  (qsize (rx w c) < fuel)%nat ->
  exists w1 seg,
    fst (handle_client E fuel c a w) <> OutOfFuel /\
    w1 = snd (serve_loop E fuel c a w) /\
    trace w1 = trace w ++ seg /\
    count_close c seg = 0%nat /\
    snd (handle_client E fuel c a w) =
      emit (EvClose c)
        (emit EvRelease (set_clients (unregister c (clients w1)) (emit EvAcquire w1))) /\
    trace (snd (handle_client E fuel c a w)) =
      trace w ++ seg ++ [EvAcquire; EvRelease; EvClose c] /\
    count_close c (seg ++ [EvAcquire; EvRelease; EvClose c]) = 1%nat /\
    dict_mem c (clients (snd (handle_client E fuel c a w))) = false.
Proof.
  intros Hfuel.
  pose proof (serve_loop_returns E c a fuel w Hfuel) as Hret.
  destruct (serve_loop_tidy E c a fuel w) as (seg & Htr & Hseg).
  destruct (handle_client_run E fuel c a w Hret) as (r & Hr & Hrun).
  exists (snd (serve_loop E fuel c a w)), seg.
  rewrite Hrun. simpl.
  pose proof (tidy_closes_nothing c seg Hseg) as Hnone.
  repeat split; auto.
  - rewrite Htr, <- !app_assoc. reflexivity.
  - rewrite count_close_app, Hnone. simpl. rewrite Nat.eqb_refl. reflexivity.
  - apply dict_mem_unregister.
Qed.

Lemma cleanup_runs_once_example :
  exists w1 seg,
    fst (handle_client calm 60 1 (localhost 4001) world_truncated) <> OutOfFuel /\
    w1 = snd (serve_loop calm 60 1 (localhost 4001) world_truncated) /\
    trace w1 = trace world_truncated ++ seg /\
    count_close 1 seg = 0%nat /\
    snd (handle_client calm 60 1 (localhost 4001) world_truncated) =
      emit (EvClose 1)
        (emit EvRelease (set_clients (unregister 1 (clients w1)) (emit EvAcquire w1))) /\
    trace (snd (handle_client calm 60 1 (localhost 4001) world_truncated)) =
      trace world_truncated ++ seg ++ [EvAcquire; EvRelease; EvClose 1] /\
    count_close 1 (seg ++ [EvAcquire; EvRelease; EvClose 1]) = 1%nat /\
    dict_mem 1 (clients (snd (handle_client calm 60 1 (localhost 4001) world_truncated)))
      = false.
Proof.
  apply (cleanup_runs_once calm 60 1 (localhost 4001) world_truncated).
  vm_compute. lia.
Defined.

(** C9. Lock discipline.  In every run of [handle_client], complete or
    not, the effects it adds to the trace take the registry lock only
    when it is free and release it before anything else happens: no
    [sendall], file write or [close] falls between an acquire and its
    release, and the run ends with the lock free. *)
Theorem lock_never_held_across_io
  (E : Env) (fuel : nat) (c : conn) (a : addr) (w : world) :
  exists seg,
    trace (snd (handle_client E fuel c a w)) = trace w ++ seg /\
    lock_scan false seg = Some false.
Proof.
  destruct (handle_client_trace E fuel c a w) as (seg & [Hlock _] & _ & [H | H]).
  - exists seg. split; [exact H | exact Hlock].
  - exists (seg ++ [EvAcquire; EvRelease; EvClose c]). split; [exact H|].
    rewrite lock_scan_app, Hlock. reflexivity.
Qed.

(** C10. Every frame the server writes is well formed.  In every run of
    [handle_client], each [sendall] it makes (an ACK of [send_ack], a
    LIST reply, a MSG passed on) writes, in that one call, a header
    followed by exactly as many bytes as the length field of the header
    says. *)
Theorem server_frames_well_formed
  (E : Env) (fuel : nat) (c : conn) (a : addr) (w : world) :
  exists seg,
    trace (snd (handle_client E fuel c a w)) = trace w ++ seg /\
    sends_well_formed seg.
Proof.
  destruct (handle_client_trace E fuel c a w) as (seg & Htidy & _ & [H | H]).
  - exists seg. split; [exact H | apply tidy_sends_well_formed; exact Htidy].
  - exists (seg ++ [EvAcquire; EvRelease; EvClose c]). split; [exact H|].
    apply Forall_app. split; [apply tidy_sends_well_formed; exact Htidy|].
    repeat constructor.
Qed.

(** ** Handling one frame *)

Lemma send_ack_run (E : Env) (sock : conn) (seq : Z) (message hdr : bytes) (w : world) :
  build_header VERSION TYPE_ACK seq (len message) = Some hdr ->
  send_ack E sock seq message w =
  (Ret tt, tick (emit (EvSendall sock (hdr ++ message) (send_ok E (ticks w) sock)) w)).
Proof.
  intros H. unfold send_ack, bind. rewrite H. simpl.
  unfold try_except, sendall. destruct (send_ok E (ticks w) sock); reflexivity.
Qed.

Lemma fanout_run (E : Env) (data : bytes) :
  forall (recipients : list conn) (w : world),
    for_each recipients
      (fun s => try_except is_Exception (sendall E s data) (fun _ => ret tt)) w =
    (Ret tt,
     World (clients w) (rx w) (trace w ++ fanout E (ticks w) recipients data)
           (ticks w + length recipients)).
Proof.
  induction recipients as [|s rest IH]; intros [d q tr t]; simpl.
  - rewrite app_nil_r, Nat.add_0_r. reflexivity.
  - unfold bind, try_except, sendall. simpl.
    destruct (send_ok E t s); simpl; rewrite IH; simpl;
      rewrite <- app_assoc, Nat.add_succ_r; reflexivity.
Qed.

Lemma broadcast_run (E : Env) (sender : conn) (header payload : bytes) (w : world) :
  broadcast E sender header payload w =
  (Ret tt,
   World (clients w) (rx w)
         (trace w ++ [EvAcquire; EvRelease]
            ++ fanout E (ticks w) (snapshot_except sender (clients w)) (header ++ payload))
         (ticks w + length (snapshot_except sender (clients w)))).
Proof.
  unfold broadcast, bind, with_lock, get_clients, ret. simpl.
  rewrite fanout_run. simpl. rewrite <- !app_assoc. reflexivity.
Qed.

Lemma in_fanout (E : Env) (data : bytes) (s : conn) :
  forall (recipients : list conn) (t : nat),
    In s recipients ->
    exists ok,
      In (EvSendall s data ok) (fanout E t recipients data) /\
      ((forall n, send_ok E n s = true) -> ok = true).
Proof.
  induction recipients as [|s' rest IH]; intros t Hin; [destruct Hin|].
  destruct Hin as [-> | Hin].
  - exists (send_ok E t s). split; [left; reflexivity | auto].
  - destruct (IH (S t) Hin) as (ok & H1 & H2).
    exists ok. split; [right; exact H1 | exact H2].
Qed.

Lemma fanout_in (E : Env) (data data' : bytes) (s : conn) (ok : bool) :
  forall (recipients : list conn) (t : nat),
    In (EvSendall s data' ok) (fanout E t recipients data) ->
    In s recipients /\ data' = data.
Proof.
  induction recipients as [|s' rest IH]; intros t Hin; [destruct Hin|].
  destruct Hin as [Heq | Hin].
  - injection Heq as -> -> _. split; [left; reflexivity | reflexivity].
  - destruct (IH (S t) Hin) as [H1 H2]. split; [right; exact H1 | exact H2].
Qed.

Lemma in_snapshot_except (sender s : conn) (d : registry) :
  In s (snapshot_except sender d) <-> In s (keys d) /\ s <> sender.
Proof.
  unfold snapshot_except. rewrite filter_In.
  rewrite negb_true_iff, Nat.eqb_neq. reflexivity.
Qed.

Lemma list_names_filter (d : registry) :
  list_names d = filter truthy (map name (values d)).
Proof.
  unfold list_names. induction (values d) as [|i l IH]; simpl; [reflexivity|].
  destruct (truthy (name i)); simpl; rewrite IH; reflexivity.
Qed.

(** The branches of [dispatch]. *)
Lemma dispatch_connect (E : Env) (c : conn) (a : addr) (f : frame) :
  ftype f = TYPE_CONNECT ->
  dispatch E c a f =
  (with_lock (d <- get_clients ;;
              put_clients (dict_set c (Info (decode_utf8_ignore E (fpayload f)) a) d)) ;;
   send_ack E c (fseq f) (blit "CONNECTED") ;;
   ret Continue).
Proof. intros H. unfold dispatch. rewrite H. reflexivity. Qed.

Lemma dispatch_msg (E : Env) (c : conn) (a : addr) (f : frame) :
  ftype f = TYPE_MSG ->
  dispatch E c a f =
  (header <- lift_option StructError
               (build_header (fversion f) TYPE_MSG (fseq f) (flength f)) ;;
   broadcast E c header (fpayload f) ;;
   send_ack E c (fseq f) (blit "MSG_RECEIVED") ;;
   ret Continue).
Proof. intros H. unfold dispatch. rewrite H. reflexivity. Qed.

Lemma dispatch_list (E : Env) (c : conn) (a : addr) (f : frame) :
  ftype f = TYPE_LIST ->
  dispatch E c a f =
  (names <- with_lock (d <- get_clients ;; ret (list_names d)) ;;
   list_payload <- lift_option UnicodeEncodeError
                     (utf8_encode (str_join (lit ";") names)) ;;
   resp_hdr <- lift_option StructError
                 (build_header VERSION TYPE_LIST (fseq f) (len list_payload)) ;;
   sendall E c (resp_hdr ++ list_payload) ;;
   ret Continue).
Proof. intros H. unfold dispatch. rewrite H. reflexivity. Qed.

Lemma dispatch_disconnect (E : Env) (c : conn) (a : addr) (f : frame) :
  ftype f = TYPE_DISCONNECT ->
  dispatch E c a f = (send_ack E c (fseq f) (blit "BYE") ;; ret Break).
Proof. intros H. unfold dispatch. rewrite H. reflexivity. Qed.

(** A pass that has read a frame goes on with [dispatch], in a world
    that differs only by the bytes read. *)
Lemma loop_body_got (E : Env) (c : conn) (a : addr) (w w1 : world) (f : frame) :
  read_frame c w = (Ret (Got f), w1) ->
  loop_body E c a w = dispatch E c a f w1 /\
  frame_complete f /\
  clients w1 = clients w /\ trace w1 = trace w /\ ticks w1 = ticks w.
Proof.
  intros H. destruct (read_frame_got _ _ _ _ H) as (Hf & (H1 & H2 & H3 & _) & _).
  unfold loop_body, bind. rewrite H. auto.
Qed.

(** The decoder [utf8_decode_ignore] against the encoder: what
    [str.encode('utf-8')] produces decodes back to the same [str], so on
    valid UTF-8 the decoder drops nothing. *)
Lemma to_N_byte_of_N (n : N) : (n < 256)%N -> Byte.to_N (byte_of_N n) = n.
Proof.
  intros H. unfold byte_of_N.
  destruct (Byte.of_N n) as [b|] eqn:Hb.
  - apply Byte.to_of_N. exact Hb.
  - apply Byte.of_N_None_iff in Hb. lia.
Qed.

Ltac div_lia := zify; Z.to_euclidean_division_equations; lia.

Lemma Some_eq {A : Type} (x y : A) : Some x = Some y -> x = y.
Proof. congruence. Qed.

Lemma utf8_decode_encode_cp (c : codepoint) (bs rest : bytes) :
  utf8_encode_cp c = Some bs ->
  utf8_decode_ignore (bs ++ rest) = c :: utf8_decode_ignore rest.
Proof.
  unfold utf8_encode_cp. intros H.
  destruct (c <? 128)%N eqn:H1.
  { apply N.ltb_lt in H1. apply Some_eq in H; subst bs.
    cbn [app utf8_decode_ignore]. cbv zeta.
    rewrite to_N_byte_of_N by div_lia.
    apply N.ltb_lt in H1. rewrite H1. reflexivity. }
  apply N.ltb_ge in H1.
  destruct (c <? 2048)%N eqn:H2.
  { apply N.ltb_lt in H2. apply Some_eq in H; subst bs.
    cbn [app utf8_decode_ignore]. cbv zeta.
    rewrite !to_N_byte_of_N by div_lia.
    replace (192 + c / 64 <? 128)%N with false by (symmetry; apply N.ltb_ge; div_lia).
    replace (192 + c / 64 <? 194)%N with false by (symmetry; apply N.ltb_ge; div_lia).
    replace (192 + c / 64 <? 224)%N with true by (symmetry; apply N.ltb_lt; div_lia).
    unfold is_continuation.
    replace (128 <=? 128 + c mod 64)%N with true by (symmetry; apply N.leb_le; div_lia).
    replace (128 + c mod 64 <? 192)%N with true by (symmetry; apply N.ltb_lt; div_lia).
    cbn [andb]. f_equal. div_lia. }
  apply N.ltb_ge in H2.
  destruct (c <? 65536)%N eqn:H3.
  { apply N.ltb_lt in H3.
    destruct ((55296 <=? c) && (c <=? 57343))%N eqn:Hsur; [discriminate|].
    apply Some_eq in H; subst bs.
    assert (Hns : (c < 55296 \/ 57343 < c)%N).
    { apply andb_false_iff in Hsur. destruct Hsur as [Hs | Hs].
      - apply N.leb_gt in Hs. div_lia.
      - apply N.leb_gt in Hs. div_lia. }
    cbn [app utf8_decode_ignore]. cbv zeta.
    rewrite !to_N_byte_of_N by div_lia.
    replace (224 + c / 4096 <? 128)%N with false by (symmetry; apply N.ltb_ge; div_lia).
    replace (224 + c / 4096 <? 194)%N with false by (symmetry; apply N.ltb_ge; div_lia).
    replace (224 + c / 4096 <? 224)%N with false by (symmetry; apply N.ltb_ge; div_lia).
    replace (224 + c / 4096 <? 240)%N with true by (symmetry; apply N.ltb_lt; div_lia).
    unfold second_of_three, is_continuation.
    replace (128 <=? 128 + (c / 64) mod 64)%N with true
      by (symmetry; apply N.leb_le; div_lia).
    replace (128 + (c / 64) mod 64 <? 192)%N with true
      by (symmetry; apply N.ltb_lt; div_lia).
    replace (128 <=? 128 + c mod 64)%N with true by (symmetry; apply N.leb_le; div_lia).
    replace (128 + c mod 64 <? 192)%N with true by (symmetry; apply N.ltb_lt; div_lia).
    assert (Hsecond :
      (if (128 + (c / 64) mod 64 <? 160)%N
       then (224 + c / 4096 =? 224)%N else (224 + c / 4096 =? 237)%N) = false).
    { destruct (128 + (c / 64) mod 64 <? 160)%N eqn:Hlow.
      - apply N.ltb_lt in Hlow. apply N.eqb_neq. div_lia.
      - apply N.ltb_ge in Hlow. apply N.eqb_neq. div_lia. }
    rewrite Hsecond. cbn [andb negb]. f_equal. div_lia. }
  apply N.ltb_ge in H3.
  destruct (c <? 1114112)%N eqn:H4; [|discriminate].
  apply N.ltb_lt in H4. apply Some_eq in H; subst bs.
  cbn [app utf8_decode_ignore]. cbv zeta.
  rewrite !to_N_byte_of_N by div_lia.
  replace (240 + c / 262144 <? 128)%N with false by (symmetry; apply N.ltb_ge; div_lia).
  replace (240 + c / 262144 <? 194)%N with false by (symmetry; apply N.ltb_ge; div_lia).
  replace (240 + c / 262144 <? 224)%N with false by (symmetry; apply N.ltb_ge; div_lia).
  replace (240 + c / 262144 <? 240)%N with false by (symmetry; apply N.ltb_ge; div_lia).
  replace (240 + c / 262144 <? 245)%N with true by (symmetry; apply N.ltb_lt; div_lia).
  unfold second_of_four, is_continuation.
  replace (128 <=? 128 + (c / 4096) mod 64)%N with true
    by (symmetry; apply N.leb_le; div_lia).
  replace (128 + (c / 4096) mod 64 <? 192)%N with true
    by (symmetry; apply N.ltb_lt; div_lia).
  replace (128 <=? 128 + (c / 64) mod 64)%N with true
    by (symmetry; apply N.leb_le; div_lia).
  replace (128 + (c / 64) mod 64 <? 192)%N with true
    by (symmetry; apply N.ltb_lt; div_lia).
  replace (128 <=? 128 + c mod 64)%N with true by (symmetry; apply N.leb_le; div_lia).
  replace (128 + c mod 64 <? 192)%N with true by (symmetry; apply N.ltb_lt; div_lia).
  assert (Hsecond :
    (if (128 + (c / 4096) mod 64 <? 144)%N
     then (240 + c / 262144 =? 240)%N else (240 + c / 262144 =? 244)%N) = false).
  { destruct (128 + (c / 4096) mod 64 <? 144)%N eqn:Hlow.
    - apply N.ltb_lt in Hlow. apply N.eqb_neq. div_lia.
    - apply N.ltb_ge in Hlow. apply N.eqb_neq. div_lia. }
  rewrite Hsecond. cbn [andb negb]. f_equal. div_lia.
Qed.

Lemma utf8_decode_encode (s : str) (data : bytes) :
  utf8_encode s = Some data -> utf8_decode_ignore data = s.
Proof.
  revert data. induction s as [|c s IH]; intros data H.
  - injection H as <-. reflexivity.
  - cbn [utf8_encode] in H.
    destruct (utf8_encode_cp c) as [bs|] eqn:Hc; [|discriminate].
    destruct (utf8_encode s) as [rest|] eqn:Hs; [|discriminate].
    injection H as <-.
    rewrite (utf8_decode_encode_cp c bs rest Hc), (IH rest eq_refl). reflexivity.
Qed.

(** Bytes the decoder drops, as CPython does: a byte that starts no
    sequence, a sequence broken by a 7-bit byte, a sequence cut short by
    the end of the payload; and a sequence of two bytes that is kept. *)
Lemma utf8_decode_ignore_examples :
  utf8_decode_ignore [xff] = [] /\
  utf8_decode_ignore (blit "Al" ++ [xff]) = lit "Al" /\
  utf8_decode_ignore ([xe2; x82] ++ blit "A") = lit "A" /\
  utf8_decode_ignore (blit "A" ++ [xe2; x82]) = lit "A" /\
  utf8_decode_ignore (blit "Zo" ++ [xc3; xa9]) = lit "Zo" ++ [233%N] /\
  utf8_decode_ignore [xed; xa0; x80] = [] /\
  utf8_decode_ignore [xc0; x80] = [].
Proof. repeat split; reflexivity. Qed.

Lemma not_valid_utf8_xff : ~ valid_utf8 [xff].
Proof.
  intros [s Hs]. pose proof (utf8_decode_encode s [xff] Hs) as Hd.
  cbn in Hd. subst s. discriminate Hs.
Qed.

(** C6, as stated, fails.  A CONNECT frame with sequence number 1
    whose payload is the one byte [0xFF] comes from the peer
    [('127.0.0.1', 4001)].  The payload is no UTF-8, so decoding it
    fails; yet the connection is registered under the empty name, which
    is what the decoder leaves of the payload, and not under the string
    of the address. *)
Lemma connect_undecodable_keeps_no_address :
  exists w',
    loop_body calm 1 (localhost 4001) world_connect_undecodable = (Ret Continue, w') /\
    ~ valid_utf8 [xff] /\
    dict_get 1 (clients w') = Some (Info [] (localhost 4001)) /\
    str_of_addr calm (localhost 4001) = lit "('127.0.0.1', 4001)" /\
    ~ claimed_connect_name calm (localhost 4001) [xff] [].
Proof.
  eexists. split; [vm_compute; reflexivity|].
  split; [exact not_valid_utf8_xff|].
  split; [reflexivity|].
  split; [reflexivity|].
  intros [_ Hfallback]. specialize (Hfallback not_valid_utf8_xff).
  discriminate Hfallback.
Qed.

(** C6. CONNECT handling, as the code has it.  When a pass of the loop
    reads a CONNECT frame, the display name is the payload decoded as
    UTF-8 with the bytes that do not decode left out; the decoder never
    raises, so the string of the peer address never stands in for the
    name.  The connection is registered under that name with its
    address, and the server answers on the same socket with one ACK
    frame that carries the sequence number of the request and the
    payload [CONNECTED]. *)
Theorem connect_registers_and_acks
  (E : Env) (c : conn) (a : addr) (w w1 : world) (f : frame) :
  read_frame c w = (Ret (Got f), w1) ->
  ftype f = TYPE_CONNECT ->
  exists ack w',
    build_header VERSION TYPE_ACK (fseq f) (len (blit "CONNECTED")) = Some ack /\
    parse_header (ack ++ blit "CONNECTED") = Some (VERSION, TYPE_ACK, fseq f, 9) /\
    loop_body E c a w = (Ret Continue, w') /\
    clients w' =
      dict_set c (Info (decode_utf8_ignore E (fpayload f)) a) (clients w) /\
    dict_get c (clients w') =
      Some (Info (decode_utf8_ignore E (fpayload f)) a) /\
    trace w' =
      trace w ++ [EvAcquire; EvRelease;
                  EvSendall c (ack ++ blit "CONNECTED") (send_ok E (ticks w) c)].
Proof.
  intros Hread Htype.
  destruct (loop_body_got E c a _ _ _ Hread) as (-> & Hf & Hc & Htr & Htk).
  destruct Hf as (_ & _ & Hs & _).
  destruct (build_header VERSION TYPE_ACK (fseq f) (len (blit "CONNECTED")))
    as [ack|] eqn:Hack.
  2:{ assert (Hlen : len (blit "CONNECTED") = 9) by reflexivity.
      rewrite build_header_in_range in Hack;
        unfold VERSION, TYPE_ACK; try rewrite Hlen; try lia. discriminate. }
  exists ack. eexists. split; [reflexivity|].
  split; [apply parse_build_header; exact Hack|].
  rewrite (dispatch_connect E c a f Htype).
  unfold bind at 1. unfold with_lock, get_clients, put_clients, bind at 1. simpl.
  unfold bind at 1. rewrite (send_ack_run E c (fseq f) (blit "CONNECTED") ack _ Hack).
  split; [reflexivity|]. simpl. rewrite Hc, Htr, Htk.
  split; [reflexivity|].
  split; [apply dict_get_set|].
  rewrite <- !app_assoc. reflexivity.
Qed.

Lemma connect_example :
  exists ack w',
    build_header VERSION TYPE_ACK 1 (len (blit "CONNECTED")) = Some ack /\
    parse_header (ack ++ blit "CONNECTED") = Some (VERSION, TYPE_ACK, 1, 9) /\
    loop_body calm 1 (localhost 4001) world_connect = (Ret Continue, w') /\
    clients w' = dict_set 1 (Info (lit "Alice") (localhost 4001)) (clients world_connect) /\
    dict_get 1 (clients w') = Some (Info (lit "Alice") (localhost 4001)) /\
    trace w' =
      trace world_connect ++ [EvAcquire; EvRelease;
                              EvSendall 1 (ack ++ blit "CONNECTED") true].
Proof.
  apply (connect_registers_and_acks calm 1 (localhost 4001) world_connect
           (snd (read_frame 1 world_connect))
           (Frame 1 TYPE_CONNECT 1 5 (blit "Alice"))).
  - vm_compute. reflexivity.
  - reflexivity.
Defined.

(** C2. MSG broadcast.  When a pass of the loop for connection [c]
    reads a MSG frame, the server rebuilds a header with the version,
    type, sequence number and length of the frame read, and writes that
    header followed by the payload read (together, the very bytes of the
    frame as it came in), in registry order, to every
    connection other than [c] that is registered at that moment: each of
    them is written to (and gets the frame, if its transport accepts
    writes), whether or not the writes to the others fail.  Nothing of
    the fan-out is written to [c]; after the fan-out, [c] is sent one ACK
    frame with the sequence number of the request and the payload
    [MSG_RECEIVED]. *)
Theorem msg_broadcast
  (E : Env) (c : conn) (a : addr) (w w1 : world) (f : frame) :
  read_frame c w = (Ret (Got f), w1) ->
  ftype f = TYPE_MSG ->
  exists header ack w',
    build_header (fversion f) TYPE_MSG (fseq f) (flength f) = Some header /\
    parse_header (header ++ fpayload f) =
      Some (fversion f, ftype f, fseq f, flength f) /\
    len (fpayload f) = flength f /\
    header ++ fpayload f = firstn (8 + length (fpayload f)) (pending (rx w c)) /\
    build_header VERSION TYPE_ACK (fseq f) (len (blit "MSG_RECEIVED")) = Some ack /\
    parse_header (ack ++ blit "MSG_RECEIVED") = Some (VERSION, TYPE_ACK, fseq f, 12) /\
    loop_body E c a w = (Ret Continue, w') /\
    clients w' = clients w /\
    trace w' =
      trace w ++ [EvAcquire; EvRelease]
        ++ fanout E (ticks w) (snapshot_except c (clients w)) (header ++ fpayload f)
        ++ [EvSendall c (ack ++ blit "MSG_RECEIVED")
              (send_ok E (ticks w + length (snapshot_except c (clients w))) c)] /\
    (forall s, In s (keys (clients w)) -> s <> c ->
       exists ok,
         In (EvSendall s (header ++ fpayload f) ok)
            (fanout E (ticks w) (snapshot_except c (clients w)) (header ++ fpayload f)) /\
         ((forall n, send_ok E n s = true) -> ok = true)) /\
    (forall data ok,
       ~ In (EvSendall c data ok)
            (fanout E (ticks w) (snapshot_except c (clients w)) (header ++ fpayload f))).
Proof.
  intros Hread Htype.
  destruct (loop_body_got E c a _ _ _ Hread) as (-> & Hf & Hc & Htr & Htk).
  destruct Hf as (Hv & _ & Hs & Hl & Hlen).
  destruct (build_header (fversion f) TYPE_MSG (fseq f) (flength f))
    as [header|] eqn:Hhdr.
  2:{ rewrite build_header_in_range in Hhdr; unfold TYPE_MSG; try lia. discriminate. }
  destruct (build_header VERSION TYPE_ACK (fseq f) (len (blit "MSG_RECEIVED")))
    as [ack|] eqn:Hack.
  2:{ assert (Hlen' : len (blit "MSG_RECEIVED") = 12) by reflexivity.
      rewrite build_header_in_range in Hack;
        unfold VERSION, TYPE_ACK; try rewrite Hlen'; try lia. discriminate. }
  exists header, ack. eexists.
  split; [reflexivity|].
  split; [rewrite Htype; apply parse_build_header; exact Hhdr|].
  split; [exact Hlen|].
  split.
  { destruct (read_frame_got_bytes _ _ _ _ Hread) as [Hp Hb].
    rewrite Htype in Hp. apply build_parse_header in Hp.
    rewrite firstn_firstn in Hp. simpl Nat.min in Hp.
    rewrite <- Hb. congruence. }
  split; [reflexivity|].
  split; [apply parse_build_header; exact Hack|].
  rewrite (dispatch_msg E c a f Htype).
  unfold bind at 1. rewrite Hhdr. unfold lift_option at 1. unfold ret at 1.
  cbv beta iota.
  unfold bind at 1. rewrite broadcast_run.
  unfold bind at 1.
  rewrite (send_ack_run E c (fseq f) (blit "MSG_RECEIVED") ack _ Hack).
  split; [reflexivity|]. simpl. rewrite Hc, Htr, Htk.
  split; [reflexivity|].
  split; [rewrite <- !app_assoc; reflexivity|].
  split.
  - intros s Hin Hneq. apply in_fanout. apply in_snapshot_except. auto.
  - intros data ok Hin. apply fanout_in in Hin. destruct Hin as [Hin _].
    apply in_snapshot_except in Hin. destruct Hin as [_ Hneq]. apply Hneq. reflexivity.
Qed.

Lemma msg_broadcast_example :
  exists header ack w',
    build_header 1 TYPE_MSG 5 2 = Some header /\
    parse_header (header ++ blit "hi") = Some (1, TYPE_MSG, 5, 2) /\
    len (blit "hi") = 2 /\
    header ++ blit "hi" = firstn 10 (pending (rx world_msg 1)) /\
    build_header VERSION TYPE_ACK 5 (len (blit "MSG_RECEIVED")) = Some ack /\
    parse_header (ack ++ blit "MSG_RECEIVED") = Some (VERSION, TYPE_ACK, 5, 12) /\
    loop_body calm 1 (localhost 4001) world_msg = (Ret Continue, w') /\
    clients w' = clients world_msg /\
    trace w' =
      trace world_msg ++ [EvAcquire; EvRelease]
        ++ fanout calm 0 [2; 3]%nat (header ++ blit "hi")
        ++ [EvSendall 1 (ack ++ blit "MSG_RECEIVED") true] /\
    (forall s, In s [1; 2; 3]%nat -> s <> 1%nat ->
       exists ok,
         In (EvSendall s (header ++ blit "hi") ok)
            (fanout calm 0 [2; 3]%nat (header ++ blit "hi")) /\
         ((forall n, send_ok calm n s = true) -> ok = true)) /\
    (forall data ok,
       ~ In (EvSendall 1 data ok) (fanout calm 0 [2; 3]%nat (header ++ blit "hi"))).
Proof.
  apply (msg_broadcast calm 1 (localhost 4001) world_msg
           (snd (read_frame 1 world_msg))
           (Frame 1 TYPE_MSG 5 2 (blit "hi"))).
  - vm_compute. reflexivity.
  - reflexivity.
Defined.

(** C4, as stated, fails.  Socket 2 registers with an empty name and
    socket 1 as "a"; socket 1 then asks for the list.  The reply carries
    the payload "a", which is no joining of the two registered names ("a"
    and the empty name) in any order: such a joining has a separator. *)
Lemma list_reply_leaves_out_empty_names :
  map name (values (clients world_anonymous_registered)) = [[]; lit "a"] /\
  trace (snd (loop_body calm 1 (localhost 4001) world_anonymous_registered)) =
    trace world_anonymous_registered
      ++ [EvAcquire; EvRelease; EvSendall 1 (encode VERSION TYPE_LIST 2 (blit "a")) true] /\
  ~ list_payload_of_all_names (clients world_anonymous_registered) (blit "a").
Proof.
  split; [reflexivity|]. split; [reflexivity|].
  intros (order & Hperm & Henc).
  change (map name (values (clients world_anonymous_registered)))
    with [@nil codepoint; lit "a"] in Hperm.
  apply Permutation_sym, Permutation_length_2_inv in Hperm.
  destruct Hperm as [-> | ->]; vm_compute in Henc; discriminate.
Qed.

(** C4, amended.  When a pass of the loop reads a LIST frame, and the
    non-empty display names of the registered connections, taken in
    registry order and joined with [;], encode to fewer than 2^32
    bytes, the server answers on the same socket with one frame of type
    LIST (not an ACK) that carries the sequence number of the request
    and has that encoding as its payload: every registered connection
    with a non-empty name appears once, those with an empty name do not
    appear.  The registry is unchanged. *)
Theorem list_reply
  (E : Env) (c : conn) (a : addr) (w w1 : world) (f : frame) (payload : bytes) :
  read_frame c w = (Ret (Got f), w1) ->
  ftype f = TYPE_LIST ->
  utf8_encode (str_join (lit ";") (filter truthy (map name (values (clients w)))))
    = Some payload ->
  len payload < 2 ^ 32 ->
  exists hdr w',
    build_header VERSION TYPE_LIST (fseq f) (len payload) = Some hdr /\
    parse_header (hdr ++ payload) = Some (VERSION, TYPE_LIST, fseq f, len payload) /\
    loop_body E c a w =
      (if send_ok E (ticks w) c then Ret Continue else Raise OSError, w') /\
    clients w' = clients w /\
    trace w' =
      trace w ++ [EvAcquire; EvRelease;
                  EvSendall c (hdr ++ payload) (send_ok E (ticks w) c)].
Proof.
  intros Hread Htype Henc Hsize.
  destruct (loop_body_got E c a _ _ _ Hread) as (-> & Hf & Hc & Htr & Htk).
  destruct Hf as (_ & _ & Hs & _).
  assert (H0 : 0 <= len payload) by (unfold len; lia).
  destruct (build_header VERSION TYPE_LIST (fseq f) (len payload)) as [hdr|] eqn:Hhdr.
  2:{ rewrite build_header_in_range in Hhdr; unfold VERSION, TYPE_LIST; try lia.
      discriminate. }
  exists hdr.
  exists (tick (emit (EvSendall c (hdr ++ payload) (send_ok E (ticks w) c))
                  (emit EvRelease (emit EvAcquire w1)))).
  split; [reflexivity|].
  split; [apply parse_build_header; exact Hhdr|].
  rewrite (dispatch_list E c a f Htype).
  unfold bind at 1. unfold with_lock, get_clients, bind at 1. unfold ret at 1.
  cbv beta iota.
  unfold bind at 1. cbn [clients emit].
  rewrite Hc, list_names_filter, Henc. unfold lift_option at 1. unfold ret at 1.
  cbv beta iota.
  unfold bind at 1. rewrite Hhdr. unfold lift_option at 1. unfold ret at 1.
  cbv beta iota.
  unfold bind, sendall, ret. cbn [ticks emit clients trace].
  rewrite Htk.
  destruct (send_ok E (ticks w) c);
    (split; [reflexivity|]); cbn [clients trace tick emit];
    rewrite Hc, Htr, <- !app_assoc; split; reflexivity.
Qed.

Lemma list_reply_example :
  exists hdr w',
    build_header VERSION TYPE_LIST 7 (len (blit "Alice;Bob")) = Some hdr /\
    parse_header (hdr ++ blit "Alice;Bob") =
      Some (VERSION, TYPE_LIST, 7, len (blit "Alice;Bob")) /\
    loop_body calm 1 (localhost 4001) world_list = (Ret Continue, w') /\
    clients w' = clients world_list /\
    trace w' =
      trace world_list ++ [EvAcquire; EvRelease; EvSendall 1 (hdr ++ blit "Alice;Bob") true].
Proof.
  apply (list_reply calm 1 (localhost 4001) world_list
           (snd (read_frame 1 world_list))
           (Frame 1 TYPE_LIST 7 0 []) (blit "Alice;Bob")).
  - vm_compute. reflexivity.
  - reflexivity.
  - reflexivity.
  - reflexivity.
Defined.

(** ** The sequence numbers of the client *)

Lemma client_sendall_keeps_counter (E : Client.Env) (data : bytes) (w : Client.world) :
  Client.seq (snd (Client.sendall E data w)) = Client.seq w.
Proof. reflexivity. Qed.

(** Whatever [send_file] sends, the variable [seq] of [main] is as it
    was: the chunks are numbered with a counter of [send_file]'s own. *)
Lemma send_file_loop_keeps_counter (E : Client.Env) (chunk_size : nat) :
  forall (fuel : nat) (f : bytes) (s : Z) (w : Client.world),
    Client.seq (snd (Client.send_file_loop E fuel f s chunk_size w)) = Client.seq w.
Proof.
  induction fuel as [|fuel IH]; intros f s w; [reflexivity|].
  cbn [Client.send_file_loop].
  destruct (firstn chunk_size f) as [|b chunk]; [reflexivity|].
  unfold bind at 1.
  destruct (build_header VERSION TYPE_FILE s (len (b :: chunk))) as [hdr|];
    [|reflexivity].
  cbn [lift_option ret]. unfold bind at 1. unfold Client.sendall at 1.
  destruct (Client.send_ok E (Client.ticks w)); [|reflexivity].
  rewrite IH. reflexivity.
Qed.

Lemma send_file_keeps_counter
  (E : Client.Env) (path : str) (s : Z) (chunk_size : nat) (w : Client.world) :
  Client.seq (snd (Client.send_file E path s chunk_size w)) = Client.seq w.
Proof.
  unfold Client.send_file. destruct (Client.file_bytes E path); [|reflexivity].
  apply send_file_loop_keeps_counter.
Qed.

(** C5 does not hold of [main].  A client named Bob sends a file of
    5000 bytes with [/sendfile] and then the line "hi".  The frames
    that leave are CONNECT with sequence number 1, FILE with 2, FILE
    with 3 and MSG with 3 again: after [/sendfile] the counter of
    [main] has moved by one, whatever the number of chunks, so the MSG
    repeats the number of the second chunk. *)
Theorem client_sendfile_repeats_sequence_number :
  Client.sent_frames
    (Client.trace (snd (Client.main two_chunk_file 3 (lit "Bob") session_sendfile)))
  = [Some (TYPE_CONNECT, 1); Some (TYPE_FILE, 2); Some (TYPE_FILE, 3); Some (TYPE_MSG, 3)].
Proof. vm_compute. reflexivity. Qed.

(** ** The ways out of the loop, run *)

(** DISCONNECT: the ACK [BYE], then the cleanup (scenario 5); a LIST
    from Bob afterwards names Bob alone. *)
Example exit_by_disconnect :
  let w' := snd (handle_client calm 20 1 (localhost 4001) world_disconnect) in
  clients w' = [(2%nat, bob)] /\
  trace w' = [EvSendall 1 (encode VERSION TYPE_ACK 9 (blit "BYE")) true;
              EvAcquire; EvRelease; EvClose 1] /\
  trace (snd (loop_body calm 2 (localhost 4002) w')) =
    trace w' ++ [EvAcquire; EvRelease;
                 EvSendall 2 (encode VERSION TYPE_LIST 4 (blit "Bob")) true].
Proof. vm_compute. repeat split; reflexivity. Qed.

(** The peer closes between two frames. *)
Example exit_by_close :
  let w' := snd (handle_client calm 1 1 (localhost 4001) world_closed) in
  clients w' = [(2%nat, bob)] /\ trace w' = [EvAcquire; EvRelease; EvClose 1].
Proof. vm_compute. split; reflexivity. Qed.

(** The peer closes inside a payload (scenario 4): nothing is passed on
    to Bob. *)
Example exit_by_truncation :
  let w' := snd (handle_client calm 60 1 (localhost 4001) world_truncated) in
  clients w' = [(2%nat, bob)] /\ trace w' = [EvAcquire; EvRelease; EvClose 1].
Proof. vm_compute. split; reflexivity. Qed.

(** An exception inside the loop: the write of a LIST reply fails, or
    the connection is reset. *)
Example exit_by_exception :
  let w' := snd (handle_client stormy 20 1 (localhost 4001) world_list) in
  fst (handle_client stormy 20 1 (localhost 4001) world_list) = Ret tt /\
  clients w' = [(2%nat, bob)] /\
  trace w' = [EvAcquire; EvRelease;
              EvSendall 1 (encode VERSION TYPE_LIST 7 (blit "Alice;Bob")) false;
              EvAcquire; EvRelease; EvClose 1].
Proof. vm_compute. repeat split; reflexivity. Qed.

Example exit_by_reset :
  let w' := snd (handle_client calm 20 1 (localhost 4001) world_reset) in
  fst (handle_client calm 20 1 (localhost 4001) world_reset) = Ret tt /\
  clients w' = [(2%nat, bob)] /\ trace w' = [EvAcquire; EvRelease; EvClose 1].
Proof. vm_compute. repeat split; reflexivity. Qed.

(** Scenario 2, run: Bob and Carol get the frame of Alice, byte for
    byte as it came in; Alice gets the ACK only. *)
Example msg_scenario :
  trace (snd (loop_body calm 1 (localhost 4001) world_msg)) =
    [EvAcquire; EvRelease;
     EvSendall 2 (encode 1 TYPE_MSG 5 (blit "hi")) true;
     EvSendall 3 (encode 1 TYPE_MSG 5 (blit "hi")) true;
     EvSendall 1 (encode VERSION TYPE_ACK 5 (blit "MSG_RECEIVED")) true].
Proof. vm_compute. reflexivity. Qed.

(** With every write failing, the fan-out still tries every recipient
    and the pass goes on. *)
Example msg_scenario_writes_fail :
  loop_body stormy 1 (localhost 4001) world_msg =
    (Ret Continue, snd (loop_body stormy 1 (localhost 4001) world_msg)) /\
  trace (snd (loop_body stormy 1 (localhost 4001) world_msg)) =
    [EvAcquire; EvRelease;
     EvSendall 2 (encode 1 TYPE_MSG 5 (blit "hi")) false;
     EvSendall 3 (encode 1 TYPE_MSG 5 (blit "hi")) false;
     EvSendall 1 (encode VERSION TYPE_ACK 5 (blit "MSG_RECEIVED")) false].
Proof. vm_compute. split; reflexivity. Qed.

(* ================================================================= *)
(** * Further properties of the code *)

(** ** Codec: bounds and the other round trip *)

(** X1. [parse_header] raises [ValueError] exactly on fewer than eight
    bytes; on eight bytes or more it always gives four fields. *)
Theorem parse_header_short_iff (data : bytes) :
  parse_header data = None <-> (length data < 8)%nat.
Proof.
  split.
  - intros H. destruct (Nat.lt_ge_cases (length data) 8) as [Hlt | Hge]; [exact Hlt|].
    exfalso. revert H. apply parse_header_total. exact Hge.
  - intros H. unfold parse_header, HEADER_SIZE.
    apply Nat.ltb_lt in H. rewrite H. reflexivity.
Qed.

(** X2. [build_header] gives a header exactly when every field fits:
    version and type in one byte, the sequence number in two, the length
    in four; otherwise [struct.pack] raises. *)
Theorem build_header_defined_iff (v t s l : Z) :
  (exists hdr, build_header v t s l = Some hdr) <->
  (0 <= v < 256 /\ 0 <= t < 256 /\ 0 <= s < 65536 /\ 0 <= l < 2 ^ 32).
Proof.
  split.
  - intros [hdr H]. apply build_header_some in H. tauto.
  - intros (Hv & Ht & Hs & Hl). eexists. apply build_header_in_range; assumption.
Qed.

(** X3. Decoding then encoding: the fields [parse_header] reads from
    [data], given to [build_header], give the first eight bytes of
    [data] back. *)
Theorem header_bytes_round_trip (data : bytes) (v t s l : Z) :
  parse_header data = Some (v, t, s, l) ->
  build_header v t s l = Some (firstn 8 data).
Proof. apply build_parse_header. Qed.

Lemma header_bytes_round_trip_example :
  build_header 1 TYPE_MSG 5 2 = Some (firstn 8 (encode 1 TYPE_MSG 5 (blit "hi"))).
Proof.
  apply (header_bytes_round_trip (encode 1 TYPE_MSG 5 (blit "hi")) 1 TYPE_MSG 5 2).
  reflexivity.
Defined.

(** ** The exact-length reader, as its callers see it *)

(** X4. When [recv_all(sock, n)] returns bytes, they are exactly [n],
    they are the first pending bytes of the stream, the bytes after them
    are still pending, and nothing but the queue of [sock] has changed. *)
Theorem recv_all_exact (sock : conn) (n : nat) (w w' : world) (data : bytes) :
  recv_all sock n w = (Ret (Some data), w') ->
  length data = n /\
  pending (rx w sock) = data ++ pending (rx w' sock) /\
  same_but_rx sock w w'.
Proof.
  intros H. destruct (recv_all_spec sock n w) as (w1 & Hsame & Hspec).
  destruct (n <=? length (pending (rx w sock)))%nat eqn:Hn.
  - apply Nat.leb_le in Hn. destruct Hspec as (Hr & Hp & _).
    rewrite H in Hr. injection Hr as -> ->.
    split; [rewrite length_firstn; lia|].
    split; [rewrite Hp; symmetry; apply firstn_skipn | exact Hsame].
  - destruct (closes (rx w sock)); rewrite H in Hspec; discriminate.
Qed.

Lemma recv_all_exact_example :
  length (firstn 8 (encode 1 TYPE_MSG 5 (blit "hi"))) = 8%nat /\
  pending (rx world_msg 1) =
    firstn 8 (encode 1 TYPE_MSG 5 (blit "hi"))
      ++ pending (rx (snd (recv_all 1 8 world_msg)) 1) /\
  same_but_rx 1 world_msg (snd (recv_all 1 8 world_msg)).
Proof.
  apply (recv_all_exact 1 8 world_msg (snd (recv_all 1 8 world_msg))
           (firstn 8 (encode 1 TYPE_MSG 5 (blit "hi")))).
  vm_compute. reflexivity.
Defined.

(** X5. The three outcomes of [recv_all(sock, n)] are told apart by the
    stream alone: bytes when at least [n] are pending; [None] when fewer
    are pending and the stream then closes; [ConnectionResetError] when
    fewer are pending and the stream then resets.  The loop bound of
    the model is never reached. *)
Theorem recv_all_outcome (sock : conn) (n : nat) (w : world) :
  ((exists data, fst (recv_all sock n w) = Ret (Some data)) <->
     (n <= length (pending (rx w sock)))%nat) /\
  (fst (recv_all sock n w) = Ret None <->
     (length (pending (rx w sock)) < n)%nat /\ closes (rx w sock) = true) /\
  (fst (recv_all sock n w) = Raise ConnectionResetError <->
     (length (pending (rx w sock)) < n)%nat /\ closes (rx w sock) = false) /\
  fst (recv_all sock n w) <> OutOfFuel.
Proof.
  destruct (recv_all_spec sock n w) as (w1 & _ & Hspec).
  destruct (n <=? length (pending (rx w sock)))%nat eqn:Hn.
  - apply Nat.leb_le in Hn. destruct Hspec as (-> & _). simpl.
    repeat split; try (intros; eauto; fail); try discriminate;
      try (intros [? ?]; lia).
  - apply Nat.leb_gt in Hn.
    destruct (closes (rx w sock)) eqn:Hc; rewrite Hspec; simpl;
      repeat split; try discriminate; try (intros [? ?]; discriminate);
      try (intros [? ?]; lia); try lia; try (intros; lia); auto;
      try (intros [data Hd]; discriminate).
Qed.

Lemma spec_reading_by_stream (q1 q2 : list segment) :
  pending q1 = pending q2 -> closes q1 = closes q2 ->
  spec_reading q1 = spec_reading q2.
Proof. intros Hp Hc. unfold spec_reading. rewrite Hp, Hc. reflexivity. Qed.

(** X6. What a pass reads does not depend on how the stream is cut
    into segments: two worlds whose streams deliver the same bytes and
    end the same way yield the same frame, or the same loss. *)
Theorem read_frame_segmentation (c : conn) (w1 w2 : world) :
  pending (rx w1 c) = pending (rx w2 c) ->
  closes (rx w1 c) = closes (rx w2 c) ->
  fst (read_frame c w1) = fst (read_frame c w2).
Proof.
  intros Hp Hc.
  destruct (read_frame_spec c w1) as (w1' & _ & -> & _).
  destruct (read_frame_spec c w2) as (w2' & _ & -> & _).
  simpl. rewrite (spec_reading_by_stream _ _ Hp Hc). reflexivity.
Qed.

Lemma read_frame_segmentation_example :
  fst (read_frame 1 world_msg_one_segment) = fst (read_frame 1 world_msg_bytewise).
Proof.
  apply (read_frame_segmentation 1 world_msg_one_segment world_msg_bytewise);
    reflexivity.
Defined.

(** ** Text of 7 bits *)

Lemma is_ascii_app (s1 s2 : str) :
  is_ascii (s1 ++ s2) = is_ascii s1 && is_ascii s2.
Proof. apply forallb_app. Qed.

Lemma utf8_encode_ascii (s : str) :
  is_ascii s = true -> utf8_encode s = Some (map byte_of_N s).
Proof.
  induction s as [|c s IH]; simpl; [reflexivity|].
  intros H. apply andb_true_iff in H. destruct H as [Hc Hs].
  rewrite (IH Hs). unfold utf8_encode_cp. rewrite Hc. reflexivity.
Qed.

Lemma is_ascii_string_of_uint (d : Decimal.uint) :
  is_ascii (lit (NilEmpty.string_of_uint d)) = true.
Proof. induction d; simpl; auto. Qed.

Lemma is_ascii_nilzero_uint (d : Decimal.uint) :
  is_ascii (lit (NilZero.string_of_uint d)) = true.
Proof.
  unfold NilZero.string_of_uint.
  destruct d; try reflexivity; apply is_ascii_string_of_uint.
Qed.

Lemma is_ascii_str_of_int (n : Z) : is_ascii (str_of_int n) = true.
Proof.
  unfold str_of_int, NilZero.string_of_int.
  destruct (Z.to_int n) as [d | d].
  - apply is_ascii_nilzero_uint.
  - change (is_ascii (45%N :: lit (NilZero.string_of_uint d)) = true).
    simpl. apply is_ascii_nilzero_uint.
Qed.

(** ** The other branches of [dispatch] *)

Lemma dispatch_file (E : Env) (c : conn) (a : addr) (f : frame) :
  ftype f = TYPE_FILE ->
  dispatch E c a f =
  (t <- now E ;;
   append_file E (recv_file_name t (fseq f)) (fpayload f) ;;
   msg <- lift_option UnicodeEncodeError
            (utf8_encode (lit "FILE_SAVED:" ++ recv_file_name t (fseq f))) ;;
   send_ack E c (fseq f) msg ;;
   ret Continue).
Proof. intros H. unfold dispatch. rewrite H. reflexivity. Qed.

Lemma dispatch_other (E : Env) (c : conn) (a : addr) (f : frame) :
  ftype f <> TYPE_CONNECT -> ftype f <> TYPE_MSG -> ftype f <> TYPE_LIST ->
  ftype f <> TYPE_FILE -> ftype f <> TYPE_DISCONNECT ->
  dispatch E c a f = ret Continue.
Proof.
  intros H1 H2 H3 H4 H6. unfold dispatch.
  apply Z.eqb_neq in H1, H2, H3, H4, H6. rewrite H1, H2, H3, H4, H6.
  destruct (ftype f =? TYPE_ACK); reflexivity.
Qed.

Lemma is_ascii_saved_name (t s : Z) :
  is_ascii (lit "FILE_SAVED:" ++ recv_file_name t s) = true.
Proof.
  unfold recv_file_name. rewrite !is_ascii_app, !is_ascii_str_of_int. reflexivity.
Qed.

(** X7. FILE handling.  When a pass reads a FILE frame and the file
    named after the clock and the sequence number can be opened, the
    payload is appended to that file and the sender gets one ACK with
    the sequence number of the request and the payload [FILE_SAVED:]
    followed by the file name; the registry is not touched and nothing
    is passed on to other connections. *)
Theorem file_saved_and_acked
  (E : Env) (c : conn) (a : addr) (w w1 : world) (f : frame) :
  read_frame c w = (Ret (Got f), w1) ->
  ftype f = TYPE_FILE ->
  open_ok E (S (ticks w)) (recv_file_name (time_of E (ticks w)) (fseq f)) = true ->
  len (lit "FILE_SAVED:" ++ recv_file_name (time_of E (ticks w)) (fseq f)) < 2 ^ 32 ->
  exists ack w',
    build_header VERSION TYPE_ACK (fseq f)
      (len (lit "FILE_SAVED:" ++ recv_file_name (time_of E (ticks w)) (fseq f)))
      = Some ack /\
    loop_body E c a w = (Ret Continue, w') /\
    clients w' = clients w /\
    trace w' =
      trace w ++
        [EvAppend (recv_file_name (time_of E (ticks w)) (fseq f)) (fpayload f);
         EvSendall c
           (ack ++ map byte_of_N
                     (lit "FILE_SAVED:" ++ recv_file_name (time_of E (ticks w)) (fseq f)))
           (send_ok E (S (S (ticks w))) c)].
Proof.
  intros Hread Htype Hopen Hsize.
  destruct (loop_body_got E c a _ _ _ Hread) as (-> & Hf & Hc & Htr & Htk).
  destruct Hf as (_ & _ & Hs & _).
  set (fname := recv_file_name (time_of E (ticks w)) (fseq f)) in *.
  set (text := lit "FILE_SAVED:" ++ fname) in *.
  assert (H0 : 0 <= len text) by (unfold len; lia).
  destruct (build_header VERSION TYPE_ACK (fseq f) (len text)) as [ack|] eqn:Hack.
  2:{ rewrite build_header_in_range in Hack; unfold VERSION, TYPE_ACK; try lia.
      discriminate. }
  assert (Hack' : build_header VERSION TYPE_ACK (fseq f) (len (map byte_of_N text))
                  = Some ack).
  { unfold len in *. rewrite length_map. exact Hack. }
  exists ack.
  exists (tick (emit (EvSendall c (ack ++ map byte_of_N text)
                        (send_ok E (S (S (ticks w))) c))
                  (tick (emit (EvAppend fname (fpayload f)) (tick w1))))).
  split; [reflexivity|].
  rewrite (dispatch_file E c a f Htype).
  unfold bind at 1. unfold now at 1. cbv beta iota. rewrite Htk. fold fname.
  unfold bind at 1. unfold append_file at 1. cbn [ticks tick]. rewrite Htk, Hopen.
  unfold bind at 1. fold text.
  rewrite (utf8_encode_ascii text (is_ascii_saved_name _ _)).
  unfold lift_option at 1. unfold ret at 1. cbv beta iota.
  unfold bind at 1.
  rewrite (send_ack_run E c (fseq f) (map byte_of_N text) ack _ Hack').
  cbn [ticks tick emit clients trace]. rewrite Htk, Hc, Htr.
  split; [reflexivity|]. split; [reflexivity|].
  rewrite <- !app_assoc. reflexivity.
Qed.

Lemma file_saved_and_acked_example :
  exists ack w',
    build_header VERSION TYPE_ACK 8
      (len (lit "FILE_SAVED:recv_file_1700000000_8.bin")) = Some ack /\
    loop_body calm 1 (localhost 4001) world_file = (Ret Continue, w') /\
    clients w' = clients world_file /\
    trace w' =
      trace world_file ++
        [EvAppend (lit "recv_file_1700000000_8.bin") (blit "abc");
         EvSendall 1 (ack ++ blit "FILE_SAVED:recv_file_1700000000_8.bin") true].
Proof.
  apply (file_saved_and_acked calm 1 (localhost 4001) world_file
           (snd (read_frame 1 world_file)) (Frame 1 TYPE_FILE 8 3 (blit "abc"))).
  - vm_compute. reflexivity.
  - reflexivity.
  - reflexivity.
  - vm_compute. reflexivity.
Defined.

(** X8. When the file of a FILE frame cannot be opened, the pass raises
    [OSError] with nothing saved and nothing acknowledged; the exception
    ends the loop of the connection. *)
Theorem file_unwritable_raises
  (E : Env) (c : conn) (a : addr) (w w1 : world) (f : frame) :
  read_frame c w = (Ret (Got f), w1) ->
  ftype f = TYPE_FILE ->
  open_ok E (S (ticks w)) (recv_file_name (time_of E (ticks w)) (fseq f)) = false ->
  exists w',
    loop_body E c a w = (Raise OSError, w') /\
    clients w' = clients w /\ trace w' = trace w /\
    forall fuel, fst (serve_loop E (S fuel) c a w) = Raise OSError.
Proof.
  intros Hread Htype Hopen.
  destruct (loop_body_got E c a _ _ _ Hread) as (Hbody & _ & Hc & Htr & Htk).
  assert (Hrun : dispatch E c a f w1 = (Raise OSError, tick (tick w1))).
  { rewrite (dispatch_file E c a f Htype).
    unfold bind at 1. unfold now at 1. cbv beta iota. rewrite Htk.
    unfold bind at 1. unfold append_file at 1. cbn [ticks tick].
    rewrite Htk, Hopen. reflexivity. }
  exists (tick (tick w1)). rewrite Hbody, Hrun.
  split; [reflexivity|]. split; [exact Hc|]. split; [exact Htr|].
  intros fuel. cbn [serve_loop]. unfold bind. rewrite Hbody, Hrun. reflexivity.
Qed.

Lemma file_unwritable_raises_example :
  exists w',
    loop_body stormy 1 (localhost 4001) world_file = (Raise OSError, w') /\
    clients w' = clients world_file /\ trace w' = trace world_file /\
    forall fuel, fst (serve_loop stormy (S fuel) 1 (localhost 4001) world_file)
                 = Raise OSError.
Proof.
  apply (file_unwritable_raises stormy 1 (localhost 4001) world_file
           (snd (read_frame 1 world_file)) (Frame 1 TYPE_FILE 8 3 (blit "abc"))).
  - vm_compute. reflexivity.
  - reflexivity.
  - reflexivity.
Defined.

(** X9. Frames of type ACK and of any type the protocol does not know
    are read and dropped: the pass goes on, nothing is written and the
    registry is as before. *)
Theorem unknown_type_ignored
  (E : Env) (c : conn) (a : addr) (w w1 : world) (f : frame) :
  read_frame c w = (Ret (Got f), w1) ->
  ftype f <> TYPE_CONNECT -> ftype f <> TYPE_MSG -> ftype f <> TYPE_LIST ->
  ftype f <> TYPE_FILE -> ftype f <> TYPE_DISCONNECT ->
  loop_body E c a w = (Ret Continue, w1) /\
  clients w1 = clients w /\ trace w1 = trace w /\
  pending (rx w c) = firstn (8 + length (fpayload f)) (pending (rx w c))
                       ++ pending (rx w1 c).
Proof.
  intros Hread H1 H2 H3 H4 H6.
  destruct (loop_body_got E c a _ _ _ Hread) as (-> & _ & Hc & Htr & _).
  rewrite dispatch_other by assumption.
  split; [reflexivity|]. split; [exact Hc|]. split; [exact Htr|].
  destruct (read_frame_spec c w) as (w' & _ & Hr & Hgot).
  rewrite Hread in Hr.
  destruct (spec_reading (rx w c)) as [r|] eqn:Hspec; [|discriminate].
  assert (r = Got f /\ w' = w1) as [-> ->] by (split; congruence).
  destruct (Hgot f eq_refl) as (Hp & _). rewrite Hp.
  symmetry. apply firstn_skipn.
Qed.

Lemma unknown_type_ignored_example :
  loop_body calm 1 (localhost 4001) world_unknown
    = (Ret Continue, snd (read_frame 1 world_unknown)) /\
  clients (snd (read_frame 1 world_unknown)) = clients world_unknown /\
  trace (snd (read_frame 1 world_unknown)) = trace world_unknown /\
  pending (rx world_unknown 1) =
    firstn (8 + 3) (pending (rx world_unknown 1))
      ++ pending (rx (snd (read_frame 1 world_unknown)) 1).
Proof.
  apply (unknown_type_ignored calm 1 (localhost 4001) world_unknown
           (snd (read_frame 1 world_unknown)) (Frame 1 9 8 3 (blit "abc")));
    try (vm_compute; reflexivity); vm_compute; discriminate.
Defined.

(** ** Acknowledgements and the end of a connection *)

(** X10. [send_ack] never lets a failed write out: with a sequence
    number of 16 bits and a message shorter than 2^32 bytes it makes
    one write and returns, whether or not the write succeeds; otherwise
    [struct.pack] raises before anything is written. *)
Theorem send_ack_outcome (E : Env) (sock : conn) (seq : Z) (message : bytes) (w : world) :
  (0 <= seq < 65536 /\ len message < 2 ^ 32 ->
   exists hdr,
     build_header VERSION TYPE_ACK seq (len message) = Some hdr /\
     send_ack E sock seq message w =
       (Ret tt,
        tick (emit (EvSendall sock (hdr ++ message) (send_ok E (ticks w) sock)) w))) /\
  (~ (0 <= seq < 65536 /\ len message < 2 ^ 32) ->
   send_ack E sock seq message w = (Raise StructError, w)).
Proof.
  assert (H0 : 0 <= len message) by (unfold len; lia).
  split.
  - intros [Hs Hl].
    destruct (build_header VERSION TYPE_ACK seq (len message)) as [hdr|] eqn:Hhdr.
    2:{ rewrite build_header_in_range in Hhdr; unfold VERSION, TYPE_ACK; try lia.
        discriminate. }
    exists hdr. split; [reflexivity|]. apply send_ack_run. exact Hhdr.
  - intros Hbad.
    destruct (build_header VERSION TYPE_ACK seq (len message)) as [hdr|] eqn:Hhdr.
    + apply build_header_some in Hhdr. exfalso. apply Hbad. lia.
    + unfold send_ack, bind. rewrite Hhdr. reflexivity.
Qed.

Lemma send_ack_outcome_example :
  (exists hdr,
     build_header VERSION TYPE_ACK 7 (len (blit "OK")) = Some hdr /\
     send_ack stormy 2 7 (blit "OK") world_closed =
       (Ret tt, tick (emit (EvSendall 2 (hdr ++ blit "OK") false) world_closed))) /\
  send_ack calm 2 65536 (blit "OK") world_closed = (Raise StructError, world_closed).
Proof.
  split.
  - apply (proj1 (send_ack_outcome stormy 2 7 (blit "OK") world_closed)).
    vm_compute. intuition discriminate.
  - apply (proj2 (send_ack_outcome calm 2 65536 (blit "OK") world_closed)).
    vm_compute. intros [[_ H] _]. discriminate H.
Defined.

(** X11. DISCONNECT ends the connection at once.  When the first
    pending frame is a DISCONNECT, [handle_client] answers with the ACK
    [BYE] carrying the sequence number of the request, then removes the
    connection from the registry and closes it; whatever the peer sent
    after the DISCONNECT stays unread. *)
Theorem disconnect_ends_the_connection
  (E : Env) (fuel : nat) (c : conn) (a : addr) (w w1 : world) (f : frame) :
  read_frame c w = (Ret (Got f), w1) ->
  ftype f = TYPE_DISCONNECT ->
  exists ack w',
    build_header VERSION TYPE_ACK (fseq f) (len (blit "BYE")) = Some ack /\
    handle_client E (S fuel) c a w = (Ret tt, w') /\
    trace w' =
      trace w ++ [EvSendall c (ack ++ blit "BYE") (send_ok E (ticks w) c);
                  EvAcquire; EvRelease; EvClose c] /\
    clients w' = unregister c (clients w) /\
    rx w' c = rx w1 c.
Proof.
  intros Hread Htype.
  destruct (loop_body_got E c a _ _ _ Hread) as (Hbody & Hf & Hc & Htr & Htk).
  destruct Hf as (_ & _ & Hs & _).
  destruct (build_header VERSION TYPE_ACK (fseq f) (len (blit "BYE"))) as [ack|] eqn:Hack.
  2:{ assert (Hlen : len (blit "BYE") = 3) by reflexivity.
      rewrite build_header_in_range in Hack;
        unfold VERSION, TYPE_ACK; try rewrite Hlen; try lia. discriminate. }
  pose proof (send_ack_run E c (fseq f) (blit "BYE") ack w1 Hack) as Hrun.
  assert (Hloop : serve_loop E (S fuel) c a w =
                  (Ret tt, tick (emit (EvSendall c (ack ++ blit "BYE")
                                         (send_ok E (ticks w1) c)) w1))).
  { cbn [serve_loop]. unfold bind at 1. rewrite Hbody.
    rewrite (dispatch_disconnect E c a f Htype).
    unfold bind at 1. rewrite Hrun. reflexivity. }
  exists ack. eexists. split; [reflexivity|].
  unfold handle_client, try_finally, try_except. rewrite Hloop.
  rewrite cleanup_run.
  split; [reflexivity|]. cbn [trace clients rx emit tick set_clients].
  rewrite Hc, Htr, Htk, <- !app_assoc. auto.
Qed.

Lemma disconnect_ends_the_connection_example :
  exists ack w',
    build_header VERSION TYPE_ACK 9 (len (blit "BYE")) = Some ack /\
    handle_client calm 1 1 (localhost 4001) world_disconnect_then_msg = (Ret tt, w') /\
    trace w' =
      trace world_disconnect_then_msg
        ++ [EvSendall 1 (ack ++ blit "BYE") true; EvAcquire; EvRelease; EvClose 1] /\
    clients w' = unregister 1 (clients world_disconnect_then_msg) /\
    rx w' 1 = rx (snd (read_frame 1 world_disconnect_then_msg)) 1.
Proof.
  apply (disconnect_ends_the_connection calm 0 1 (localhost 4001)
           world_disconnect_then_msg
           (snd (read_frame 1 world_disconnect_then_msg))
           (Frame 1 TYPE_DISCONNECT 9 0 [])).
  - vm_compute. reflexivity.
  - reflexivity.
Defined.

(** ** Invariants, step by step *)

Section Sound.
Context {St : Type} (R : St -> St -> Prop).
Hypothesis R_refl : forall w, R w w.
Hypothesis R_trans : forall w1 w2 w3, R w1 w2 -> R w2 w3 -> R w1 w3.

Lemma sound_ret {A : Type} (a : A) : sound R (ret a).
Proof. intros w. simpl. split; [discriminate | apply R_refl]. Qed.

Lemma sound_raise {A : Type} (e : exn) : sound R (@raise St A e).
Proof. intros w. simpl. split; [discriminate | apply R_refl]. Qed.

Lemma sound_bind {A B : Type} (m : M St A) (k : A -> M St B) :
  sound R m ->
  (forall a w w', m w = (Ret a, w') -> sound R (k a)) ->
  sound R (bind m k).
Proof.
  intros Hm Hk w. unfold bind. destruct (Hm w) as [Hf HR].
  destruct (m w) as [[a | e |] w1] eqn:Hmw; simpl in *.
  - destruct (Hk a w w1 Hmw w1) as [Hf2 HR2]. split; [exact Hf2|].
    eapply R_trans; eassumption.
  - split; [discriminate | exact HR].
  - congruence.
Qed.

Lemma sound_lift_option {A B : Type} (e : exn) (o : option A) (k : A -> M St B) :
  (forall a, o = Some a -> sound R (k a)) ->
  sound R (bind (lift_option e o) k).
Proof.
  intros Hk. destruct o as [a|].
  - intros w. unfold bind, lift_option, ret. apply Hk. reflexivity.
  - intros w. unfold bind, lift_option, raise. simpl.
    split; [discriminate | apply R_refl].
Qed.

Lemma sound_try_except {A : Type} (catches : exn -> bool) (m : M St A)
      (h : exn -> M St A) :
  sound R m -> (forall e, sound R (h e)) -> sound R (try_except catches m h).
Proof.
  intros Hm Hh w. unfold try_except. destruct (Hm w) as [Hf HR].
  destruct (m w) as [[a | e |] w1] eqn:Hmw; simpl in *.
  - split; [discriminate | exact HR].
  - destruct (catches e).
    + destruct (Hh e w1) as [Hf2 HR2]. split; [exact Hf2|].
      eapply R_trans; eassumption.
    + split; [discriminate | exact HR].
  - congruence.
Qed.

Lemma sound_try_finally {A : Type} (m : M St A) (f : M St unit) :
  sound R m -> sound R f -> sound R (try_finally m f).
Proof.
  intros Hm Hf w. unfold try_finally. destruct (Hm w) as [Hm1 Hm2].
  destruct (m w) as [[a | e |] w1] eqn:Hmw; simpl in *; try congruence;
    destruct (Hf w1) as [Hf1 Hf2];
    destruct (f w1) as [[[] | e' |] w2]; simpl in *; try congruence;
    (split; [discriminate | eapply R_trans; eassumption]).
Qed.

Lemma sound_for_each {X : Type} (xs : list X) (body : X -> M St unit) :
  (forall x, sound R (body x)) -> sound R (for_each xs body).
Proof.
  intros Hb. induction xs as [|x xs IH]; simpl.
  - apply sound_ret.
  - apply sound_bind; [apply Hb | intros; exact IH].
Qed.
End Sound.

(** ** A handler and the other connections *)

Lemma own_only_refl (c : conn) (w : world) : own_only c w w.
Proof. repeat split; auto. Qed.

Lemma own_only_trans (c : conn) (w1 w2 w3 : world) :
  own_only c w1 w2 -> own_only c w2 w3 -> own_only c w1 w3.
Proof.
  intros (A1 & A2 & A3) (B1 & B2 & B3). repeat split.
  - congruence.
  - intros s Hs. rewrite B2, A2 by exact Hs. reflexivity.
  - auto.
Qed.

Lemma own_only_same (c : conn) (w w' : world) :
  clients w' = clients w -> rx w' = rx w -> own_only c w w'.
Proof. intros Hc Hr. unfold own_only. rewrite Hc, Hr. auto. Qed.

Lemma dict_del_set (c : conn) (v : info) (d : registry) :
  dict_del c (dict_set c v d) = dict_del c d.
Proof.
  unfold dict_del. induction d as [|[k v'] d IH]; simpl.
  - rewrite Nat.eqb_refl. reflexivity.
  - destruct (Nat.eqb c k) eqn:Hk; simpl.
    + rewrite Nat.eqb_refl. reflexivity.
    + rewrite Hk. simpl. rewrite IH. reflexivity.
Qed.

Lemma dict_del_twice (c : conn) (d : registry) :
  dict_del c (dict_del c d) = dict_del c d.
Proof.
  apply dict_del_absent. apply dict_mem_del.
Qed.

Lemma dict_del_unregister (c : conn) (d : registry) :
  dict_del c (unregister c d) = dict_del c d.
Proof.
  unfold unregister. destruct (dict_mem c d); [apply dict_del_twice | reflexivity].
Qed.

Lemma sound_sendall (E : Env) (c s : conn) (data : bytes) :
  sound (own_only c) (sendall E s data).
Proof.
  intros w. unfold sendall. simpl.
  split; [destruct (send_ok E (ticks w) s); discriminate|].
  apply own_only_same; reflexivity.
Qed.

Lemma sound_with_lock {A : Type} (c : conn) (body : M world A) :
  sound (own_only c) body -> sound (own_only c) (with_lock body).
Proof.
  intros Hb w. unfold with_lock.
  destruct (Hb (emit EvAcquire w)) as [Hf HR].
  destruct (body (emit EvAcquire w)) as [r w1]; simpl in *.
  split; [exact Hf|].
  eapply own_only_trans; [|eapply own_only_trans; [exact HR|]];
    apply own_only_same; reflexivity.
Qed.

Lemma sound_send_ack (E : Env) (c sock : conn) (seq : Z) (message : bytes) :
  sound (own_only c) (send_ack E sock seq message).
Proof.
  unfold send_ack.
  apply sound_lift_option; [apply own_only_refl|]. intros hdr _.
  apply sound_try_except; [apply own_only_trans | apply sound_sendall |].
  intros e. apply sound_ret, own_only_refl.
Qed.

Lemma sound_broadcast (E : Env) (c : conn) (header payload : bytes) :
  sound (own_only c) (broadcast E c header payload).
Proof.
  unfold broadcast.
  apply sound_bind; [apply own_only_trans | |].
  - apply sound_with_lock. intros w. simpl.
    split; [discriminate | apply own_only_refl].
  - intros recipients w w' _.
    apply sound_for_each; [apply own_only_refl | apply own_only_trans |].
    intros s.
    apply sound_try_except; [apply own_only_trans | apply sound_sendall |].
    intros e. apply sound_ret, own_only_refl.
Qed.

Lemma sound_register (c : conn) (v : info) :
  sound (own_only c) (with_lock (d <- get_clients ;; put_clients (dict_set c v d))).
Proof.
  apply sound_with_lock. intros w. simpl. split; [discriminate|].
  repeat split; simpl; auto.
  - apply dict_del_set.
  - apply dict_set_NoDup.
Qed.

Lemma sound_dispatch (E : Env) (c : conn) (a : addr) (f : frame) :
  sound (own_only c) (dispatch E c a f).
Proof.
  pose proof (own_only_refl c) as Hrefl. pose proof (own_only_trans c) as Htrans.
  unfold dispatch.
  destruct (ftype f =? TYPE_CONNECT).
  { apply sound_bind; [exact Htrans | |].
    { apply sound_try_except;
        [exact Htrans | apply sound_ret, Hrefl | intros e; apply sound_ret, Hrefl]. }
    intros name w w' _.
    apply sound_bind; [exact Htrans | apply sound_register |].
    intros. apply sound_bind; [exact Htrans | apply sound_send_ack |].
    intros. apply sound_ret, Hrefl. }
  destruct (ftype f =? TYPE_MSG).
  { apply sound_lift_option; [exact Hrefl|]. intros header _.
    apply sound_bind; [exact Htrans | apply sound_broadcast |].
    intros. apply sound_bind; [exact Htrans | apply sound_send_ack |].
    intros. apply sound_ret, Hrefl. }
  destruct (ftype f =? TYPE_LIST).
  { apply sound_bind; [exact Htrans | |].
    { apply sound_with_lock. intros w. simpl. split; [discriminate | apply Hrefl]. }
    intros names w w' _.
    apply sound_lift_option; [exact Hrefl|]. intros list_payload _.
    apply sound_lift_option; [exact Hrefl|]. intros resp_hdr _.
    apply sound_bind; [exact Htrans | apply sound_sendall |].
    intros. apply sound_ret, Hrefl. }
  destruct (ftype f =? TYPE_FILE).
  { apply sound_bind; [exact Htrans | |].
    { intros w. simpl. split; [discriminate | apply own_only_same; reflexivity]. }
    intros t w w' _.
    apply sound_bind; [exact Htrans | |].
    { intros w0. unfold append_file.
      destruct (open_ok E (ticks w0) (recv_file_name t (fseq f))); simpl;
        (split; [discriminate | apply own_only_same; reflexivity]). }
    intros. apply sound_lift_option; [exact Hrefl|]. intros msg _.
    apply sound_bind; [exact Htrans | apply sound_send_ack |].
    intros. apply sound_ret, Hrefl. }
  destruct (ftype f =? TYPE_DISCONNECT).
  { apply sound_bind; [exact Htrans | apply sound_send_ack |].
    intros. apply sound_ret, Hrefl. }
  destruct (ftype f =? TYPE_ACK); apply sound_ret, Hrefl.
Qed.

Lemma sound_read_frame (c : conn) : sound (own_only c) (read_frame c).
Proof.
  intros w. split; [apply read_frame_returns|].
  destruct (read_frame_spec c w) as (w' & (Hc & _ & _ & Hrx) & -> & _).
  simpl. unfold own_only. rewrite Hc. auto.
Qed.

Lemma sound_loop_body (E : Env) (c : conn) (a : addr) :
  sound (own_only c) (loop_body E c a).
Proof.
  unfold loop_body.
  apply sound_bind; [apply own_only_trans | apply sound_read_frame |].
  intros [f | |] w w' _;
    [apply sound_dispatch | apply sound_ret, own_only_refl ..].
Qed.

Lemma serve_loop_own_only (E : Env) (c : conn) (a : addr) :
  forall (fuel : nat) (w : world), own_only c w (snd (serve_loop E fuel c a w)).
Proof.
  induction fuel as [|fuel IH]; intros w; cbn [serve_loop].
  - apply own_only_refl.
  - unfold bind. destruct (sound_loop_body E c a w) as [_ HR].
    destruct (loop_body E c a w) as [[[|] | e |] w1]; simpl in *; auto.
    eapply own_only_trans; [exact HR | apply IH].
Qed.

Lemma handle_client_own_only (E : Env) (fuel : nat) (c : conn) (a : addr) (w : world) :
  own_only c w (snd (handle_client E fuel c a w)).
Proof.
  pose proof (serve_loop_own_only E c a fuel w) as Hloop.
  destruct (fst (serve_loop E fuel c a w)) as [[] | e |] eqn:Hres.
  3:{ rewrite (handle_client_out_of_fuel E fuel c a w Hres). exact Hloop. }
  all: destruct (handle_client_run E fuel c a w) as (r & _ & ->); [congruence|];
    eapply own_only_trans; [exact Hloop|]; simpl;
    repeat split; simpl; auto using dict_del_unregister, unregister_NoDup.
Qed.

(** X12. A handler leaves the other connections alone.  In every run
    of [handle_client] for connection [c], complete or not, the entries
    of all other connections are in the registry as before and in the
    same order, and nothing is read from their sockets. *)
Theorem handler_leaves_others_alone
  (E : Env) (fuel : nat) (c : conn) (a : addr) (w : world) :
  dict_del c (clients (snd (handle_client E fuel c a w))) = dict_del c (clients w) /\
  (forall s, s <> c -> rx (snd (handle_client E fuel c a w)) s = rx w s).
Proof.
  destruct (handle_client_own_only E fuel c a w) as (H1 & H2 & _). auto.
Qed.

(** ** Registering again *)







(** ** The senders of the client *)

Lemma sender_step_refl (w : Client.world) : sender_step w w.
Proof.
  repeat split; auto. exists []. rewrite app_nil_r. auto.
Qed.

Lemma sender_step_trans (w1 w2 w3 : Client.world) :
  sender_step w1 w2 -> sender_step w2 w3 -> sender_step w1 w3.
Proof.
  intros (A1 & A2 & s1 & A3 & A4) (B1 & B2 & s2 & B3 & B4).
  repeat split; try congruence.
  exists (s1 ++ s2). rewrite B3, A3, app_assoc. split; [reflexivity|].
  apply Forall_app. auto.
Qed.

Lemma sound_client_sendall (E : Client.Env) (data : bytes) :
  frame_ok data = true -> sound sender_step (Client.sendall E data).
Proof.
  intros Hok w. unfold Client.sendall. simpl.
  split; [destruct (Client.send_ok E (Client.ticks w)); discriminate|].
  repeat split. eexists. split; [reflexivity|]. repeat constructor. exact Hok.
Qed.

Lemma sound_send_framed (E : Client.Env) (t seq : Z) (payload : bytes) :
  sound sender_step
    (hdr <- lift_option StructError (build_header VERSION t seq (len payload)) ;;
     Client.sendall E (hdr ++ payload)).
Proof.
  apply sound_lift_option; [apply sender_step_refl|]. intros hdr Hhdr.
  apply sound_client_sendall. eapply frame_ok_built. exact Hhdr.
Qed.

Lemma sound_send_bare (E : Client.Env) (t seq : Z) :
  sound sender_step
    (hdr <- lift_option StructError (build_header VERSION t seq 0) ;;
     Client.sendall E hdr).
Proof.
  apply sound_lift_option; [apply sender_step_refl|]. intros hdr Hhdr.
  apply sound_client_sendall.
  rewrite <- (app_nil_r hdr). eapply frame_ok_built. exact Hhdr.
Qed.

Lemma sound_send_connect (E : Client.Env) (name : str) (seq : Z) :
  sound sender_step (Client.send_connect E name seq).
Proof.
  unfold Client.send_connect.
  apply sound_lift_option; [apply sender_step_refl|]. intros payload _.
  apply sound_send_framed.
Qed.

Lemma sound_send_msg (E : Client.Env) (text : str) (seq : Z) :
  sound sender_step (Client.send_msg E text seq).
Proof.
  unfold Client.send_msg.
  apply sound_lift_option; [apply sender_step_refl|]. intros payload _.
  apply sound_send_framed.
Qed.

Lemma sound_send_list (E : Client.Env) (seq : Z) :
  sound sender_step (Client.send_list E seq).
Proof. apply sound_send_bare. Qed.

Lemma sound_send_disconnect (E : Client.Env) (seq : Z) :
  sound sender_step (Client.send_disconnect E seq).
Proof. apply sound_send_bare. Qed.

Lemma send_file_loop_unfold
  (E : Client.Env) (fuel : nat) (f : bytes) (s : Z) (k : nat) (w : Client.world) :
  Client.send_file_loop E (S fuel) f s k w =
  match firstn k f with
  | [] => (Ret tt, w)
  | b :: chunk =>
      match build_header VERSION TYPE_FILE s (len (b :: chunk)) with
      | None => (Raise StructError, w)
      | Some hdr =>
          match Client.sendall E (hdr ++ b :: chunk) w with
          | (Ret _, w1) =>
              Client.send_file_loop E fuel (skipn k f) ((s + 1) mod 65536) k w1
          | (Raise e, w1) => (Raise e, w1)
          | (OutOfFuel, w1) => (OutOfFuel, w1)
          end
      end
  end.
Proof.
  cbn [Client.send_file_loop]. destruct (firstn k f) as [|b chunk]; [reflexivity|].
  unfold bind. destruct (build_header VERSION TYPE_FILE s (len (b :: chunk)));
    reflexivity.
Qed.

Lemma send_file_loop_step (E : Client.Env) (chunk_size : nat) :
  forall (fuel : nat) (f : bytes) (s : Z) (w : Client.world),
    sender_step w (snd (Client.send_file_loop E fuel f s chunk_size w)) /\
    ((length f < fuel)%nat ->
     fst (Client.send_file_loop E fuel f s chunk_size w) <> OutOfFuel).
Proof.
  induction fuel as [|fuel IH]; intros f s w.
  - simpl. split; [apply sender_step_refl | lia].
  - rewrite send_file_loop_unfold.
    destruct (firstn chunk_size f) as [|b chunk] eqn:Hchunk.
    + simpl. split; [apply sender_step_refl | discriminate].
    + assert (Hshrink : (length (skipn chunk_size f) < length f)%nat).
      { rewrite length_skipn. destruct chunk_size; [discriminate|].
        destruct f; [discriminate|]. simpl. lia. }
      destruct (build_header VERSION TYPE_FILE s (len (b :: chunk))) as [hdr|] eqn:Hhdr.
      2:{ simpl. split; [apply sender_step_refl | discriminate]. }
      destruct (sound_client_sendall E (hdr ++ b :: chunk)
                  (frame_ok_built _ _ _ _ _ Hhdr) w) as [Hf Hs].
      destruct (Client.sendall E (hdr ++ b :: chunk) w) as [[[] | e |] w1];
        simpl in *; try congruence.
      * destruct (IH (skipn chunk_size f) ((s + 1) mod 65536) w1) as [IH1 IH2].
        split; [eapply sender_step_trans; eassumption|].
        intros Hfuel. apply IH2. lia.
      * split; [exact Hs | discriminate].
Qed.

Lemma sound_send_file (E : Client.Env) (path : str) (s : Z) (chunk_size : nat) :
  sound sender_step (Client.send_file E path s chunk_size).
Proof.
  intros w. unfold Client.send_file.
  destruct (Client.file_bytes E path) as [content|].
  - destruct (send_file_loop_step E chunk_size (S (length content)) content s w)
      as [H1 H2].
    split; [apply H2; lia | exact H1].
  - simpl. split; [discriminate | apply sender_step_refl].
Qed.

Lemma client_sendall_ok (E : Client.Env) (data : bytes) (w : Client.world) :
  Client.send_ok E (Client.ticks w) = true ->
  Client.sendall E data w =
  (Ret tt, Client.World (Client.console w) (Client.seq w)
             (Client.trace w ++ [Client.EvSendall data true]) (S (Client.ticks w))).
Proof. intros H. unfold Client.sendall. rewrite H. reflexivity. Qed.

Lemma type_and_seq_built (v t s : Z) (hdr payload : bytes) :
  build_header v t s (len payload) = Some hdr ->
  Client.type_and_seq (hdr ++ payload) = Some (t, s).
Proof.
  intros H. unfold Client.type_and_seq.
  rewrite (parse_build_header _ _ _ _ _ payload H). reflexivity.
Qed.

Lemma skipn_header (v t s l : Z) (hdr payload : bytes) :
  build_header v t s l = Some hdr -> skipn 8 (hdr ++ payload) = payload.
Proof.
  intros H. apply length_build_header in H.
  rewrite skipn_app, H, Nat.sub_diag, skipn_all2 by lia. reflexivity.
Qed.

(** With working writes, the loop of [send_file] sends the file from
    front to back. *)
Lemma send_file_loop_spec (E : Client.Env) (k : nat) :
  (forall n, Client.send_ok E n = true) ->
  (0 < k)%nat -> Z.of_nat k < 2 ^ 32 ->
  forall (fuel : nat) (f : bytes) (s : Z) (w : Client.world),
    (length f < fuel)%nat -> 0 <= s < 65536 ->
    exists w' seg,
      Client.send_file_loop E fuel f s k w = (Ret tt, w') /\
      Client.trace w' = Client.trace w ++ seg /\
      concat (map (skipn 8) (client_sent_data seg)) = f /\
      Client.sent_frames seg =
        map (fun q => Some (TYPE_FILE, q)) (seq_run (length (client_sent_data seg)) s) /\
      Forall (fun d => (8 < length d <= 8 + k)%nat) (client_sent_data seg) /\
      (length f <= length (client_sent_data seg) * k < length f + k)%nat.
Proof.
  intros Hok Hk Hk32.
  induction fuel as [|fuel IH]; intros f s w Hfuel Hs; [lia|].
  rewrite send_file_loop_unfold.
  destruct f as [|b0 f0].
  { rewrite firstn_nil. exists w, []. rewrite app_nil_r. simpl.
    repeat split; auto; lia. }
  destruct (firstn k (b0 :: f0)) as [|b chunk] eqn:Hchunk.
  { destruct k; [lia | discriminate]. }
  assert (Hclen : (length (b :: chunk) = Nat.min k (length (b0 :: f0)))%nat).
  { rewrite <- Hchunk. apply length_firstn. }
  destruct (build_header VERSION TYPE_FILE s (len (b :: chunk))) as [hdr|] eqn:Hhdr.
  2:{ rewrite build_header_in_range in Hhdr;
        unfold VERSION, TYPE_FILE, len; try lia. discriminate. }
  rewrite client_sendall_ok by apply Hok.
  set (w1 := Client.World _ _ _ _).
  destruct (IH (skipn k (b0 :: f0)) ((s + 1) mod 65536) w1) as
    (w' & seg & Hrun & Htr & Hcat & Hfr & Hlen & Hcount).
  { rewrite length_skipn. simpl length in *. lia. }
  { apply Z.mod_pos_bound. lia. }
  exists w', (Client.EvSendall (hdr ++ b :: chunk) true :: seg).
  split; [exact Hrun|].
  split; [rewrite Htr; unfold w1; simpl; rewrite <- app_assoc; reflexivity|].
  cbn [client_sent_data map concat Client.sent_frames length seq_run].
  rewrite (skipn_header _ _ _ _ _ (b :: chunk) Hhdr).
  rewrite (type_and_seq_built _ _ _ _ _ Hhdr).
  split; [rewrite Hcat, <- Hchunk; apply firstn_skipn|].
  split; [rewrite Hfr; reflexivity|].
  split.
  - constructor; [|exact Hlen].
    rewrite length_app, (length_build_header _ _ _ _ _ Hhdr). simpl length in *. lia.
  - rewrite length_skipn in Hcount. simpl length in *.
    remember (length (client_sent_data seg)) as n' eqn:Hn'. clear Hn'.
    destruct (Nat.le_gt_cases k (S (length f0))) as [Hge | Hlt].
    + rewrite Nat.mul_succ_l. lia.
    + assert (n' = 0%nat) as -> by (destruct n'; [reflexivity | rewrite Nat.mul_succ_l in Hcount; lia]).
      lia.
Qed.

(** X16. [send_file] sends the whole file, in order.  When the path is
    a file and every write succeeds, with a chunk size between 1 and
    2^32 - 1 and a starting number of 16 bits, [send_file] returns
    after sending only FILE frames whose payloads, put end to end, are
    the content of the file; each payload has between 1 and
    [chunk_size] bytes, there are as many frames as the size needs
    (none for an empty file), and their sequence numbers count up from
    the starting number, wrapping at 65536.  The counter of [main] is
    not changed. *)
Theorem send_file_sends_whole_file
  (E : Client.Env) (path : str) (content : bytes) (s : Z) (k : nat) (w : Client.world) :
  Client.file_bytes E path = Some content ->
  (forall n, Client.send_ok E n = true) ->
  (0 < k)%nat -> Z.of_nat k < 2 ^ 32 ->
  0 <= s < 65536 ->
  exists w' seg,
    Client.send_file E path s k w = (Ret tt, w') /\
    Client.trace w' = Client.trace w ++ seg /\
    concat (map (skipn 8) (client_sent_data seg)) = content /\
    Client.sent_frames seg =
      map (fun q => Some (TYPE_FILE, q)) (seq_run (length (client_sent_data seg)) s) /\
    Forall (fun d => (8 < length d <= 8 + k)%nat) (client_sent_data seg) /\
    (length content <= length (client_sent_data seg) * k < length content + k)%nat /\
    Client.seq w' = Client.seq w.
Proof.
  intros Hfile Hok Hk Hk32 Hs.
  destruct (send_file_loop_spec E k Hok Hk Hk32 (S (length content)) content s w)
    as (w' & seg & Hrun & Htr & Hcat & Hfr & Hlen & Hcount); [lia | exact Hs|].
  exists w', seg. unfold Client.send_file. rewrite Hfile.
  repeat split; auto; try lia.
  pose proof (send_file_loop_keeps_counter E k (S (length content)) content s w) as Hseq.
  rewrite Hrun in Hseq. exact Hseq.
Qed.

Lemma send_file_sends_whole_file_example :
  exists w' seg,
    Client.send_file two_chunk_file (lit "a.bin") 65535 4096 session_sendfile
      = (Ret tt, w') /\
    Client.trace w' = Client.trace session_sendfile ++ seg /\
    concat (map (skipn 8) (client_sent_data seg)) = repeat x00 5000 /\
    Client.sent_frames seg =
      map (fun q => Some (TYPE_FILE, q)) (seq_run (length (client_sent_data seg)) 65535) /\
    Forall (fun d => (8 < length d <= 8 + 4096)%nat) (client_sent_data seg) /\
    (length (repeat x00 5000) <= length (client_sent_data seg) * 4096
       < length (repeat x00 5000) + 4096)%nat /\
    Client.seq w' = Client.seq session_sendfile.
Proof.
  apply (send_file_sends_whole_file two_chunk_file (lit "a.bin") (repeat x00 5000)
           65535 4096 session_sendfile).
  - reflexivity.
  - intros n. reflexivity.
  - lia.
  - reflexivity.
  - lia.
Defined.

(** ** The command loop and [main] *)

Lemma shell_step_refl (w : Client.world) : shell_step w w.
Proof. split; auto. exists []. rewrite app_nil_r. auto. Qed.

Lemma shell_step_trans (w1 w2 w3 : Client.world) :
  shell_step w1 w2 -> shell_step w2 w3 -> shell_step w1 w3.
Proof.
  intros (A1 & s1 & A2 & A3) (B1 & s2 & B2 & B3). split; [auto|].
  exists (s1 ++ s2). rewrite B2, A2, app_assoc. split; [reflexivity|].
  apply Forall_app. auto.
Qed.

Lemma sender_shell_step (w w' : Client.world) : sender_step w w' -> shell_step w w'.
Proof. intros (_ & Hs & Hseg). split; [rewrite Hs; auto | exact Hseg]. Qed.

(** One command: send with the counter, advance it, go on with [K]. *)
Lemma shell_command (E : Client.Env) (fuel : nat)
      (send : Z -> M Client.world unit) (K : M Client.world unit) :
  (forall s, sound sender_step (send s)) ->
  (forall w, shell_step w (snd (K w)) /\
             ((length (Client.console w) < fuel)%nat -> fst (K w) <> OutOfFuel)) ->
  forall w,
    shell_step w
      (snd ((seq <- Client.get_seq ;;
             send seq ;; Client.set_seq ((seq + 1) mod 65536) ;; K) w)) /\
    ((length (Client.console w) < fuel)%nat ->
     fst ((seq <- Client.get_seq ;;
           send seq ;; Client.set_seq ((seq + 1) mod 65536) ;; K) w) <> OutOfFuel).
Proof.
  intros Hsend HK w. unfold bind, Client.get_seq, Client.set_seq.
  destruct (Hsend (Client.seq w) w) as [Hf Hs].
  destruct (send (Client.seq w) w) as [[[] | e |] w1]; simpl in *; try congruence.
  - destruct Hs as (Hcon & Hseq & Hseg).
    match goal with |- context [K ?w0] => destruct (HK w0) as [HK1 HK2] end.
    split.
    + eapply shell_step_trans; [|exact HK1]. split; [|exact Hseg].
      simpl. intros _. apply Z.mod_pos_bound. lia.
    + intros Hfuel. apply HK2. simpl. rewrite Hcon. exact Hfuel.
  - split; [apply sender_shell_step; exact Hs | discriminate].
Qed.

Lemma command_loop_unfold (E : Client.Env) (fuel : nat) (w : Client.world) :
  Client.command_loop E (S fuel) w =
  match Client.console w with
  | [] => (Raise EOFError, w)
  | Client.Interrupt :: rest =>
      (Raise KeyboardInterrupt,
       Client.World rest (Client.seq w) (Client.trace w) (Client.ticks w))
  | Client.Line line :: rest =>
      (if negb (truthy line) then Client.command_loop E fuel
       else if Client.startswith line (lit "/quit") || Client.startswith line (lit "/exit")
       then
         seq <- Client.get_seq ;;
         Client.send_disconnect E seq ;; Client.set_seq ((seq + 1) mod 65536) ;;
         ret tt
       else if Client.startswith line (lit "/who") || Client.startswith line (lit "/list")
       then
         seq <- Client.get_seq ;;
         Client.send_list E seq ;; Client.set_seq ((seq + 1) mod 65536) ;;
         Client.command_loop E fuel
       else if Client.startswith line (lit "/sendfile ") then
         path <- lift_option ValueError (Client.after_first_space line) ;;
         seq <- Client.get_seq ;;
         Client.send_file E (Client.strip path) seq 4096 ;;
         Client.set_seq ((seq + 1) mod 65536) ;;
         Client.command_loop E fuel
       else
         seq <- Client.get_seq ;;
         Client.send_msg E line seq ;; Client.set_seq ((seq + 1) mod 65536) ;;
         Client.command_loop E fuel)
        (Client.World rest (Client.seq w) (Client.trace w) (Client.ticks w))
  end.
Proof.
  cbn [Client.command_loop]. unfold bind at 1. unfold Client.input.
  destruct (Client.console w) as [|[line|] rest]; reflexivity.
Qed.

Lemma command_loop_step (E : Client.Env) :
  forall (fuel : nat) (w : Client.world),
    shell_step w (snd (Client.command_loop E fuel w)) /\
    ((length (Client.console w) < fuel)%nat ->
     fst (Client.command_loop E fuel w) <> OutOfFuel).
Proof.
  induction fuel as [|fuel IH]; intros w.
  - simpl. split; [apply shell_step_refl | lia].
  - rewrite command_loop_unfold.
    destruct w as [con s tr t]. cbn [Client.console Client.seq Client.trace Client.ticks].
    destruct con as [|[text|] rest]; cbn [length].
    + split; [apply shell_step_refl | discriminate].
    + set (w1 := Client.World rest s tr t).
      assert (Hw1 : shell_step (Client.World (Client.Line text :: rest) s tr t) w1)
        by (split; [auto | exists []; simpl; rewrite app_nil_r; auto]).
      assert (Hgoal : forall m : M Client.world unit,
                 (shell_step w1 (snd (m w1)) /\
                  ((length (Client.console w1) < fuel)%nat -> fst (m w1) <> OutOfFuel)) ->
                 shell_step (Client.World (Client.Line text :: rest) s tr t) (snd (m w1)) /\
                 ((S (length rest) < S fuel)%nat -> fst (m w1) <> OutOfFuel)).
      { intros m [H1 H2]. split; [exact (shell_step_trans _ w1 _ Hw1 H1)|].
        intros Hl. apply H2. simpl. lia. }
      destruct (negb (truthy text)); [apply Hgoal, IH|].
      destruct (Client.startswith text (lit "/quit") || Client.startswith text (lit "/exit")).
      { apply Hgoal. apply (shell_command E fuel (Client.send_disconnect E) (ret tt)).
        - apply sound_send_disconnect.
        - intros w0. simpl. split; [apply shell_step_refl | discriminate]. }
      destruct (Client.startswith text (lit "/who") || Client.startswith text (lit "/list")).
      { apply Hgoal. apply (shell_command E fuel (Client.send_list E)).
        - apply sound_send_list.
        - apply IH. }
      destruct (Client.startswith text (lit "/sendfile ")).
      { apply Hgoal. unfold bind at 1 3.
        destruct (Client.after_first_space text) as [path|]; simpl.
        - apply (shell_command E fuel
                   (fun seq => Client.send_file E (Client.strip path) seq 4096)).
          + intros s0. apply sound_send_file.
          + apply IH.
        - split; [apply shell_step_refl | discriminate]. }
      apply Hgoal. apply (shell_command E fuel (Client.send_msg E text)).
      * apply sound_send_msg.
      * apply IH.
    + split; [|discriminate].
      split; [auto | exists []; simpl; rewrite app_nil_r; auto].
Qed.

Lemma main_unfold (E : Client.Env) (fuel : nat) (name : str) (w : Client.world) :
  Client.main E fuel name w =
  match Client.send_connect E name 1
          (Client.World (Client.console w) 1 (Client.trace w) (Client.ticks w)) with
  | (Ret _, w1) =>
      try_finally
        (try_except (fun e => negb (is_Exception e))
           (Client.command_loop E fuel)
           (fun _ => seq <- Client.get_seq ;; Client.send_disconnect E seq))
        (try_except (fun _ => true) (Client.close) (fun _ => ret tt))
        (Client.World (Client.console w1) 2 (Client.trace w1) (Client.ticks w1))
  | (Raise e, w1) => (Raise e, w1)
  | (OutOfFuel, w1) => (OutOfFuel, w1)
  end.
Proof.
  unfold Client.main. unfold bind at 1. unfold Client.set_seq at 1. cbv beta iota.
  unfold bind at 1. unfold Client.get_seq at 1. cbv beta iota.
  cbn [Client.seq]. unfold bind at 1.
  destruct (Client.send_connect E name 1 _) as [[[] | e |] w1]; reflexivity.
Qed.

(** The guarded part of [main]: the loop, the handler of Ctrl-C, and
    the [finally] that closes the socket. *)
Lemma guarded_loop_shape (E : Client.Env) (fuel : nat) (w : Client.world) :
  exists seg,
    Forall client_effect_ok seg /\
    (0 <= Client.seq w < 65536 ->
     0 <= Client.seq
            (snd (try_finally
                    (try_except (fun e => negb (is_Exception e))
                       (Client.command_loop E fuel)
                       (fun _ => seq <- Client.get_seq ;; Client.send_disconnect E seq))
                    (try_except (fun _ => true) (Client.close) (fun _ => ret tt)) w))
       < 65536) /\
    (fst (Client.command_loop E fuel w) = OutOfFuel ->
     try_finally
       (try_except (fun e => negb (is_Exception e))
          (Client.command_loop E fuel)
          (fun _ => seq <- Client.get_seq ;; Client.send_disconnect E seq))
       (try_except (fun _ => true) (Client.close) (fun _ => ret tt)) w
     = (OutOfFuel, snd (Client.command_loop E fuel w)) /\
     Client.trace (snd (Client.command_loop E fuel w)) = Client.trace w ++ seg) /\
    (fst (Client.command_loop E fuel w) <> OutOfFuel ->
     fst (try_finally
            (try_except (fun e => negb (is_Exception e))
               (Client.command_loop E fuel)
               (fun _ => seq <- Client.get_seq ;; Client.send_disconnect E seq))
            (try_except (fun _ => true) (Client.close) (fun _ => ret tt)) w)
       <> OutOfFuel /\
     Client.trace
       (snd (try_finally
               (try_except (fun e => negb (is_Exception e))
                  (Client.command_loop E fuel)
                  (fun _ => seq <- Client.get_seq ;; Client.send_disconnect E seq))
               (try_except (fun _ => true) (Client.close) (fun _ => ret tt)) w))
     = Client.trace w ++ seg ++ [Client.EvClose]).
Proof.
  destruct (command_loop_step E fuel w) as [(Hseq & seg & Htr & Hseg) _].
  unfold try_finally, try_except.
  destruct (Client.command_loop E fuel w) as [[[] | e |] w3]; simpl in *.
  - exists seg. split; [exact Hseg|]. split; [exact Hseq|].
    split; [discriminate|]. intros _. split; [discriminate|].
    rewrite Htr, <- app_assoc. reflexivity.
  - destruct (negb (is_Exception e)); simpl.
    + unfold bind, Client.get_seq.
      destruct (sound_send_disconnect E (Client.seq w3) w3)
        as [Hf (_ & Hs4 & seg4 & Htr4 & Hseg4)].
      destruct (Client.send_disconnect E (Client.seq w3) w3) as [[[] | e' |] w4];
        simpl in *; try congruence;
        (exists (seg ++ seg4); split; [apply Forall_app; auto|];
         split; [rewrite Hs4; exact Hseq|];
         split; [discriminate|]; intros _; split; [discriminate|];
         rewrite Htr4, Htr, <- !app_assoc; reflexivity).
    + exists seg. split; [exact Hseg|]. split; [exact Hseq|].
      split; [discriminate|]. intros _. split; [discriminate|].
      rewrite Htr, <- app_assoc. reflexivity.
  - exists seg. split; [exact Hseg|]. split; [exact Hseq|].
    split; [auto | congruence].
Qed.

Lemma client_effect_frame_ok (seg : list Client.effect) :
  Forall client_effect_ok seg -> Forall client_frame_ok seg.
Proof.
  intros H. eapply Forall_impl; [|exact H]. intros [data ok|]; simpl; auto.
Qed.

Lemma client_effect_no_close (seg : list Client.effect) :
  Forall client_effect_ok seg -> client_count_close seg = 0%nat.
Proof.
  induction 1 as [|ev seg Hev _ IH]; [reflexivity|].
  destruct ev; simpl in *; [exact IH | contradiction].
Qed.

(** What [main] leaves behind: frames, then perhaps the [close]. *)
Lemma main_shape (E : Client.Env) (fuel : nat) (name : str) (w : Client.world) :
  exists seg,
    Forall client_effect_ok seg /\
    0 <= Client.seq (snd (Client.main E fuel name w)) < 65536 /\
    (Client.trace (snd (Client.main E fuel name w)) = Client.trace w ++ seg \/
     Client.trace (snd (Client.main E fuel name w))
       = Client.trace w ++ seg ++ [Client.EvClose]) /\
    (fst (Client.send_connect E name 1 (at_connect w)) = Ret tt ->
     (length (Client.console w) < fuel)%nat ->
     fst (Client.main E fuel name w) <> OutOfFuel /\
     Client.trace (snd (Client.main E fuel name w))
       = Client.trace w ++ seg ++ [Client.EvClose]).
Proof.
  rewrite main_unfold. fold (at_connect w).
  destruct (sound_send_connect E name 1 (at_connect w))
    as [Hf (Hc & Hs & seg1 & Htr1 & Hseg1)].
  destruct (Client.send_connect E name 1 (at_connect w)) as [[[] | e |] w1];
    simpl in *; try congruence.
  - set (w2 := Client.World (Client.console w1) 2 (Client.trace w1) (Client.ticks w1)).
    destruct (guarded_loop_shape E fuel w2) as (seg2 & Hseg2 & Hseq & Hout & Hret).
    destruct (command_loop_step E fuel w2) as [_ Hfuel].
    exists (seg1 ++ seg2). split; [apply Forall_app; auto|].
    split; [apply Hseq; simpl; lia|].
    destruct (fst (Client.command_loop E fuel w2)) as [[] | e |] eqn:Hres.
    + destruct Hret as [Hr1 Hr2]; [discriminate|]. rewrite Hr2. simpl.
      rewrite Htr1, <- !app_assoc. auto.
    + destruct Hret as [Hr1 Hr2]; [discriminate|]. rewrite Hr2. simpl.
      rewrite Htr1, <- !app_assoc. auto.
    + destruct (Hout eq_refl) as [Hr1 Hr2]. rewrite Hr1. simpl. rewrite Hr2. simpl.
      rewrite Htr1, <- !app_assoc. split; [auto|].
      intros _ Hlen. exfalso. apply Hfuel; [|reflexivity]. simpl. rewrite Hc. exact Hlen.
  - exists seg1. split; [exact Hseg1|]. rewrite Hs. split; [lia|].
    split; [auto | discriminate].
Qed.

(** X17. Every frame the client writes is well formed: in every run of
    [main], each [sendall] (CONNECT, MSG, LIST, FILE, DISCONNECT)
    writes a header followed by exactly as many bytes as its length
    field says. *)
Theorem client_frames_well_formed
  (E : Client.Env) (fuel : nat) (name : str) (w : Client.world) :
  exists seg,
    Client.trace (snd (Client.main E fuel name w)) = Client.trace w ++ seg /\
    Forall client_frame_ok seg.
Proof.
  destruct (main_shape E fuel name w) as (seg & Hseg & _ & [H | H] & _).
  - exists seg. split; [exact H | apply client_effect_frame_ok; exact Hseg].
  - exists (seg ++ [Client.EvClose]). split; [exact H|].
    apply Forall_app. split; [apply client_effect_frame_ok; exact Hseg|].
    repeat constructor.
Qed.

(** X18. The counter of [main] stays a 16-bit number: after any run of
    [main] it lies between 0 and 65535, so no sequence number ever makes
    [struct.pack] fail. *)
Theorem client_counter_in_range
  (E : Client.Env) (fuel : nat) (name : str) (w : Client.world) :
  0 <= Client.seq (snd (Client.main E fuel name w)) < 65536.
Proof.
  destruct (main_shape E fuel name w) as (seg & _ & H & _). exact H.
Qed.

Lemma send_connect_run (E : Client.Env) (name : str) (p : bytes) (s : Z) (w : Client.world) :
  utf8_encode name = Some p -> len p < 2 ^ 32 -> 0 <= s < 65536 ->
  exists hdr,
    build_header VERSION TYPE_CONNECT s (len p) = Some hdr /\
    Client.send_connect E name s w = Client.sendall E (hdr ++ p) w.
Proof.
  intros Hp Hl Hs. assert (H0 : 0 <= len p) by (unfold len; lia).
  destruct (build_header VERSION TYPE_CONNECT s (len p)) as [hdr|] eqn:Hhdr.
  2:{ rewrite build_header_in_range in Hhdr; unfold VERSION, TYPE_CONNECT; try lia.
      discriminate. }
  exists hdr. split; [reflexivity|].
  unfold Client.send_connect, bind. rewrite Hp. simpl. rewrite Hhdr. reflexivity.
Qed.

(** X19. Once the CONNECT frame is out, [main] closes the socket
    exactly once, as its last effect, however the command loop ends (a
    quit command, Ctrl-C, the end of the input, a failed write). *)
Theorem main_closes_once
  (E : Client.Env) (fuel : nat) (name : str) (p : bytes) (w : Client.world) :
  utf8_encode name = Some p -> len p < 2 ^ 32 ->
  Client.send_ok E (Client.ticks w) = true ->
  (length (Client.console w) < fuel)%nat ->
  fst (Client.main E fuel name w) <> OutOfFuel /\
  exists seg,
    Client.trace (snd (Client.main E fuel name w))
      = Client.trace w ++ seg ++ [Client.EvClose] /\
    client_count_close seg = 0%nat.
Proof.
  intros Hp Hl Hok Hfuel.
  destruct (main_shape E fuel name w) as (seg & Hseg & _ & _ & H).
  destruct H as [H1 H2]; [|exact Hfuel|].
  - destruct (send_connect_run E name p 1 (at_connect w) Hp Hl) as (hdr & _ & ->); [lia|].
    unfold Client.sendall, at_connect. simpl. rewrite Hok. reflexivity.
  - split; [exact H1|]. exists seg. split; [exact H2|].
    apply client_effect_no_close. exact Hseg.
Qed.

Lemma main_closes_once_example :
  fst (Client.main two_chunk_file 3 (lit "Bob") session_sendfile) <> OutOfFuel /\
  exists seg,
    Client.trace (snd (Client.main two_chunk_file 3 (lit "Bob") session_sendfile))
      = Client.trace session_sendfile ++ seg ++ [Client.EvClose] /\
    client_count_close seg = 0%nat.
Proof.
  apply (main_closes_once two_chunk_file 3 (lit "Bob") (blit "Bob") session_sendfile).
  - reflexivity.
  - reflexivity.
  - reflexivity.
  - simpl. lia.
Defined.

(** X20. When the write of the CONNECT frame fails, [main] raises
    [OSError] at once: [send_connect] is called before the [try], so no
    command is read and the socket is not closed. *)
Theorem connect_failure_leaves_socket_open
  (E : Client.Env) (fuel : nat) (name : str) (p : bytes) (w : Client.world) :
  utf8_encode name = Some p -> len p < 2 ^ 32 ->
  Client.send_ok E (Client.ticks w) = false ->
  exists hdr,
    build_header VERSION TYPE_CONNECT 1 (len p) = Some hdr /\
    Client.main E fuel name w =
      (Raise OSError,
       Client.World (Client.console w) 1
         (Client.trace w ++ [Client.EvSendall (hdr ++ p) false])
         (S (Client.ticks w))).
Proof.
  intros Hp Hl Hbad.
  destruct (send_connect_run E name p 1 (at_connect w) Hp Hl) as (hdr & Hhdr & Hrun);
    [lia|].
  exists hdr. split; [exact Hhdr|].
  rewrite main_unfold. fold (at_connect w). rewrite Hrun.
  unfold Client.sendall, at_connect. simpl. rewrite Hbad. reflexivity.
Qed.

Lemma connect_failure_leaves_socket_open_example :
  exists hdr,
    build_header VERSION TYPE_CONNECT 1 (len (blit "Bob")) = Some hdr /\
    Client.main offline 3 (lit "Bob") session_sendfile =
      (Raise OSError,
       Client.World (Client.console session_sendfile) 1
         (Client.trace session_sendfile ++ [Client.EvSendall (hdr ++ blit "Bob") false])
         (S (Client.ticks session_sendfile))).
Proof.
  apply (connect_failure_leaves_socket_open offline 3 (lit "Bob") (blit "Bob")
           session_sendfile); reflexivity.
Defined.

Lemma startswith_truthy (line : str) (prefix : string) :
  Client.startswith line (lit prefix) = true -> prefix <> EmptyString ->
  truthy line = true.
Proof.
  intros H Hne. destruct line as [|c line]; [|reflexivity].
  destruct prefix as [|a prefix]; [congruence | discriminate].
Qed.

Lemma disconnect_header (s : Z) :
  0 <= s < 65536 ->
  build_header VERSION TYPE_DISCONNECT s 0 =
  Some (be_bytes 1 VERSION ++ be_bytes 1 TYPE_DISCONNECT ++ be_bytes 2 s ++ be_bytes 4 0).
Proof.
  intros Hs. apply build_header_in_range; unfold VERSION, TYPE_DISCONNECT; lia.
Qed.

(** X21. A quit command ends the session.  When the first line typed
    starts with [/quit] or [/exit] and the writes succeed, [main] sends
    CONNECT with sequence number 1 and DISCONNECT with 2, closes the
    socket and returns; the lines that follow are not read. *)
Theorem quit_ends_the_session
  (E : Client.Env) (fuel : nat) (name : str) (p : bytes) (w : Client.world)
  (line : str) (rest : list Client.console_event) :
  Client.console w = Client.Line line :: rest ->
  Client.startswith line (lit "/quit") || Client.startswith line (lit "/exit") = true ->
  utf8_encode name = Some p -> len p < 2 ^ 32 ->
  (forall n, Client.send_ok E n = true) ->
  exists hdr1 hdr2,
    build_header VERSION TYPE_CONNECT 1 (len p) = Some hdr1 /\
    build_header VERSION TYPE_DISCONNECT 2 0 = Some hdr2 /\
    Client.main E (S fuel) name w =
      (Ret tt,
       Client.World rest 3
         (Client.trace w ++ [Client.EvSendall (hdr1 ++ p) true;
                             Client.EvSendall hdr2 true; Client.EvClose])
         (S (S (Client.ticks w)))).
Proof.
  intros Hcon Hquit Hp Hl Hok.
  destruct (send_connect_run E name p 1 (at_connect w) Hp Hl) as (hdr1 & Hhdr1 & Hrun);
    [lia|].
  exists hdr1. eexists. split; [exact Hhdr1|]. split; [apply disconnect_header; lia|].
  assert (Htruthy : truthy line = true).
  { apply orb_true_iff in Hquit.
    destruct Hquit as [H | H]; eapply startswith_truthy; try exact H; discriminate. }
  rewrite main_unfold. fold (at_connect w). rewrite Hrun.
  rewrite client_sendall_ok by apply Hok.
  unfold try_finally, try_except. rewrite command_loop_unfold.
  unfold at_connect. cbn [Client.console Client.seq Client.trace Client.ticks].
  rewrite Hcon, Htruthy, Hquit. cbn [negb].
  unfold bind at 1. unfold Client.get_seq at 1. cbv beta iota. cbn [Client.seq].
  unfold bind at 1. unfold Client.send_disconnect, bind at 1.
  rewrite disconnect_header by lia. cbn [lift_option ret].
  rewrite client_sendall_ok by apply Hok.
  cbn [Client.console Client.seq Client.trace Client.ticks].
  unfold bind, Client.set_seq, ret, Client.close. simpl.
  rewrite <- !app_assoc. reflexivity.
Qed.

Lemma quit_ends_the_session_example :
  exists hdr1 hdr2,
    build_header VERSION TYPE_CONNECT 1 (len (blit "Bob")) = Some hdr1 /\
    build_header VERSION TYPE_DISCONNECT 2 0 = Some hdr2 /\
    Client.main two_chunk_file 1 (lit "Bob") session_quit =
      (Ret tt,
       Client.World [Client.Line (lit "never sent")] 3
         (Client.trace session_quit ++ [Client.EvSendall (hdr1 ++ blit "Bob") true;
                                        Client.EvSendall hdr2 true; Client.EvClose])
         (S (S (Client.ticks session_quit)))).
Proof.
  apply (quit_ends_the_session two_chunk_file 0 (lit "Bob") (blit "Bob") session_quit
           (lit "/quit now") [Client.Line (lit "never sent")]);
    reflexivity.
Defined.

(** X22. Ctrl-C at the prompt: [main] sends DISCONNECT with the counter
    as it stands, without advancing it, then closes the socket and
    returns normally.  At the first prompt that is CONNECT with sequence
    number 1, DISCONNECT with 2, and the counter still 2. *)
Theorem interrupt_sends_disconnect
  (E : Client.Env) (fuel : nat) (name : str) (p : bytes) (w : Client.world)
  (rest : list Client.console_event) :
  Client.console w = Client.Interrupt :: rest ->
  utf8_encode name = Some p -> len p < 2 ^ 32 ->
  (forall n, Client.send_ok E n = true) ->
  exists hdr1 hdr2,
    build_header VERSION TYPE_CONNECT 1 (len p) = Some hdr1 /\
    build_header VERSION TYPE_DISCONNECT 2 0 = Some hdr2 /\
    Client.main E (S fuel) name w =
      (Ret tt,
       Client.World rest 2
         (Client.trace w ++ [Client.EvSendall (hdr1 ++ p) true;
                             Client.EvSendall hdr2 true; Client.EvClose])
         (S (S (Client.ticks w)))).
Proof.
  intros Hcon Hp Hl Hok.
  destruct (send_connect_run E name p 1 (at_connect w) Hp Hl) as (hdr1 & Hhdr1 & Hrun);
    [lia|].
  exists hdr1. eexists. split; [exact Hhdr1|]. split; [apply disconnect_header; lia|].
  rewrite main_unfold. fold (at_connect w). rewrite Hrun.
  rewrite client_sendall_ok by apply Hok.
  unfold try_finally, try_except. rewrite command_loop_unfold.
  unfold at_connect. cbn [Client.console Client.seq Client.trace Client.ticks].
  rewrite Hcon. cbn [is_Exception negb].
  unfold bind at 1. unfold Client.get_seq at 1. cbv beta iota. cbn [Client.seq].
  unfold Client.send_disconnect, bind at 1.
  rewrite disconnect_header by lia. cbn [lift_option ret].
  rewrite client_sendall_ok by apply Hok.
  unfold Client.close. simpl.
  rewrite <- !app_assoc. reflexivity.
Qed.

Lemma interrupt_sends_disconnect_example :
  exists hdr1 hdr2,
    build_header VERSION TYPE_CONNECT 1 (len (blit "Bob")) = Some hdr1 /\
    build_header VERSION TYPE_DISCONNECT 2 0 = Some hdr2 /\
    Client.main two_chunk_file 1 (lit "Bob") session_interrupt =
      (Ret tt,
       Client.World [Client.Line (lit "never sent")] 2
         (Client.trace session_interrupt ++ [Client.EvSendall (hdr1 ++ blit "Bob") true;
                                             Client.EvSendall hdr2 true; Client.EvClose])
         (S (S (Client.ticks session_interrupt)))).
Proof.
  apply (interrupt_sends_disconnect two_chunk_file 0 (lit "Bob") (blit "Bob")
           session_interrupt [Client.Line (lit "never sent")]);
    reflexivity.
Defined.

(** ** The receiving thread of the client *)

(** X23. The two [parse_header] agree: on every byte string the one of
    the client gives the fields the one of the server gives, and fails
    where it fails (with [struct.error] instead of [ValueError]). *)
Theorem client_parse_header_agrees (data : bytes) :
  Receiver.parse_header data = parse_header data.
Proof.
  unfold Receiver.parse_header, parse_header, HEADER_SIZE.
  destruct (length data <? 8)%nat eqn:Hlt; [|reflexivity].
  apply Nat.ltb_lt in Hlt.
  destruct data as [|b0 [|b1 [|b2 [|b3 [|b4 [|b5 [|b6 [|b7 rest]]]]]]]];
    try reflexivity.
  simpl in Hlt. lia.
Qed.

Lemma receiver_parse_header_eq (data : bytes) :
  Receiver.parse_header data = parse_header data.
Proof.
  unfold Receiver.parse_header, parse_header, HEADER_SIZE.
  destruct (length data <? 8)%nat eqn:Hlt; [|reflexivity].
  apply Nat.ltb_lt in Hlt.
  destruct data as [|b0 [|b1 [|b2 [|b3 [|b4 [|b5 [|b6 [|b7 rest]]]]]]]];
    try reflexivity.
  simpl in Hlt. lia.
Qed.

(** The reading part of the client's loop is the one of the server. *)
Lemma receiver_read_frame_eq (sock : conn) (w : world) :
  Receiver.read_frame sock w = read_frame sock w.
Proof.
  unfold Receiver.read_frame, read_frame, bind, HEADER_SIZE.
  destruct (recv_all_spec sock 8 w) as (w1 & _ & H).
  destruct (8 <=? length (pending (rx w sock)))%nat eqn:Hn.
  - apply Nat.leb_le in Hn. destruct H as (-> & _).
    rewrite receiver_parse_header_eq.
    destruct (parse_header (firstn 8 (pending (rx w sock)))) as [h|] eqn:Hp;
      [reflexivity|].
    exfalso. revert Hp. apply parse_header_total. rewrite length_firstn. lia.
  - destruct (closes (rx w sock)); rewrite H; reflexivity.
Qed.

Lemma receiver_step_refl (sock : conn) (w : world) : receiver_step sock w w.
Proof. repeat split; auto. exists []. rewrite app_nil_r. auto. Qed.

Lemma receiver_step_trans (sock : conn) (w1 w2 w3 : world) :
  receiver_step sock w1 w2 -> receiver_step sock w2 w3 -> receiver_step sock w1 w3.
Proof.
  intros (A1 & A2 & s1 & A3 & A4) (B1 & B2 & s2 & B3 & B4).
  repeat split; try congruence.
  - intros s Hs. rewrite B2, A2 by exact Hs. reflexivity.
  - exists (s1 ++ s2). rewrite B3, A3, app_assoc. split; [reflexivity|].
    apply Forall_app. auto.
Qed.

Lemma sound_receiver_read_frame (sock : conn) :
  sound (receiver_step sock) (Receiver.read_frame sock).
Proof.
  intros w. rewrite receiver_read_frame_eq. split; [apply read_frame_returns|].
  destruct (read_frame_spec sock w) as (w' & (Hc & Htr & _ & Hrx) & -> & _).
  simpl. repeat split; auto. exists []. rewrite app_nil_r. auto.
Qed.

Lemma sound_receiver_append (E : Env) (sock : conn) (fname : str) (data : bytes) :
  sound (receiver_step sock) (append_file E fname data).
Proof.
  intros w. unfold append_file. destruct (open_ok E (ticks w) fname); simpl.
  - split; [discriminate|]. repeat split; auto.
    eexists. split; [reflexivity|]. repeat constructor.
  - split; [discriminate|]. repeat split; auto.
    exists []. rewrite app_nil_r. auto.
Qed.

Lemma sound_receiver_show (E : Env) (sock : conn) (f : frame) :
  sound (receiver_step sock) (Receiver.show E f) /\
  forall w, rx (snd (Receiver.show E f w)) = rx w.
Proof.
  unfold Receiver.show.
  destruct (ftype f =? TYPE_MSG);
    [split; [apply sound_ret, receiver_step_refl | reflexivity]|].
  destruct (ftype f =? TYPE_LIST);
    [split; [apply sound_ret, receiver_step_refl | reflexivity]|].
  destruct (ftype f =? TYPE_ACK);
    [split; [apply sound_ret, receiver_step_refl | reflexivity]|].
  destruct (ftype f =? TYPE_FILE);
    [|split; [apply sound_ret, receiver_step_refl | reflexivity]].
  split; [apply sound_receiver_append|].
  intros w. unfold append_file.
  destruct (open_ok E (ticks w) (Receiver.received_file_name (fseq f))); reflexivity.
Qed.

Lemma receive_step (E : Env) (sock : conn) :
  forall (fuel : nat) (w : world),
    receiver_step sock w (snd (Receiver.receive E fuel sock w)) /\
    ((qsize (rx w sock) < fuel)%nat ->
     fst (Receiver.receive E fuel sock w) <> OutOfFuel).
Proof.
  induction fuel as [|fuel IH]; intros w.
  - simpl. split; [apply receiver_step_refl | lia].
  - cbn [Receiver.receive]. unfold bind at 1 3.
    destruct (sound_receiver_read_frame sock w) as [Hf Hs].
    pose proof (receiver_read_frame_eq sock w) as Heq.
    destruct (Receiver.read_frame sock w) as [[[f | |] | e |] w1] eqn:Hread;
      simpl in *; try congruence;
      try (split; [exact Hs | discriminate]).
    symmetry in Heq. destruct (read_frame_got _ _ _ _ Heq) as (_ & _ & Hq).
    unfold bind.
    destruct (sound_receiver_show E sock f) as [Hshow Hrx].
    destruct (Hshow w1) as [Hf2 Hs2]. specialize (Hrx w1).
    destruct (Receiver.show E f w1) as [[[] | e |] w2]; simpl in *; try congruence.
    + destruct (IH w2) as [IH1 IH2]. split.
      * eapply receiver_step_trans; [exact Hs|].
        eapply receiver_step_trans; [exact Hs2 | exact IH1].
      * intros Hfuel. apply IH2. rewrite Hrx. lia.
    + split; [eapply receiver_step_trans; eassumption | discriminate].
Qed.

(** X24. The receiving thread only saves files and closes the socket.
    With a loop bound above the measure of the queue, [recv_loop]
    returns; all it has done is append to files, and then, as its last
    effect and exactly once, close the socket: it never writes to the
    socket and reads from no other. *)
Theorem recv_loop_saves_and_closes (E : Env) (fuel : nat) (sock : conn) (w : world) :
  (qsize (rx w sock) < fuel)%nat ->
  fst (Receiver.recv_loop E fuel sock w) <> OutOfFuel /\
  (forall s, s <> sock -> rx (snd (Receiver.recv_loop E fuel sock w)) s = rx w s) /\
  exists seg,
    trace (snd (Receiver.recv_loop E fuel sock w)) = trace w ++ seg ++ [EvClose sock] /\
    Forall is_append seg.
Proof.
  intros Hfuel.
  destruct (receive_step E sock fuel w) as [(Hc & Hrx & seg & Htr & Hseg) Hret].
  specialize (Hret Hfuel).
  unfold Receiver.recv_loop, try_finally, try_except, close.
  destruct (Receiver.receive E fuel sock w) as [[[] | e |] w1]; simpl in *;
    try congruence.
  - split; [discriminate|]. split; [exact Hrx|].
    exists seg. rewrite Htr, <- app_assoc. auto.
  - destruct (is_Exception e); simpl;
      (split; [discriminate|]; split; [exact Hrx|];
       exists seg; rewrite Htr, <- app_assoc; auto).
Qed.

Lemma recv_loop_saves_and_closes_example :
  fst (Receiver.recv_loop calm 40 7 world_client_side) <> OutOfFuel /\
  (forall s, s <> 7%nat ->
     rx (snd (Receiver.recv_loop calm 40 7 world_client_side)) s = rx world_client_side s) /\
  exists seg,
    trace (snd (Receiver.recv_loop calm 40 7 world_client_side))
      = trace world_client_side ++ seg ++ [EvClose 7] /\
    Forall is_append seg.
Proof.
  apply (recv_loop_saves_and_closes calm 40 7 world_client_side).
  vm_compute. lia.
Defined.

(** What a frame from the server leaves behind on the client: the
    payload of a FILE frame is appended, whole, to the file named after
    its sequence number, if that file can be opened; a frame of any
    other type leaves nothing. *)
Lemma received_file_is_saved (E : Env) (f : frame) (w : world) :
  trace (snd (Receiver.show E f w)) =
  trace w ++
    (if (ftype f =? TYPE_FILE) && open_ok E (ticks w) (Receiver.received_file_name (fseq f))
     then [EvAppend (Receiver.received_file_name (fseq f)) (fpayload f)]
     else []).
Proof.
  unfold Receiver.show.
  destruct (ftype f =? TYPE_MSG) eqn:H2.
  { apply Z.eqb_eq in H2. rewrite H2. simpl. rewrite app_nil_r. reflexivity. }
  destruct (ftype f =? TYPE_LIST) eqn:H3.
  { apply Z.eqb_eq in H3. rewrite H3. simpl. rewrite app_nil_r. reflexivity. }
  destruct (ftype f =? TYPE_ACK) eqn:H5.
  { apply Z.eqb_eq in H5. rewrite H5. simpl. rewrite app_nil_r. reflexivity. }
  destruct (ftype f =? TYPE_FILE); simpl.
  - unfold append_file.
    destruct (open_ok E (ticks w) (Receiver.received_file_name (fseq f))); simpl.
    + reflexivity.
    + rewrite app_nil_r. reflexivity.
  - rewrite app_nil_r. reflexivity.
Qed.

(** ** The names of saved files *)



Lemma lit_inj (s1 s2 : string) : lit s1 = lit s2 -> s1 = s2.
Proof.
  revert s2. induction s1 as [|a1 s1 IH]; intros [|a2 s2] H; try discriminate.
  - reflexivity.
  - simpl in H. injection H as Ha Hs. f_equal.
    + rewrite <- (ascii_N_embedding a1), <- (ascii_N_embedding a2), Ha. reflexivity.
    + apply IH. exact Hs.
Qed.

Lemma to_int_proper (n : Z) :
  Z.to_int n <> Decimal.Pos Decimal.Nil /\ Z.to_int n <> Decimal.Neg Decimal.Nil.
Proof.
  destruct n as [|p|p]; simpl; split; try discriminate;
    intros H; injection H as H; revert H; apply DecimalPos.Unsigned.to_uint_nonnil.
Qed.

(** [str] of an integer tells the integer. *)
Lemma str_of_int_inj (n1 n2 : Z) : str_of_int n1 = str_of_int n2 -> n1 = n2.
Proof.
  unfold str_of_int. intros H. apply lit_inj in H.
  apply DecimalZ.to_int_inj.
  destruct (to_int_proper n1) as [A1 A2]. destruct (to_int_proper n2) as [B1 B2].
  pose proof (NilZero.isi (Z.to_int n1) A1 A2) as H1.
  pose proof (NilZero.isi (Z.to_int n2) B1 B2) as H2.
  rewrite H in H1. congruence.
Qed.



(** X26. Where the client saves FILE payloads: two FILE frames from the
    server are appended to the same file exactly when they carry the
    same sequence number. *)
Theorem received_file_names (s1 s2 : Z) :
  Receiver.received_file_name s1 = Receiver.received_file_name s2 <-> s1 = s2.
Proof.
  split; [|intros ->; reflexivity].
  unfold Receiver.received_file_name. intros H.
  apply app_inv_head, app_inv_tail in H. apply str_of_int_inj. exact H.
Qed.

(** ** What a sender writes, a reader reads *)

Lemma read_built_frame
  (c : conn) (w : world) (v t s : Z) (hdr payload rest : bytes) :
  build_header v t s (len payload) = Some hdr ->
  pending (rx w c) = hdr ++ payload ++ rest ->
  exists w',
    read_frame c w = (Ret (Got (Frame v t s (len payload) payload)), w') /\
    pending (rx w' c) = rest /\
    same_but_rx c w w'.
Proof.
  intros Hhdr Hp.
  pose proof (length_build_header _ _ _ _ _ Hhdr) as Hlen.
  assert (Hspec : spec_reading (rx w c) =
                  Some (Got (Frame v t s (len payload) payload))).
  { unfold spec_reading. rewrite Hp.
    replace (length (hdr ++ payload ++ rest) <? 8)%nat with false
      by (symmetry; apply Nat.ltb_ge; rewrite length_app; lia).
    rewrite firstn_app, Hlen, Nat.sub_diag, firstn_all2 by lia.
    cbn [firstn]. rewrite app_nil_r.
    rewrite <- (app_nil_r hdr) at 1. rewrite (parse_build_header _ _ _ _ _ [] Hhdr).
    rewrite skipn_app, Hlen, Nat.sub_diag, skipn_all2 by lia. cbn [skipn app].
    unfold len. rewrite Nat2Z.id.
    replace (length payload <=? length (hdr ++ payload ++ rest) - 8)%nat with true
      by (symmetry; apply Nat.leb_le; rewrite !length_app; lia).
    rewrite firstn_app, Nat.sub_diag, firstn_all2 by lia.
    cbn [firstn]. rewrite app_nil_r. reflexivity. }
  destruct (read_frame_spec c w) as (w' & Hsame & Hr & Hgot).
  rewrite Hspec in Hr. exists w'. split; [exact Hr|]. split; [|exact Hsame].
  destruct (Hgot _ Hspec) as (Hpend & _). rewrite Hpend, Hp.
  cbn [fpayload]. rewrite app_assoc, skipn_app.
  rewrite skipn_all2 by (rewrite length_app; lia).
  rewrite length_app, Hlen, Nat.sub_diag. reflexivity.
Qed.

(** X27. Frame round trip.  When the bytes pending on a socket are a
    header built by [build_header] for a payload, then that payload,
    then anything, a pass of the reader yields exactly the frame with
    those fields and that payload, and leaves what follows pending,
    however the bytes are cut into segments. *)
Theorem frame_round_trip
  (c : conn) (w : world) (v t s : Z) (hdr payload rest : bytes) :
  build_header v t s (len payload) = Some hdr ->
  pending (rx w c) = hdr ++ payload ++ rest ->
  exists w',
    read_frame c w = (Ret (Got (Frame v t s (len payload) payload)), w') /\
    pending (rx w' c) = rest /\
    same_but_rx c w w'.
Proof. apply read_built_frame. Qed.

Lemma frame_round_trip_example :
  exists w',
    read_frame 1 world_msg_bytewise
      = (Ret (Got (Frame 1 TYPE_MSG 5 (len (blit "hi")) (blit "hi"))), w') /\
    pending (rx w' 1) = [] /\
    same_but_rx 1 world_msg_bytewise w'.
Proof.
  apply (frame_round_trip 1 world_msg_bytewise 1 TYPE_MSG 5
           (firstn 8 (encode 1 TYPE_MSG 5 (blit "hi"))) (blit "hi") []);
    reflexivity.
Defined.

(** X28. From the keyboard of one client to the handler of the server.
    When [send_msg] is given a line that encodes to [p] and its write
    succeeds, it writes one byte string; and whenever those bytes are
    what is pending on a connection of the server, in whatever
    segments, the handler reads them as the MSG frame with the sequence
    number given to [send_msg] and the payload [p], and nothing of them
    is left over. *)
Theorem client_msg_reaches_server
  (E : Client.Env) (text : str) (p : bytes) (seq : Z) (cw : Client.world) :
  utf8_encode text = Some p -> len p < 2 ^ 32 -> 0 <= seq < 65536 ->
  Client.send_ok E (Client.ticks cw) = true ->
  exists data,
    Client.send_msg E text seq cw =
      (Ret tt, Client.World (Client.console cw) (Client.seq cw)
                 (Client.trace cw ++ [Client.EvSendall data true])
                 (S (Client.ticks cw))) /\
    forall (c : conn) (w : world) (rest : bytes),
      pending (rx w c) = data ++ rest ->
      exists w',
        read_frame c w = (Ret (Got (Frame VERSION TYPE_MSG seq (len p) p)), w') /\
        pending (rx w' c) = rest.
Proof.
  intros Hp Hl Hs Hok. assert (H0 : 0 <= len p) by (unfold len; lia).
  destruct (build_header VERSION TYPE_MSG seq (len p)) as [hdr|] eqn:Hhdr.
  2:{ rewrite build_header_in_range in Hhdr; unfold VERSION, TYPE_MSG; try lia.
      discriminate. }
  exists (hdr ++ p). split.
  - unfold Client.send_msg, bind. rewrite Hp. simpl. rewrite Hhdr. simpl.
    apply client_sendall_ok. exact Hok.
  - intros c w rest Hpend. rewrite <- app_assoc in Hpend.
    destruct (read_built_frame c w _ _ _ _ _ _ Hhdr Hpend) as (w' & H1 & H2 & _).
    eauto.
Qed.

Lemma client_msg_reaches_server_example :
  exists data,
    Client.send_msg two_chunk_file (lit "hi") 5 session_quit =
      (Ret tt, Client.World (Client.console session_quit) (Client.seq session_quit)
                 (Client.trace session_quit ++ [Client.EvSendall data true])
                 (S (Client.ticks session_quit))) /\
    forall (c : conn) (w : world) (rest : bytes),
      pending (rx w c) = data ++ rest ->
      exists w',
        read_frame c w = (Ret (Got (Frame VERSION TYPE_MSG 5 (len (blit "hi")) (blit "hi"))), w') /\
        pending (rx w' c) = rest.
Proof.
  apply (client_msg_reaches_server two_chunk_file (lit "hi") (blit "hi") 5 session_quit);
    try reflexivity.
  lia.
Defined.
